(** * Credential lifecycles of the GDP MCP server

    A shallow embedding of the key store ([keystore.py]), the OAuth token
    manager ([auth.py]), the authorised HTTP client ([client.py]) and the
    inbound gateway ([server.py]), with the properties their specification
    states about them; then the endpoint catalogue ([discovery.py]) and its
    lazy loading ([tools.py]), with properties read off the code.

    Conventions.
    - A Python [str] is a [string], its characters the code points 0..255.
      That is exact for a header value, which reaches the middleware decoded
      as latin-1, and for the hexadecimal keys and digests; text from a JSON
      body is taken in the same range.
    - A Python exception is a value of [exn]; code that may raise returns a
      [result].  State that survives a raise is returned next to it.
    - What the environment decides (random bytes, the clock, the outcome of
      a file write, what a remote endpoint answers) is an explicit input. *)

From Stdlib Require Import String Ascii List ZArith QArith Bool Lia Lqa.
From Stdlib Require Import Sorted Permutation.
Import ListNotations.
Close Scope Q_scope.
Open Scope string_scope.

Set Implicit Arguments.

(** ** Exceptions and results *)

Inductive exn : Type :=
| IOError
| TransportError
| HTTPStatusError (status : Z)
| JSONDecodeError
| AttributeError
| KeyError (key : string)
| TypeError
| OverflowError
| UnicodeDecodeError.

Inductive result (A : Type) : Type :=
| Ok (a : A)
| Raise (e : exn).

Arguments Ok {A} a.
Arguments Raise {A} e.

(** ** Python string operations *)

Module PyStr.

(** [str.isspace] on the code points below 256. *)
Definition isspace (c : ascii) : bool :=
  let n := nat_of_ascii c in
  (((9 <=? n) && (n <=? 13)) || ((28 <=? n) && (n <=? 32))
   || (n =? 133) || (n =? 160))%nat.

Fixpoint lstrip (s : string) : string :=
  match s with
  | EmptyString => EmptyString
  | String c r => if isspace c then lstrip r else s
  end.

Fixpoint rstrip (s : string) : string :=
  match s with
  | EmptyString => EmptyString
  | String c r =>
      match rstrip r with
      | EmptyString => if isspace c then EmptyString else String c EmptyString
      | r' => String c r'
      end
  end.

(** [s.strip()] *)
Definition strip (s : string) : string := rstrip (lstrip s).

(** [s.startswith(p)] *)
Definition startswith (p s : string) : bool := String.prefix p s.

Fixpoint drop (n : nat) (s : string) : string :=
  match n, s with
  | O, _ => s
  | S _, EmptyString => EmptyString
  | S n', String _ r => drop n' r
  end.

(** [s.removeprefix(p)] *)
Definition removeprefix (p s : string) : string :=
  if startswith p s then drop (String.length p) s else s.

(** [s[:n]] *)
Definition take (n : nat) (s : string) : string := substring 0 n s.

(** Truth value of a string: [not s] is [negb (truthy s)]. *)
Definition truthy (s : string) : bool :=
  match s with EmptyString => false | String _ _ => true end.

Fixpoint all_chars (p : ascii -> bool) (s : string) : bool :=
  match s with
  | EmptyString => true
  | String c r => p c && all_chars p r
  end.

(** The digits [secrets.token_hex] and [hexdigest] write. *)
Definition is_hex (c : ascii) : bool :=
  existsb (Ascii.eqb c) (list_ascii_of_string "0123456789abcdef").

End PyStr.

(** ** Insertion-ordered dictionaries with string keys

    A Python [dict] keeps its keys unique and in insertion order; the loop
    of [revoke_key] and the listing of [list_keys] both depend on that
    order. *)

Module Dict.

Definition t (V : Type) : Type := list (string * V).

Definition empty {V} : t V := [].

(** [d.get(k)] *)
Fixpoint get {V} (k : string) (d : t V) : option V :=
  match d with
  | [] => None
  | (k', v) :: r => if String.eqb k' k then Some v else get k r
  end.

(** [d[k] = v]: an existing key keeps its position, a new one goes last. *)
Fixpoint set {V} (k : string) (v : V) (d : t V) : t V :=
  match d with
  | [] => [(k, v)]
  | (k', v') :: r =>
      if String.eqb k' k then (k', v) :: r else (k', v') :: set k v r
  end.

(** [del d[k]], for a key that is there (the only use the code makes). *)
Definition del {V} (k : string) (d : t V) : t V :=
  filter (fun kv => negb (String.eqb (fst kv) k)) d.

(** [d.values()] and [d.items()] are the list itself, in order. *)
Definition values {V} (d : t V) : list V := map snd d.
Definition keys {V} (d : t V) : list string := map fst d.

(** The invariant of the Python type: no key occurs twice. *)
Definition wf {V} (d : t V) : Prop := NoDup (keys d).

End Dict.

(** ** SHA-256 ([hashlib.sha256(raw_key.encode()).hexdigest()])

    The digest of the standard library, written out on 32-bit words held in
    [Z], so that the key store can be run on concrete keys. *)

Module Sha256.

Local Open Scope Z_scope.

Definition w32 (x : Z) : Z := x mod 2 ^ 32.

Definition add32 (x y : Z) : Z := w32 (x + y).

Definition rotr (n x : Z) : Z :=
  Z.lor (Z.shiftr x n) (w32 (Z.shiftl x (32 - n))).

Definition not32 (x : Z) : Z := Z.lxor x 0xffffffff.

Definition Ch (x y z : Z) : Z := Z.lxor (Z.land x y) (Z.land (not32 x) z).

Definition Maj (x y z : Z) : Z :=
  Z.lxor (Z.lxor (Z.land x y) (Z.land x z)) (Z.land y z).

Definition Sigma0 (x : Z) : Z :=
  Z.lxor (Z.lxor (rotr 2 x) (rotr 13 x)) (rotr 22 x).

Definition Sigma1 (x : Z) : Z :=
  Z.lxor (Z.lxor (rotr 6 x) (rotr 11 x)) (rotr 25 x).

Definition sigma0 (x : Z) : Z :=
  Z.lxor (Z.lxor (rotr 7 x) (rotr 18 x)) (Z.shiftr x 3).

Definition sigma1 (x : Z) : Z :=
  Z.lxor (Z.lxor (rotr 17 x) (rotr 19 x)) (Z.shiftr x 10).

(** The constants are what the standard says they are: the first 32 bits
    of the fractional parts of the cube roots of the first 64 primes, and
    of the square roots of the first 8. *)
Definition is_prime (n : Z) : bool :=
  forallb (fun d => negb (n mod Z.of_nat d =? 0))
          (seq 2 (Z.to_nat n - 2)).

Definition primes : list Z :=
  filter is_prime (map Z.of_nat (seq 2 310)).

(** The integer cube root of [n], below [2 ^ k], one bit at a time. *)
Fixpoint cube_root (k : nat) (r n : Z) : Z :=
  match k with
  | O => r
  | S k' =>
      let r' := r + 2 ^ Z.of_nat k' in
      if r' * r' * r' <=? n then cube_root k' r' n else cube_root k' r n
  end.

Definition K : list Z :=
  Eval vm_compute in
    map (fun p => w32 (cube_root 36 0 (p * 2 ^ 96))) primes.

Definition H0 : list Z :=
  Eval vm_compute in
    map (fun p => w32 (Z.sqrt (p * 2 ^ 64))) (firstn 8 primes).

(** [str.encode()]: UTF-8 of code points below 256. *)
Fixpoint encode (s : string) : list Z :=
  match s with
  | EmptyString => []
  | String c r =>
      let n := Z.of_nat (nat_of_ascii c) in
      if n <? 128 then n :: encode r
      else Z.lor 0xc0 (Z.shiftr n 6) :: Z.lor 0x80 (Z.land n 0x3f) :: encode r
  end.

(** Big-endian bytes of [x], [n] of them. *)
Fixpoint be_bytes (n : nat) (x : Z) : list Z :=
  match n with
  | O => []
  | S n' => Z.land (Z.shiftr x (8 * Z.of_nat n')) 0xff :: be_bytes n' x
  end.

(** The message, a one bit, zeros up to 56 modulo 64, and the bit length. *)
Definition pad (msg : list Z) : list Z :=
  let len := Z.of_nat (List.length msg) in
  let zeros := Z.to_nat ((55 - len) mod 64) in
  msg ++ 0x80 :: repeat 0 zeros ++ be_bytes 8 (8 * len).

Fixpoint words (n : nat) (bs : list Z) : list Z :=
  match n, bs with
  | S n', b0 :: b1 :: b2 :: b3 :: r =>
      (Z.shiftl b0 24 + Z.shiftl b1 16 + Z.shiftl b2 8 + b3) :: words n' r
  | _, _ => []
  end.

(** The schedule, newest word first: [ws] holds W[t-1], W[t-2], ... *)
Fixpoint schedule (n : nat) (ws : list Z) : list Z :=
  match n with
  | O => ws
  | S n' =>
      let w := add32 (add32 (sigma1 (nth 1 ws 0)) (nth 6 ws 0))
                     (add32 (sigma0 (nth 14 ws 0)) (nth 15 ws 0)) in
      schedule n' (w :: ws)
  end.

Definition round (st : list Z) (kw : Z * Z) : list Z :=
  match st with
  | [a; b; c; d; e; f; g; h] =>
      let t1 := add32 (add32 (add32 h (Sigma1 e)) (Ch e f g))
                      (add32 (fst kw) (snd kw)) in
      let t2 := add32 (Sigma0 a) (Maj a b c) in
      [add32 t1 t2; a; b; c; add32 d t1; e; f; g]
  | _ => st
  end.

Definition compress (st : list Z) (block : list Z) : list Z :=
  let ws := rev (schedule 48 (rev (words 16 block))) in
  let st' := fold_left round (combine K ws) st in
  map (fun p => add32 (fst p) (snd p)) (combine st st').

Fixpoint blocks (n : nat) (st : list Z) (bs : list Z) : list Z :=
  match n with
  | O => st
  | S n' => blocks n' (compress st (firstn 64 bs)) (skipn 64 bs)
  end.

Definition digest (msg : list Z) : list Z :=
  let p := pad msg in
  flat_map (be_bytes 4) (blocks (List.length p / 64) H0 p).

End Sha256.

(** ** Hexadecimal rendering ([hexdigest], [secrets.token_hex]) *)

Definition hex_digit (n : Z) : ascii :=
  match n with
  | 0 => "0" | 1 => "1" | 2 => "2" | 3 => "3" | 4 => "4" | 5 => "5"
  | 6 => "6" | 7 => "7" | 8 => "8" | 9 => "9" | 10 => "a" | 11 => "b"
  | 12 => "c" | 13 => "d" | 14 => "e" | _ => "f"
  end%Z%char.

Fixpoint hexlify (bs : list Z) : string :=
  match bs with
  | [] => EmptyString
  | b :: r =>
      String (hex_digit (Z.shiftr b 4 mod 16))
        (String (hex_digit (b mod 16)) (hexlify r))
  end.

Definition sha256_hexdigest (s : string) : string :=
  hexlify (Sha256.digest (Sha256.encode s)).

(** Proofs about the store never look inside the digest; examples run it. *)
Arguments sha256_hexdigest : simpl never.
Strategy opaque [sha256_hexdigest].

(** ** JSON values ([json.load], [resp.json()], [request.json()]) *)

#[local] Set Warnings "-register-all".
Inductive json : Type :=
| JNull
| JBool (b : bool)
| JNum (q : Q)
| JStr (s : string)
| JArr (items : list json)
| JObj (fields : list (string * json)).

Module Json.

(** Truth value of the Python object a JSON value decodes to. *)
Definition truthy (j : json) : bool :=
  match j with
  | JNull => false
  | JBool b => b
  | JNum q => negb (Qeq_bool q 0)
  | JStr s => PyStr.truthy s
  | JArr items => match items with [] => false | _ => true end
  | JObj fields => match fields with [] => false | _ => true end
  end.

(** [data.get(k, default)]: only a dict has the method. *)
Definition get_default (k : string) (default : json) (data : json)
  : result json :=
  match data with
  | JObj fields =>
      match Dict.get k fields with
      | Some v => Ok v
      | None => Ok default
      end
  | _ => Raise AttributeError
  end.

(** [data[k]] on a decoded response body. *)
Definition subscript (k : string) (data : json) : result json :=
  match data with
  | JObj fields =>
      match Dict.get k fields with
      | Some v => Ok v
      | None => Raise (KeyError k)
      end
  | _ => Raise TypeError
  end.

(** The operand of [float + x]: a number, or a bool counted as 0 or 1. *)
Definition as_number (j : json) : option Q :=
  match j with
  | JNum q => Some q
  | JBool b => Some (if b then 1 else 0)%Q
  | _ => None
  end.

(** [v.strip()]: only a str has the method. *)
Definition strip (j : json) : result string :=
  match j with
  | JStr s => Ok (PyStr.strip s)
  | _ => Raise AttributeError
  end.

End Json.

(** ** The key store ([keystore.py]) *)

Module keystore.

(** The metadata stored under a digest. *)
Record key_meta : Type := {
  user : string;
  created : string;
  key_prefix : string
}.

(** The store states: what is at [KEY_STORE_PATH] when the code has written
    it or finds no store there.  [Absent]: no file.  [Unreadable]: a file on
    which [open] or the read raises [IOError], or whose text [json.load]
    rejects with [JSONDecodeError]; the two the code catches.  [Document]: a
    JSON object, without the ["keys"] member or with one that maps digests
    to records of three strings, as [generate_key] writes them.

    Any other content (text in another encoding, JSON that is no such
    object) is no store state; module [keyfile] below has the code on
    whatever is at the path, and its laws show that the two agree on the
    states here. *)
Inductive file : Type :=
| Absent
| Unreadable
| Document (keys : option (Dict.t key_meta)).

(** What the next write to the path does: it succeeds, or raises and
    leaves [residue] at the path. *)
Inductive write : Type :=
| Written
| WriteFails (residue : file).

Definition _hash_key (raw_key : string) : string :=
  sha256_hexdigest raw_key.

Definition _key_prefix (raw_key : string) : string :=
  PyStr.take 8 raw_key.

(** The value of [store["keys"]] after loading. *)
Definition _load_store (f : file) : Dict.t key_meta :=
  match f with
  | Absent => Dict.empty
  | Unreadable => Dict.empty
  | Document None => Dict.empty
  | Document (Some keys) => keys
  end.

Definition _save_store (w : write) (store : Dict.t key_meta)
  : result unit * file :=
  match w with
  | Written => (Ok tt, Document (Some store))
  | WriteFails residue => (Raise IOError, residue)
  end.

(** [secrets.token_hex(n)] over the random bytes [rnd 0], [rnd 1], ... *)
Definition token_hex (n : nat) (rnd : nat -> Z) : string :=
  hexlify (map (fun i => (rnd i mod 256)%Z) (seq 0 n)).

(** The dict [generate_key] returns. *)
Record issued : Type := {
  key : string;
  issued_user : string;
  issued_created : string;
  issued_key_prefix : string
}.

Definition generate_key (rnd : nat -> Z) (now : string) (w : write)
  (user : string) (f : file) : result issued * file :=
  let raw_key := token_hex 32 rnd in
  let hashed := _hash_key raw_key in
  let prefix := _key_prefix raw_key in
  let store := _load_store f in
  let store :=
    Dict.set hashed
      {| user := user; created := now; key_prefix := prefix |} store in
  match _save_store w store with
  | (Ok _, f') =>
      (Ok {| key := raw_key; issued_user := user; issued_created := now;
             issued_key_prefix := prefix |}, f')
  | (Raise e, f') => (Raise e, f')
  end.

(** Read-only: the file is not an output. *)
Definition validate_key (raw_key : string) (f : file) : option key_meta :=
  if negb (PyStr.truthy raw_key) then None
  else
    let hashed := _hash_key raw_key in
    let store := _load_store f in
    Dict.get hashed store.

(** An entry of [list_keys()]. *)
Record listed : Type := {
  listed_key_prefix : string;
  listed_user : string;
  listed_created : string
}.

Definition list_keys (f : file) : list listed :=
  let store := _load_store f in
  map (fun meta =>
         {| listed_key_prefix := key_prefix meta;
            listed_user := user meta;
            listed_created := created meta |})
      (Dict.values store).

(** The loop of [revoke_key]: the first item whose prefix is [prefix]. *)
Fixpoint find_target (prefix : string) (items : Dict.t key_meta)
  : option (string * key_meta) :=
  match items with
  | [] => None
  | (hashed, meta) :: rest =>
      if String.eqb (key_prefix meta) prefix then Some (hashed, meta)
      else find_target prefix rest
  end.

(** The dict [revoke_key] returns on success. *)
Record revoked : Type := {
  status : string;
  revoked_key_prefix : string;
  revoked_user : string
}.

Definition revoke_key (prefix : string) (w : write) (f : file)
  : result (option revoked) * file :=
  let store := _load_store f in
  match find_target prefix store with
  | None => (Ok None, f)
  | Some (target_hash, target_meta) =>
      let store := Dict.del target_hash store in
      match _save_store w store with
      | (Ok _, f') =>
          (Ok (Some {| status := "revoked"; revoked_key_prefix := prefix;
                       revoked_user := user target_meta |}), f')
      | (Raise e, f') => (Raise e, f')
      end
  end.

Definition has_any_keys (f : file) : bool :=
  (0 <? List.length (_load_store f))%nat.

(** *** Histories

    The calls that change the store, taken with writes that succeed, and
    the store a sequence of them leaves. *)

Inductive operation : Type :=
| Issue (rnd : nat -> Z) (now user : string)
| Revoke (prefix : string).

Definition perform (f : file) (o : operation) : file :=
  match o with
  | Issue rnd now user => snd (generate_key rnd now Written user f)
  | Revoke prefix => snd (revoke_key prefix Written f)
  end.

Definition perform_all (ops : list operation) (f : file) : file :=
  fold_left perform ops f.

(** Whether [o] issues a key with digest [h]. *)
Definition issues (h : string) (o : operation) : bool :=
  match o with
  | Issue rnd _ _ => String.eqb (_hash_key (token_hex 32 rnd)) h
  | Revoke _ => false
  end.

End keystore.

(** ** Configuration ([config.py]) *)

Module config.

Record GDPConfig : Type := {
  host : string;
  port : string;
  client_id : string;
  client_secret : string;
  username : string;
  password : string;
  verify_ssl : bool
}.

Definition base_url (c : GDPConfig) : string :=
  "https://" ++ host c ++ ":" ++ port c ++ "/restAPI".

Definition token_url (c : GDPConfig) : string :=
  "https://" ++ host c ++ ":" ++ port c ++ "/oauth/token".

End config.

(** ** The inbound gateway ([server.py]) *)

Module server.

(** What the middleware, the router and the admin handlers read of a
    request: the method; [request.url.path], which the middleware tests; the
    path of the ASGI scope, which the router matches; the [Authorization]
    header if any; [request.client.host] if there is a client; and what
    [request.json()] decodes the body to ([None] when it raises).

    The two paths are separate inputs.  Starlette rebuilds [request.url]
    from the [Host] header, the scope path and the query string and splits
    it again, so [request.url.path] is not the scope path when that holds a
    question mark, a hash sign, a tab or a newline, or when the [Host] header
    holds more than a host. *)
Record request : Type := {
  method : string;
  path : string;
  scope_path : string;
  authorization : option string;
  client_host : option string;
  body : option json
}.

Record response : Type := {
  status_code : Z;
  content : json
}.

Definition JSONResponse (content : json) (status_code : Z) : response :=
  {| status_code := status_code; content := content |}.

(** What [dispatch] does with a request: hand it on, or answer it. *)
Inductive verdict : Type :=
| CallNext
| Respond (r : response).

Definition unauthorized : response :=
  JSONResponse
    (JObj [("error", JStr "Unauthorized");
           ("message", JStr "Invalid or missing API key")]) 401.

(** [APIKeyMiddleware.dispatch] *)
Definition dispatch (req : request) (f : keystore.file) : verdict :=
  if String.eqb (path req) "/health" then CallNext
  else if PyStr.startswith "/admin" (path req) then CallNext
  else
    let auth_header :=
      match authorization req with Some h => h | None => "" end in
    let token := PyStr.strip (PyStr.removeprefix "Bearer " auth_header) in
    match keystore.validate_key token f with
    | None => Respond unauthorized
    | Some _ => CallNext
    end.

Definition _ADMIN_ALLOWED_IPS : list string :=
  ["127.0.0.1"; "::1"; "localhost"; "172.17.0.1"].

Definition _is_localhost (req : request) : bool :=
  match client_host req with
  | Some h => existsb (String.eqb h) _ADMIN_ALLOWED_IPS
  | None => false
  end.

Definition forbidden : response :=
  JSONResponse
    (JObj [("error", JStr "Forbidden");
           ("message", JStr "Admin endpoints are localhost only")]) 403.

Definition bad_request : response :=
  JSONResponse
    (JObj [("error", JStr "Bad Request");
           ("message", JStr "'user' field is required")]) 400.

Definition not_found (key_prefix : string) : response :=
  JSONResponse
    (JObj [("error", JStr "Not Found");
           ("message", JStr ("No key with prefix '" ++ key_prefix ++ "'"))])
    404.

(** The [try] block of [admin_create_key]: the stripped user of the body,
    or the empty string when anything in it raises. *)
Definition requested_user (req : request) : string :=
  match body req with
  | None => ""
  | Some b =>
      match Json.get_default "user" (JStr "") b with
      | Ok v =>
          match Json.strip v with
          | Ok user => user
          | Raise _ => ""
          end
      | Raise _ => ""
      end
  end.

Definition issued_json (r : keystore.issued) : json :=
  JObj [("key", JStr (keystore.key r));
        ("user", JStr (keystore.issued_user r));
        ("created", JStr (keystore.issued_created r));
        ("key_prefix", JStr (keystore.issued_key_prefix r))].

Definition listed_json (e : keystore.listed) : json :=
  JObj [("key_prefix", JStr (keystore.listed_key_prefix e));
        ("user", JStr (keystore.listed_user e));
        ("created", JStr (keystore.listed_created e))].

Definition revoked_json (r : keystore.revoked) : json :=
  JObj [("status", JStr (keystore.status r));
        ("key_prefix", JStr (keystore.revoked_key_prefix r));
        ("user", JStr (keystore.revoked_user r))].

(** What a handler needs from outside: random bytes, the time of day as
    [isoformat] renders it, and what a write to the store does. *)
Record environment : Type := {
  rnd : nat -> Z;
  now : string;
  disk : keystore.write
}.

Definition admin_create_key (env : environment) (req : request)
  (f : keystore.file) : result response * keystore.file :=
  if negb (_is_localhost req) then (Ok forbidden, f)
  else
    let user := requested_user req in
    if negb (PyStr.truthy user) then (Ok bad_request, f)
    else
      match keystore.generate_key (rnd env) (now env) (disk env) user f with
      | (Ok result, f') => (Ok (JSONResponse (issued_json result) 201), f')
      | (Raise e, f') => (Raise e, f')
      end.

Definition admin_list_keys (req : request) (f : keystore.file)
  : result response * keystore.file :=
  if negb (_is_localhost req) then (Ok forbidden, f)
  else
    (Ok (JSONResponse (JArr (map listed_json (keystore.list_keys f))) 200), f).

Definition admin_revoke_key (env : environment) (key_prefix : string)
  (req : request) (f : keystore.file) : result response * keystore.file :=
  if negb (_is_localhost req) then (Ok forbidden, f)
  else
    match keystore.revoke_key key_prefix (disk env) f with
    | (Ok None, f') => (Ok (not_found key_prefix), f')
    | (Ok (Some result), f') =>
        (Ok (JSONResponse (revoked_json result) 200), f')
    | (Raise e, f') => (Raise e, f')
    end.

Definition health (cfg : config.GDPConfig) (f : keystore.file) : response :=
  JSONResponse
    (JObj [("status", JStr "ok");
           ("server", JStr "GDP MCP Server");
           ("version", JStr "1.0.0");
           ("transport", JStr "sse");
           ("auth_required", JBool true);
           ("active_keys",
            JNum (inject_Z (Z.of_nat (List.length (keystore.list_keys f)))));
           ("target", JStr (config.host cfg ++ ":" ++ config.port cfg))])
    200.

(** *** The route table of [_create_sse_app] *)

Inductive endpoint : Type :=
| Health
| HandleSse
| HandlePostMessage
| AdminCreateKey
| AdminListKeys
| AdminRevokeKey.

(** A route path: a literal, a literal followed by one path parameter
    ([{key_prefix}]: one or more characters other than a slash), or a mount
    point, which takes every path below it. *)
Inductive route_path : Type :=
| Literal (p : string)
| WithParam (p : string)
| Mount (p : string).

Record route : Type := {
  route_at : route_path;
  methods : option (list string);
  endpoint_of : endpoint
}.

Definition routes : list route :=
  [ {| route_at := Literal "/health"; methods := None;
       endpoint_of := Health |};
    {| route_at := Literal "/sse"; methods := None;
       endpoint_of := HandleSse |};
    {| route_at := Mount "/messages/"; methods := None;
       endpoint_of := HandlePostMessage |};
    {| route_at := Literal "/admin/keys"; methods := Some ["POST"];
       endpoint_of := AdminCreateKey |};
    {| route_at := Literal "/admin/keys"; methods := Some ["GET"];
       endpoint_of := AdminListKeys |};
    {| route_at := WithParam "/admin/keys/"; methods := Some ["DELETE"];
       endpoint_of := AdminRevokeKey |} ].

(** *** Routing

    The table is handed to Starlette; these are its rules.  A plain route
    without [methods] answers GET, and a route that answers GET answers HEAD.
    The first route matching path and method handles the request; failing
    that, a route matching the path alone answers 405; failing that, a
    path that would match with its trailing slash toggled is redirected;
    anything else is 404. *)

Fixpoint has_slash (s : string) : bool :=
  match s with
  | EmptyString => false
  | String c r => Ascii.eqb c "/" || has_slash r
  end.

Fixpoint rstrip_slashes (s : string) : string :=
  match s with
  | EmptyString => EmptyString
  | String c r =>
      match rstrip_slashes r with
      | EmptyString =>
          if Ascii.eqb c "/" then EmptyString else String c EmptyString
      | r' => String c r'
      end
  end.

Fixpoint endswith_slash (s : string) : bool :=
  match s with
  | EmptyString => false
  | String c EmptyString => Ascii.eqb c "/"
  | String _ r => endswith_slash r
  end.

Definition effective_methods (r : route) : option (list string) :=
  match route_at r with
  | Mount _ => None
  | _ =>
      match methods r with
      | None => Some ["GET"; "HEAD"]
      | Some ms =>
          Some (if existsb (String.eqb "GET") ms then ms ++ ["HEAD"] else ms)%list
      end
  end.

(** A string with no newline in it but, possibly, as its last character:
    what [.*] followed by [$] matches. *)
Fixpoint one_line (s : string) : bool :=
  match s with
  | EmptyString => true
  | String c r =>
      if Ascii.eqb c "010" then
        match r with EmptyString => true | _ => false end
      else one_line r
  end.

(** The path parameters of a match, if the path matches at all.  A route
    matches with the regular expression compiled from its path: the literal
    text, [[^/]+] for [{key_prefix}], [.*] for what is below a mount point,
    then [$], which also matches before a newline that ends the path. *)
Definition path_params (at_ : route_path) (path : string)
  : option (option string) :=
  match at_ with
  | Literal p =>
      if String.eqb path p || String.eqb path (p ++ String "010" "")
      then Some None else None
  | WithParam p =>
      let rest := PyStr.drop (String.length p) path in
      if PyStr.startswith p path && PyStr.truthy rest && negb (has_slash rest)
      then Some (Some rest) else None
  | Mount p =>
      if PyStr.startswith p path
         && one_line (PyStr.drop (String.length p) path)
      then Some None else None
  end.

Inductive matched : Type :=
| NONE
| PARTIAL
| FULL (param : option string).

Definition matches (r : route) (method path : string) : matched :=
  match path_params (route_at r) path with
  | None => NONE
  | Some param =>
      match effective_methods r with
      | None => FULL param
      | Some ms =>
          if existsb (String.eqb method) ms then FULL param else PARTIAL
      end
  end.

Inductive routed : Type :=
| Handler (e : endpoint) (param : option string)
| MethodNotAllowed
| RedirectSlashes (location : string)
| NotFound.

Fixpoint first_full (rs : list route) (method path : string)
  : option (endpoint * option string) :=
  match rs with
  | [] => None
  | r :: rest =>
      match matches r method path with
      | FULL param => Some (endpoint_of r, param)
      | _ => first_full rest method path
      end
  end.

Definition is_partial (m : matched) : bool :=
  match m with PARTIAL => true | _ => false end.

Definition is_none (m : matched) : bool :=
  match m with NONE => true | _ => false end.

Definition resolve (method path : string) : routed :=
  match first_full routes method path with
  | Some (e, param) => Handler e param
  | None =>
      if existsb (fun r => is_partial (matches r method path)) routes
      then MethodNotAllowed
      else if String.eqb path "/" then NotFound
      else
        let toggled :=
          if endswith_slash path then rstrip_slashes path
          else path ++ "/" in
        if existsb (fun r => negb (is_none (matches r method toggled))) routes
        then RedirectSlashes toggled
        else NotFound
  end.

(** *** The application: middleware, then router, then handler *)

(** How a request ends: a JSON response of this server, a hand-over to the
    MCP transport behind [/sse] and [/messages/], an answer of the router
    itself, or an exception that escapes a handler. *)
Inductive outcome : Type :=
| Answered (r : response)
| Streaming (e : endpoint)
| ByRouter (status : Z)
| Unhandled (e : exn).

Definition handled (out : result response * keystore.file)
  : outcome * keystore.file :=
  match out with
  | (Ok r, f) => (Answered r, f)
  | (Raise e, f) => (Unhandled e, f)
  end.

Definition app (cfg : config.GDPConfig) (env : environment) (req : request)
  (f : keystore.file) : outcome * keystore.file :=
  match dispatch req f with
  | Respond r => (Answered r, f)
  | CallNext =>
      match resolve (method req) (scope_path req) with
      | Handler Health _ => (Answered (health cfg f), f)
      | Handler HandleSse _ => (Streaming HandleSse, f)
      | Handler HandlePostMessage _ => (Streaming HandlePostMessage, f)
      | Handler AdminCreateKey _ => handled (admin_create_key env req f)
      | Handler AdminListKeys _ => handled (admin_list_keys req f)
      | Handler AdminRevokeKey (Some key_prefix) =>
          handled (admin_revoke_key env key_prefix req f)
      | Handler AdminRevokeKey None => (Unhandled (KeyError "key_prefix"), f)
      | MethodNotAllowed => (ByRouter 405, f)
      | RedirectSlashes _ => (ByRouter 307, f)
      | NotFound => (ByRouter 404, f)
      end
  end.

End server.

(** ** The authorization decision as the specification words it

    Health-check route: admitted.  Admin route prefix: admitted iff the
    originating address is on the allow-list, else forbidden.  Any other
    route: admitted iff the key store knows the bearer credential, else
    unauthorized. *)

Module AuthorizationGateway.

Inductive decision : Type :=
| Admit
| Forbidden
| Unauthorized.





(** The decision read off what the server did with a request: a 403 answer
    is a forbidden decision, a 401 answer an unauthorized one, and anything
    else went past the gateway. *)
Definition decision_of (o : server.outcome) : decision :=
  match o with
  | server.Answered r =>
      if (server.status_code r =? 403)%Z then Forbidden
      else if (server.status_code r =? 401)%Z then Unauthorized
      else Admit
  | _ => Admit
  end.

(** The requests the route table sends to an admin handler. *)
Definition is_admin_endpoint (e : server.endpoint) : bool :=
  match e with
  | server.AdminCreateKey | server.AdminListKeys | server.AdminRevokeKey =>
      true
  | _ => false
  end.

Definition reaches_admin_handler (req : server.request) : bool :=
  match server.resolve (server.method req) (server.scope_path req) with
  | server.Handler e _ => is_admin_endpoint e
  | _ => false
  end.

End AuthorizationGateway.

(** ** HTTP exchanges ([httpx]) *)

Module httpx.

(** What the client reads of a response: the status, the body, and what
    [resp.json()] decodes it to ([None] when it raises). *)
Record Response : Type := {
  status_code : Z;
  content : string;
  decoded : option json
}.

(** What a request gets: no response (connection, TLS or timeout error) or
    a response. *)
Inductive reply : Type :=
| NoReply
| Reply (r : Response).

Definition is_success (r : Response) : bool :=
  ((200 <=? status_code r) && (status_code r <=? 299))%Z.

(** [resp.raise_for_status()] *)
Definition raise_for_status (r : Response) : result unit :=
  if is_success r then Ok tt else Raise (HTTPStatusError (status_code r)).

(** [resp.json()] *)
Definition json (r : Response) : result json :=
  match decoded r with
  | Some j => Ok j
  | None => Raise JSONDecodeError
  end.

End httpx.

(** ** The downstream side: state, environment and effects *)

Module Effects.

(** The POST of [_acquire_token]. *)
Record token_request : Type := {
  token_url : string;
  form : list (string * string);
  verify : bool
}.

(** A call to the appliance: [http.request(method, url, params=..., json=...,
    headers=...)], the method as the code points of [method.upper()], the
    bearer header held as the token it is built from. *)
Record api_request : Type := {
  api_method : list N;
  api_url : string;
  api_params : option json;
  api_json : option json;
  api_bearer : json;
  api_verify : bool
}.

(** The calls a run makes, in order. *)
Inductive event : Type :=
| GetToken
| Invalidate
| TokenPost (r : token_request)
| Send (r : api_request).

(** The fields of a [GDPAuth] object. *)
Record GDPAuth : Type := {
  _token : json;
  _expires_at : Q
}.

(** The environment: the successive readings of [time.time()], and what the
    [n]-th request to the token endpoint and to the appliance gets. *)
Record world : Type := {
  clock : nat -> Q;
  token_endpoint : nat -> token_request -> httpx.reply;
  appliance : nat -> api_request -> httpx.reply
}.

Record state : Type := {
  self : GDPAuth;
  ticks : nat;
  posts : nat;
  sends : nat;
  log : list event
}.

Definition with_self (a : GDPAuth) (s : state) : state :=
  {| self := a; ticks := ticks s; posts := posts s; sends := sends s;
     log := log s |}.

Definition logged (e : event) (s : state) : state :=
  {| self := self s; ticks := ticks s; posts := posts s; sends := sends s;
     log := log s ++ [e] |}.

Definition ticked (s : state) : state :=
  {| self := self s; ticks := S (ticks s); posts := posts s;
     sends := sends s; log := log s |}.

Definition posted (r : token_request) (s : state) : state :=
  {| self := self s; ticks := ticks s; posts := S (posts s);
     sends := sends s; log := log s ++ [TokenPost r] |}.

Definition sent (r : api_request) (s : state) : state :=
  {| self := self s; ticks := ticks s; posts := posts s;
     sends := S (sends s); log := log s ++ [Send r] |}.

(** A computation reads the world, changes the state, and returns or
    raises; the state at a raise is the state the exception leaves. *)
Definition M (A : Type) : Type := world -> state -> result A * state.

Definition ret {A} (a : A) : M A := fun _ s => (Ok a, s).

Definition bind {A B} (c : M A) (k : A -> M B) : M B :=
  fun w s =>
    match c w s with
    | (Ok a, s') => k a w s'
    | (Raise e, s') => (Raise e, s')
    end.

Definition raise {A} (e : exn) : M A := fun _ s => (Raise e, s).

Definition lift {A} (r : result A) : M A := fun _ s => (r, s).

Definition emit (e : event) : M unit := fun _ s => (Ok tt, logged e s).

(** [time.time()] *)
Definition time : M Q := fun w s => (Ok (clock w (ticks s)), ticked s).

Definition read_self : M GDPAuth := fun _ s => (Ok (self s), s).

Definition write_token (t : json) : M unit :=
  fun _ s =>
    (Ok tt, with_self {| _token := t; _expires_at := _expires_at (self s) |} s).

Definition write_expires_at (q : Q) : M unit :=
  fun _ s =>
    (Ok tt, with_self {| _token := _token (self s); _expires_at := q |} s).

(** [http.post(token_url, ...)] *)
Definition http_post (r : token_request) : M httpx.Response :=
  fun w s =>
    match token_endpoint w (posts s) r with
    | httpx.NoReply => (Raise TransportError, posted r s)
    | httpx.Reply resp => (Ok resp, posted r s)
    end.

(** [http.request(...)] *)
Definition http_request (r : api_request) : M httpx.Response :=
  fun w s =>
    match appliance w (sends s) r with
    | httpx.NoReply => (Raise TransportError, sent r s)
    | httpx.Reply resp => (Ok resp, sent r s)
    end.

Declare Scope monad_scope.
Delimit Scope monad_scope with monad.
Notation "x <- c1 ;; c2" := (bind c1 (fun x => c2))
  (at level 61, c1 at next level, right associativity) : monad_scope.
Notation "c1 ;; c2" := (bind c1 (fun _ => c2))
  (at level 61, right associativity) : monad_scope.

(** [x < y] on rationals, as a boolean. *)
Definition Qltb (x y : Q) : bool := negb (Qle_bool y x).

(** *** Numbers

    A decoded number is a Python [int] or a finite [float], and a clock
    reading is a [float]; each is held as the rational it denotes.  Sums are
    taken exactly.  That is the sum the code computes in double precision
    whenever the exact sum is a double itself, as it is for a clock reading
    in seconds since 1970 and a whole number of seconds like 300 (but for
    the readings within that many seconds of a power of two); otherwise the
    code rounds and the two differ by the rounding, and statements that rest
    on a sum of other numbers say that it is a double.  A number beyond the
    doubles can only be an [int], and [float + int] raises on it. *)

(** The integers from which [float + int] raises [OverflowError]: those
    that round to a power of two beyond the largest double. *)
Definition float_limit : Z := Eval vm_compute in (2 ^ 1024 - 2 ^ 970)%Z.

Definition overflows (q : Q) : bool :=
  Qle_bool (inject_Z float_limit) q || Qle_bool q (inject_Z (- float_limit)).

Arguments overflows : simpl never.

Fixpoint odd_part (p : positive) : positive :=
  match p with
  | xO p' => odd_part p'
  | _ => p
  end.

Fixpoint log2_exact (p : positive) : option Z :=
  match p with
  | xH => Some 0%Z
  | xO p' =>
      match log2_exact p' with
      | Some k => Some (k + 1)%Z
      | None => None
      end
  | xI _ => None
  end.

(** The largest double, [(2 ^ 53 - 1) * 2 ^ 971]. *)
Definition float_max : Z := Eval vm_compute in ((2 ^ 53 - 1) * 2 ^ 971)%Z.

(** The rationals that are doubles: [m * 2 ^ e] with [m] below [2 ^ 53] in
    absolute value and [e] from -1074 to 971.  In lowest terms, that is a
    numerator whose odd part is below [2 ^ 53] and that is no more than the
    largest double, over a power of two up to [2 ^ 1074]. *)
Definition binary64 (q : Q) : bool :=
  let r := Qred q in
  match Z.abs (Qnum r) with
  | Zpos n =>
      match log2_exact (Qden r) with
      | Some k =>
          (Zpos (odd_part n) <? 2 ^ 53)%Z && (Zpos n <=? float_max)%Z
          && (k <=? 1074)%Z
      | None => false
      end
  | _ => true
  end.

End Effects.

(** ** The token manager ([auth.py]) *)

Module auth.

Import Effects.
Local Open Scope monad_scope.

Definition token_form (cfg : config.GDPConfig) : token_request :=
  {| token_url := config.token_url cfg;
     form := [("grant_type", "password");
              ("client_id", config.client_id cfg);
              ("client_secret", config.client_secret cfg);
              ("username", config.username cfg);
              ("password", config.password cfg)];
     verify := config.verify_ssl cfg |}.

(** [GDPAuth.__init__] *)
Definition init : GDPAuth := {| _token := JNull; _expires_at := 0%Q |}.

Definition _acquire_token (cfg : config.GDPConfig) : M json :=
  resp <- http_post (token_form cfg) ;;
  lift (httpx.raise_for_status resp) ;;
  data <- lift (httpx.json resp) ;;
  expires_in <- lift (Json.get_default "expires_in" (JNum 300) data) ;;
  token <- lift (Json.subscript "access_token" data) ;;
  write_token token ;;
  t <- time ;;
  match Json.as_number expires_in with
  | Some e =>
      if overflows e then raise OverflowError
      else
        write_expires_at (t + e - 30)%Q ;;
        a <- read_self ;;
        ret (_token a)
  | None => raise TypeError
  end.

Definition get_token (cfg : config.GDPConfig) : M json :=
  emit GetToken ;;
  a <- read_self ;;
  if Json.truthy (_token a) then
    t <- time ;;
    if Qltb t (_expires_at a) then ret (_token a)
    else _acquire_token cfg
  else _acquire_token cfg.

Definition invalidate : M unit :=
  emit Invalidate ;;
  write_token JNull ;;
  write_expires_at 0%Q.

End auth.

(** ** The authorised client ([client.py]) *)

Module client.

Import Effects.
Local Open Scope monad_scope.

(** [c.upper()] for a character below 256, as code points: the letters
    a to z and the accented small letters go to their capitals, the sharp s
    to [SS], the micro sign and the y with diaeresis to capitals above 255;
    everything else stays. *)
Definition upper_char (c : ascii) : list N :=
  let n := N_of_ascii c in
  (if (97 <=? n) && (n <=? 122) then [n - 32]
   else if n =? 181 then [924]
   else if n =? 223 then [83; 83]
   else if (224 <=? n) && (n <=? 254) && negb (n =? 247) then [n - 32]
   else if n =? 255 then [376]
   else [n])%N.

(** [s.upper()], as code points. *)
Fixpoint upper (s : string) : list N :=
  match s with
  | EmptyString => []
  | String c r => (upper_char c ++ upper r)%list
  end.

(** The code points of a string, and equality of texts. *)
Fixpoint points (s : string) : list N :=
  match s with
  | EmptyString => []
  | String c r => N_of_ascii c :: points r
  end.

Fixpoint text_eqb (a b : list N) : bool :=
  match a, b with
  | [], [] => true
  | x :: a', y :: b' => (x =? y)%N && text_eqb a' b'
  | _, _ => false
  end.

(** The request of one attempt: parameters go in the query string of a GET
    and in the JSON body of anything else. *)
Definition attempt (cfg : config.GDPConfig) (method resource_name : string)
  (params : option json) (token : json) : api_request :=
  let is_get := text_eqb (upper method) (points "GET") in
  {| api_method := upper method;
     api_url := config.base_url cfg ++ "/" ++ resource_name;
     api_params := if is_get then params else None;
     api_json := if is_get then None else params;
     api_bearer := token;
     api_verify := config.verify_ssl cfg |}.

(** What [request] makes of the response it ends up with. *)
Definition conclude (resp : httpx.Response) : result json :=
  match httpx.raise_for_status resp with
  | Raise e => Raise e
  | Ok _ =>
      if (httpx.status_code resp =? 204)%Z
         || negb (PyStr.truthy (httpx.content resp))
      then
        Ok (JObj [("status", JStr "success");
                  ("http_code", JNum (inject_Z (httpx.status_code resp)))])
      else
        match httpx.decoded resp with
        | Some j => Ok j
        | None =>
            Ok (JObj [("status", JStr "success");
                      ("http_code",
                       JNum (inject_Z (httpx.status_code resp)));
                      ("body", JStr (PyStr.take 2000 (httpx.content resp)))])
        end
  end.

(** What [request] makes of the reply to its last attempt. *)
Definition outcome_of (reply : httpx.reply) : result json :=
  match reply with
  | httpx.NoReply => Raise TransportError
  | httpx.Reply resp => conclude resp
  end.

(** The state [invalidate] leaves: the event logged, the credential gone. *)
Definition cleared (s : state) : state :=
  with_self auth.init (logged Invalidate s).

Definition request (cfg : config.GDPConfig) (method resource_name : string)
  (params : option json) : M json :=
  token <- auth.get_token cfg ;;
  resp <- http_request (attempt cfg method resource_name params token) ;;
  resp <-
    (if (httpx.status_code resp =? 401)%Z then
       auth.invalidate ;;
       token <- auth.get_token cfg ;;
       http_request (attempt cfg method resource_name params token)
     else ret resp) ;;
  lift (conclude resp).

End client.

(** ** Protected routes *)

Module Protected.

(** The requests [dispatch] asks a key for: the path is neither the health
    check nor under [/admin]. *)
Definition route (req : server.request) : Prop :=
  server.path req <> "/health" /\
  PyStr.startswith "/admin" (server.path req) = false.

End Protected.

(** ** Runs of the client *)

Module ClientRuns.

Import Effects auth client.

(** The shapes a run of [request] can have: the first [get_token], then, if it
    returned, the first attempt, then, if that was answered 401, the second
    [get_token] from the cleared state and, if it returned, the second
    attempt. *)
Inductive run_shape cfg method resource (params : option json)
  (w : world) (s : state) : state -> Prop :=
| NoToken e s1 :
    get_token cfg w s = (Raise e, s1) ->
    run_shape cfg method resource params w s s1
| OneAttempt t1 s1 :
    get_token cfg w s = (Ok t1, s1) ->
    run_shape cfg method resource params w s
      (sent (attempt cfg method resource params t1) s1)
| NoSecondToken t1 s1 e s3 :
    get_token cfg w s = (Ok t1, s1) ->
    get_token cfg w
      (cleared (sent (attempt cfg method resource params t1) s1))
    = (Raise e, s3) ->
    run_shape cfg method resource params w s s3
| TwoAttempts t1 s1 t2 s3 :
    get_token cfg w s = (Ok t1, s1) ->
    get_token cfg w
      (cleared (sent (attempt cfg method resource params t1) s1))
    = (Ok t2, s3) ->
    run_shape cfg method resource params w s
      (sent (attempt cfg method resource params t2) s3).

End ClientRuns.

(** ** Python operations on decoded JSON values

    The catalogue code calls string methods on, iterates over, uses as
    dictionary keys and sorts whatever the appliance or the cache file
    decoded to. *)

Module PyVal.

(** [str.lower()] on the code points 0..255. *)
Definition lower_char (c : ascii) : ascii :=
  let n := nat_of_ascii c in
  if (((65 <=? n) && (n <=? 90))
      || ((192 <=? n) && (n <=? 222) && negb (n =? 215)))%nat
  then ascii_of_nat (n + 32) else c.

Fixpoint lower (s : string) : string :=
  match s with
  | EmptyString => EmptyString
  | String c r => String (lower_char c) (lower r)
  end.

(** [q in s] for strings. *)
Fixpoint contains (q s : string) : bool :=
  String.prefix q s
  || match s with
     | EmptyString => false
     | String _ r => contains q r
     end.

(** [v.lower()] and [v.upper()]: only a str has the methods. *)
Definition lower_of (v : json) : result string :=
  match v with
  | JStr s => Ok (lower s)
  | _ => Raise AttributeError
  end.

Definition upper_of (v : json) : result (list N) :=
  match v with
  | JStr s => Ok (client.upper s)
  | _ => Raise AttributeError
  end.

(** [for x in v]: the items of a list, the keys of a dict, the characters
    of a str; anything else is not iterable. *)
Fixpoint chars (s : string) : list json :=
  match s with
  | EmptyString => []
  | String c r => JStr (String c EmptyString) :: chars r
  end.

Definition iterate (v : json) : result (list json) :=
  match v with
  | JArr items => Ok items
  | JObj fields => Ok (map (fun kv => JStr (fst kv)) fields)
  | JStr s => Ok (chars s)
  | _ => Raise TypeError
  end.

(** A value that can be a dictionary key: lists and dicts cannot. *)
Definition hashable (v : json) : bool :=
  match v with
  | JArr _ | JObj _ => false
  | _ => true
  end.

(** [a == b] on hashable values: strings by content, [None] with itself,
    numbers and booleans by value ([True == 1 == 1.0]). *)
Definition key_eqb (a b : json) : bool :=
  match a, b with
  | JStr s, JStr t => String.eqb s t
  | JNull, JNull => true
  | _, _ =>
      match Json.as_number a, Json.as_number b with
      | Some x, Some y => Qeq_bool x y
      | _, _ => false
      end
  end.

(** Insertion of [x] before the first element it is less than: a stable
    sort when run over a list from the left. *)
Fixpoint insert_by {A} (lt : A -> A -> bool) (x : A) (l : list A) : list A :=
  match l with
  | [] => [x]
  | y :: r => if lt x y then x :: y :: r else y :: insert_by lt x r
  end.

Definition sort_by {A} (lt : A -> A -> bool) (l : list A) : list A :=
  fold_left (fun acc x => insert_by lt x acc) l [].

Definition is_str (v : json) : bool :=
  match v with JStr _ => true | _ => false end.

Definition is_number (v : json) : bool :=
  match Json.as_number v with Some _ => true | None => false end.

Definition str_lt (a b : json) : bool :=
  match a, b with
  | JStr s, JStr t => String.ltb s t
  | _, _ => false
  end.

Definition number_lt (a b : json) : bool :=
  match Json.as_number a, Json.as_number b with
  | Some x, Some y => Effects.Qltb x y
  | _, _ => false
  end.

(** [sorted(l, key=key)] and [l.sort(key=key)] on keys that are dictionary
    keys, so never lists or dicts: ascending and stable when the keys are
    all strings or all numbers; fewer than two elements are not compared at
    all; any other keys cannot be ordered. *)
Definition sorted_by {A} (key : A -> json) (l : list A) : result (list A) :=
  if forallb (fun x => is_str (key x)) l then
    Ok (sort_by (fun x y => str_lt (key x) (key y)) l)
  else if forallb (fun x => is_number (key x)) l then
    Ok (sort_by (fun x y => number_lt (key x) (key y)) l)
  else if (List.length l <=? 1)%nat then Ok l
  else Raise TypeError.

(** [l[:limit]] *)
Definition slice_to {A} (limit : Z) (l : list A) : list A :=
  if (limit <? 0)%Z
  then firstn (Z.to_nat (Z.of_nat (List.length l) + limit)) l
  else firstn (Z.to_nat limit) l.

End PyVal.

(** ** Dictionaries keyed by decoded values *)

Module JDict.

Definition t (V : Type) : Type := list (json * V).

(** [d.get(k)] for a hashable [k]. *)
Fixpoint get {V} (k : json) (d : t V) : option V :=
  match d with
  | [] => None
  | (k', v) :: r => if PyVal.key_eqb k' k then Some v else get k r
  end.

Fixpoint put {V} (k : json) (v : V) (d : t V) : t V :=
  match d with
  | [] => [(k, v)]
  | (k', v') :: r =>
      if PyVal.key_eqb k' k then (k', v) :: r else (k', v') :: put k v r
  end.

(** [d[k] = v]: the key must be hashable; a key already there keeps its
    place and its spelling. *)
Definition set {V} (k : json) (v : V) (d : t V) : result (t V) :=
  if PyVal.hashable k then Ok (put k v d) else Raise TypeError.

(** [d.setdefault(k, []).append(x)] *)
Definition setdefault_append {X} (k : json) (x : X) (d : t (list X))
  : result (t (list X)) :=
  if PyVal.hashable k then
    Ok (put k (match get k d with
               | Some l => (l ++ [x])%list
               | None => [x]
               end) d)
  else Raise TypeError.

Definition values {V} (d : t V) : list V := map snd d.

End JDict.

(** ** The endpoint catalogue ([discovery.py]) *)

Module discovery.

(** The dataclass [GDPEndpoint]; a field holds whatever the item had. *)
Record GDPEndpoint : Type := {
  resource_id : json;
  function_name : json;
  resource_name : json;
  verb : json;
  category : json;
  version : json;
  description : json;
  parameters : json
}.

Definition rbind {A B} (r : result A) (k : A -> result B) : result B :=
  match r with
  | Ok a => k a
  | Raise e => Raise e
  end.

Declare Scope result_scope.
Delimit Scope result_scope with result.
Notation "x <~ c1 ;; c2" := (rbind c1 (fun x => c2))
  (at level 61, c1 at next level, right associativity) : result_scope.
Local Open Scope result_scope.

(** [GDPEndpoint.from_dict] *)
Definition from_dict (data : json) : result GDPEndpoint :=
  resource_id <~ Json.subscript "resource_id" data ;;
  function_name <~ Json.subscript "api_function_name" data ;;
  resource_name <~ Json.subscript "resourceName" data ;;
  verb <~ Json.subscript "verb" data ;;
  category <~ Json.get_default "sql_app_name" (JStr "Unknown") data ;;
  version <~ Json.get_default "version" (JStr "") data ;;
  description <~ Json.get_default "apiDescription" (JStr "") data ;;
  parameters <~ Json.get_default "parameters" (JArr []) data ;;
  Ok {| resource_id := resource_id; function_name := function_name;
        resource_name := resource_name; verb := verb; category := category;
        version := version; description := description;
        parameters := parameters |}.

(** [p.get("isRequired")] *)
Definition get_or_none (k : string) (p : json) : result json :=
  Json.get_default k JNull p.

(** The property [required_params]. *)
Fixpoint required_of (ps : list json) : result (list json) :=
  match ps with
  | [] => Ok []
  | p :: rest =>
      required <~ get_or_none "isRequired" p ;;
      if Json.truthy required then
        name <~ Json.subscript "parameterName" p ;;
        names <~ required_of rest ;;
        Ok (name :: names)
      else required_of rest
  end.

Definition required_params (ep : GDPEndpoint) : result (list json) :=
  ps <~ PyVal.iterate (parameters ep) ;;
  required_of ps.

(** The fields of a [GDPDiscovery] object (the client apart). *)
Record GDPDiscovery : Type := {
  endpoints : JDict.t GDPEndpoint;
  _categories : JDict.t (list json)
}.

(** [GDPDiscovery.__init__] *)
Definition init : GDPDiscovery := {| endpoints := []; _categories := [] |}.

Definition loaded (d : GDPDiscovery) : bool :=
  (0 <? List.length (endpoints d))%nat.

(** The loop of [_index]: an exception leaves what the items before it put
    in. *)
Fixpoint index_items (items : list json) (d : GDPDiscovery)
  : result unit * GDPDiscovery :=
  match items with
  | [] => (Ok tt, d)
  | item :: rest =>
      match from_dict item with
      | Raise e => (Raise e, d)
      | Ok ep =>
          match JDict.set (function_name ep) ep (endpoints d) with
          | Raise e => (Raise e, d)
          | Ok eps =>
              let d1 := {| endpoints := eps; _categories := _categories d |} in
              match
                JDict.setdefault_append (category ep) (function_name ep)
                  (_categories d1)
              with
              | Raise e => (Raise e, d1)
              | Ok cats =>
                  index_items rest {| endpoints := eps; _categories := cats |}
              end
          end
      end
  end.

Definition _index (raw : json) (d : GDPDiscovery)
  : result unit * GDPDiscovery :=
  match PyVal.iterate raw with
  | Raise e => (Raise e, init)
  | Ok items => index_items items init
  end.

(** The test of the [or] chain of [search], left to right. *)
Definition matches_query (q : string) (ep : GDPEndpoint) : result bool :=
  name <~ PyVal.lower_of (function_name ep) ;;
  if PyVal.contains q name then Ok true
  else
    text <~ PyVal.lower_of (description ep) ;;
    if PyVal.contains q text then Ok true
    else
      cat <~ PyVal.lower_of (category ep) ;;
      if PyVal.contains q cat then Ok true
      else
        res <~ PyVal.lower_of (resource_name ep) ;;
        Ok (PyVal.contains q res).

Definition truthy_opt (o : option string) : option string :=
  match o with
  | Some s => if PyStr.truthy s then Some s else None
  | None => None
  end.

(** Whether the loop of [search] keeps an endpoint. *)
Definition keeps (q : string) (category verb : option string)
  (ep : GDPEndpoint) : result bool :=
  in_category <~
    match truthy_opt category with
    | Some c =>
        cat <~ PyVal.lower_of (discovery.category ep) ;;
        Ok (String.eqb cat (PyVal.lower c))
    | None => Ok true
    end ;;
  if negb in_category then Ok false
  else
    with_verb <~
      match truthy_opt verb with
      | Some v =>
          method <~ PyVal.upper_of (discovery.verb ep) ;;
          Ok (client.text_eqb method (client.upper v))
      | None => Ok true
      end ;;
    if negb with_verb then Ok false else matches_query q ep.

Fixpoint select (keep : GDPEndpoint -> result bool) (eps : list GDPEndpoint)
  : result (list GDPEndpoint) :=
  match eps with
  | [] => Ok []
  | ep :: rest =>
      kept <~ keep ep ;;
      results <~ select keep rest ;;
      Ok (if kept then ep :: results else results)
  end.

Definition search (query : string) (category verb : option string)
  (limit : Z) (d : GDPDiscovery) : result (list GDPEndpoint) :=
  let q := PyVal.lower query in
  results <~ select (keeps q category verb) (JDict.values (endpoints d)) ;;
  results <~ PyVal.sorted_by function_name results ;;
  Ok (PyVal.slice_to limit results).

(** The property [categories]: names with their counts, in name order. *)
Definition categories (d : GDPDiscovery) : result (list (json * nat)) :=
  items <~ PyVal.sorted_by fst (_categories d) ;;
  Ok (map (fun item => (fst item, List.length (snd item))) items).

(** *** Discovery *)

(** The file at the cache path: missing, or there with what
    [json.loads(read_text())] gives or raises. *)
Inductive cache_file : Type :=
| Missing
| Holds (decoded : result json).

(** What [write_text] does: it succeeds, or raises and leaves [residue]. *)
Inductive cache_write : Type :=
| CacheWritten
| CacheWriteFails (residue : cache_file).

Definition file_exists (c : cache_file) : bool :=
  match c with Missing => false | Holds _ => true end.

Record system : Type := {
  index : GDPDiscovery;
  file : cache_file;
  io : Effects.state
}.

(** The two places that load the cache file. *)
Definition load_cache (sys : system) : result nat * system :=
  match file sys with
  | Missing => (Raise IOError, sys)
  | Holds (Raise e) => (Raise e, sys)
  | Holds (Ok data) =>
      match _index data (index sys) with
      | (Ok _, d) =>
          (Ok (List.length (endpoints d)),
           {| index := d; file := file sys; io := io sys |})
      | (Raise e, d) =>
          (Raise e, {| index := d; file := file sys; io := io sys |})
      end
  end.

(** The request of [discover] for the catalogue. *)
Definition fetch (cfg : config.GDPConfig) : Effects.M json :=
  client.request cfg "GET" "restapi"
    (Some (JObj [("withParameters", JStr "1")])).

(** The [try] block of [discover]: the count it returns, or [None] when it
    ends without returning, by an exception or because the answer is no
    list with items. *)
Definition live (cfg : config.GDPConfig) (wr : cache_write)
  (cache_path : bool) (w : Effects.world) (sys : system)
  : option nat * system :=
  match fetch cfg w (io sys) with
  | (Raise _, io') =>
      (None, {| index := index sys; file := file sys; io := io' |})
  | (Ok data, io') =>
      match data with
      | JArr (_ :: _) =>
          match _index data (index sys) with
          | (Raise _, d) => (None, {| index := d; file := file sys; io := io' |})
          | (Ok _, d) =>
              let n := List.length (endpoints d) in
              if cache_path then
                match wr with
                | CacheWritten =>
                    (Some n,
                     {| index := d; file := Holds (Ok data); io := io' |})
                | CacheWriteFails residue =>
                    (None, {| index := d; file := residue; io := io' |})
                end
              else (Some n, {| index := d; file := file sys; io := io' |})
          end
      | _ => (None, {| index := index sys; file := file sys; io := io' |})
      end
  end.

(** [GDPDiscovery.discover]; [cache_path] says whether a path is given, the
    file at it being part of the state. *)
Definition discover (cfg : config.GDPConfig) (wr : cache_write)
  (cache_path prefer_cache : bool) (w : Effects.world) (sys : system)
  : result nat * system :=
  if prefer_cache && cache_path && file_exists (file sys) then load_cache sys
  else
    match live cfg wr cache_path w sys with
    | (Some n, sys') => (Ok n, sys')
    | (None, sys') =>
        if cache_path && file_exists (file sys') then load_cache sys'
        else (Ok 0%nat, sys')
    end.

End discovery.

(** ** The tools' lazy loading ([tools.py]) *)

Module tools.

(** [_ensure_discovered]: the path is [config.cache_path], always given. *)
Definition _ensure_discovered (cfg : config.GDPConfig)
  (wr : discovery.cache_write) (w : Effects.world) (sys : discovery.system)
  : result unit * discovery.system :=
  if discovery.loaded (discovery.index sys) then (Ok tt, sys)
  else
    match discovery.discover cfg wr true true w sys with
    | (Ok _, sys') => (Ok tt, sys')
    | (Raise e, sys') => (Raise e, sys')
    end.

End tools.

(** ** The key store on any file ([keystore.py])

    The functions of the key store once more, on whatever is at the path:
    the decoded file is any JSON value, every subscript, method call and
    membership test is the one of Python on that value, and what they raise
    is not caught by [_load_store], which catches [JSONDecodeError] and
    [IOError] only. *)

Module keyfile.

Local Notation "x <~ c1 ;; c2" := (discovery.rbind c1 (fun x => c2))
  (at level 61, c1 at next level, right associativity).

(** What reading the path gives: no file; a file on which [open] or the
    read raises [IOError]; one whose bytes are no text in the encoding of
    [open], so that the read raises [UnicodeDecodeError]; text that is no
    JSON; or text that [json.load] decodes to [data]. *)
Inductive contents : Type :=
| NoFile
| ReadFails
| NotText
| NotJson
| Text (data : json).

(** What the next write to the path does. *)
Inductive write : Type :=
| Written
| WriteFails (residue : contents).

Definition is_str (k : string) (v : json) : bool :=
  match v with
  | JStr s => String.eqb s k
  | _ => false
  end.

(** [k in data] for a str [k]: a key of a dict, an item of a list, a part
    of a str; nothing else can be searched. *)
Definition contains (k : string) (data : json) : result bool :=
  match data with
  | JObj fields =>
      Ok (match Dict.get k fields with Some _ => true | None => false end)
  | JArr items => Ok (existsb (is_str k) items)
  | JStr s => Ok (PyVal.contains k s)
  | _ => Raise TypeError
  end.

(** [data[k] = v] for a str [k]: only a dict takes it. *)
Definition setitem (k : string) (v : json) (data : json) : result json :=
  match data with
  | JObj fields => Ok (JObj (Dict.set k v fields))
  | _ => Raise TypeError
  end.

(** [data.values()] and [data.items()]: only a dict has the methods. *)
Definition items (data : json) : result (list (string * json)) :=
  match data with
  | JObj fields => Ok fields
  | _ => Raise AttributeError
  end.

Definition values (data : json) : result (list json) :=
  fields <~ items data ;; Ok (map snd fields).

(** [len(data)] *)
Definition len (data : json) : result nat :=
  match data with
  | JObj fields => Ok (List.length fields)
  | JArr l => Ok (List.length l)
  | JStr s => Ok (String.length s)
  | _ => Raise TypeError
  end.

Definition empty_store : json := JObj [("keys", JObj [])].

Definition _load_store (c : contents) : result json :=
  match c with
  | NoFile => Ok empty_store
  | ReadFails => Ok empty_store
  | NotJson => Ok empty_store
  | NotText => Raise UnicodeDecodeError
  | Text data =>
      present <~ contains "keys" data ;;
      if negb present then setitem "keys" (JObj []) data else Ok data
  end.

Definition _save_store (w : write) (store : json) : result unit * contents :=
  match w with
  | Written => (Ok tt, Text store)
  | WriteFails residue => (Raise IOError, residue)
  end.

(** The record [generate_key] stores. *)
Definition record (user now prefix : string) : json :=
  JObj [("user", JStr user); ("created", JStr now);
        ("key_prefix", JStr prefix)].

Definition generate_key (rnd : nat -> Z) (now : string) (w : write)
  (user : string) (c : contents) : result keystore.issued * contents :=
  let raw_key := keystore.token_hex 32 rnd in
  let hashed := keystore._hash_key raw_key in
  let prefix := keystore._key_prefix raw_key in
  match
    store <~ _load_store c ;;
    keys <~ Json.subscript "keys" store ;;
    keys <~ setitem hashed (record user now prefix) keys ;;
    setitem "keys" keys store
  with
  | Raise e => (Raise e, c)
  | Ok store =>
      match _save_store w store with
      | (Ok _, c') =>
          (Ok {| keystore.key := raw_key; keystore.issued_user := user;
                 keystore.issued_created := now;
                 keystore.issued_key_prefix := prefix |}, c')
      | (Raise e, c') => (Raise e, c')
      end
  end.

(** The entry, [JNull] standing for [None].  The arguments of the debug
    message are computed whenever the entry counts as true. *)
Definition validate_key (raw_key : string) (c : contents) : result json :=
  if negb (PyStr.truthy raw_key) then Ok JNull
  else
    let hashed := keystore._hash_key raw_key in
    store <~ _load_store c ;;
    keys <~ Json.subscript "keys" store ;;
    entry <~ discovery.get_or_none hashed keys ;;
    if Json.truthy entry then
      _ <~ Json.subscript "user" entry ;;
      _ <~ Json.subscript "key_prefix" entry ;;
      Ok entry
    else Ok entry.

Definition listed (meta : json) : result json :=
  key_prefix <~ Json.subscript "key_prefix" meta ;;
  user <~ Json.subscript "user" meta ;;
  created <~ Json.subscript "created" meta ;;
  Ok (JObj [("key_prefix", key_prefix); ("user", user);
            ("created", created)]).

Fixpoint listing (metas : list json) : result (list json) :=
  match metas with
  | [] => Ok []
  | meta :: rest =>
      entry <~ listed meta ;;
      entries <~ listing rest ;;
      Ok (entry :: entries)
  end.

Definition list_keys (c : contents) : result (list json) :=
  store <~ _load_store c ;;
  keys <~ Json.subscript "keys" store ;;
  metas <~ values keys ;;
  listing metas.

(** The loop of [revoke_key]. *)
Fixpoint find_target (prefix : string) (entries : list (string * json))
  : result (option (string * json)) :=
  match entries with
  | [] => Ok None
  | (hashed, meta) :: rest =>
      key_prefix <~ Json.subscript "key_prefix" meta ;;
      if is_str prefix key_prefix then Ok (Some (hashed, meta))
      else find_target prefix rest
  end.

(** The user is read off the record after the write. *)
Definition revoke_key (prefix : string) (w : write) (c : contents)
  : result (option json) * contents :=
  match
    store <~ _load_store c ;;
    keys <~ Json.subscript "keys" store ;;
    entries <~ items keys ;;
    target <~ find_target prefix entries ;;
    Ok (store, entries, target)
  with
  | Raise e => (Raise e, c)
  | Ok (_, _, None) => (Ok None, c)
  | Ok (store, entries, Some (target_hash, target_meta)) =>
      match setitem "keys" (JObj (Dict.del target_hash entries)) store with
      | Raise e => (Raise e, c)
      | Ok store =>
          match _save_store w store with
          | (Raise e, c') => (Raise e, c')
          | (Ok _, c') =>
              match Json.subscript "user" target_meta with
              | Raise e => (Raise e, c')
              | Ok user =>
                  (Ok (Some (JObj [("status", JStr "revoked");
                                   ("key_prefix", JStr prefix);
                                   ("user", user)])), c')
              end
          end
      end
  end.

Definition has_any_keys (c : contents) : result bool :=
  store <~ _load_store c ;;
  keys <~ Json.subscript "keys" store ;;
  n <~ len keys ;;
  Ok (0 <? n)%nat.

(** *** The store states among the files *)






End keyfile.

(** ** Words for statements about the catalogue *)

Module Catalog.

(** The name of an endpoint whose [function_name] is a string. *)
Definition name_of (ep : discovery.GDPEndpoint) : string :=
  match discovery.function_name ep with
  | JStr s => s
  | _ => ""
  end.

(** In name order, by code points. *)
Definition name_le (a b : discovery.GDPEndpoint) : Prop :=
  String.leb (name_of a) (name_of b) = true.

(** [q] occurs in [s]. *)
Definition occurs (q s : string) : Prop := exists a b, s = a ++ q ++ b.

(** The number of names filed under the categories. *)
Definition filed (cats : JDict.t (list json)) : nat :=
  list_sum (map (fun item => List.length (snd item)) cats).

(** The sum of the counts [categories] reports. *)
Definition total (counts : list (json * nat)) : nat :=
  list_sum (map snd counts).

End Catalog.

(** ** Concrete runs used in the examples below *)

Module Scenario.

(** Two random sources whose first four bytes agree. *)
Definition rnd_alice (i : nat) : Z := if (i <? 4)%nat then 0xab else 0x01.
Definition rnd_bob (i : nat) : Z := if (i <? 4)%nat then 0xab else 0x02.

Definition alice_key : string := keystore.token_hex 32 rnd_alice.
Definition bob_key : string := keystore.token_hex 32 rnd_bob.

(** The store after a key for alice, then one for bob, from no file. *)
Definition one_key : keystore.file :=
  snd (keystore.generate_key rnd_alice "2025-01-01T00:00:00+00:00"
         keystore.Written "alice" keystore.Absent).

Definition two_keys : keystore.file :=
  snd (keystore.generate_key rnd_bob "2025-01-02T00:00:00+00:00"
         keystore.Written "bob" one_key).

Definition cfg : config.GDPConfig :=
  {| config.host := "gdp.example.com"; config.port := "8443";
     config.client_id := "client"; config.client_secret := "secret";
     config.username := "admin"; config.password := "pw";
     config.verify_ssl := false |}.

Definition env : server.environment :=
  {| server.rnd := rnd_alice; server.now := "2025-01-01T00:00:00+00:00";
     server.disk := keystore.Written |}.


(** A request for the SSE endpoint whose header is Alice's bare key. *)
Definition bare_key_request : server.request :=
  {| server.method := "GET"; server.path := "/sse";
     server.scope_path := "/sse";
     server.authorization := Some alice_key;
     server.client_host := Some "10.0.0.1"; server.body := None |}.

(** Requests to issue a key, from the loopback address. *)
Definition issue_request (b : option json) : server.request :=
  {| server.method := "POST"; server.path := "/admin/keys";
     server.scope_path := "/admin/keys";
     server.authorization := None; server.client_host := Some "127.0.0.1";
     server.body := b |}.


(** A token endpoint that issues [token-0], [token-1], ... valid for 300
    seconds, a clock that reads 1000, 1001, ..., and an appliance that
    rejects the first request with 401 and serves the second. *)
Definition token_body (n : nat) : json :=
  JObj [("access_token",
         JStr (String.append "token-" (String (ascii_of_nat (48 + n)) "")));
        ("expires_in", JNum 300)].

Definition granted (n : nat) : httpx.Response :=
  {| httpx.status_code := 200; httpx.content := "{...}";
     httpx.decoded := Some (token_body n) |}.

Definition rejected : httpx.Response :=
  {| httpx.status_code := 401; httpx.content := "";
     httpx.decoded := None |}.

Definition served : httpx.Response :=
  {| httpx.status_code := 200; httpx.content := "[]";
     httpx.decoded := Some (JArr []) |}.

Definition expiring_session : Effects.world :=
  {| Effects.clock := fun n => (1000 + inject_Z (Z.of_nat n))%Q;
     Effects.token_endpoint := fun n _ => httpx.Reply (granted n);
     Effects.appliance :=
       fun n _ =>
         match n with
         | O => httpx.Reply rejected
         | _ => httpx.Reply served
         end |}.

(** The same, with a token endpoint that stops answering after the first
    token. *)
Definition endpoint_lost : Effects.world :=
  {| Effects.clock := Effects.clock expiring_session;
     Effects.token_endpoint :=
       fun n _ =>
         match n with
         | O => httpx.Reply (granted 0)
         | _ => httpx.NoReply
         end;
     Effects.appliance := Effects.appliance expiring_session |}.

Definition fresh : Effects.state :=
  {| Effects.self := auth.init; Effects.ticks := 0; Effects.posts := 0;
     Effects.sends := 0; Effects.log := [] |}.

End Scenario.


(** ** More concrete runs *)

Module Cases.

(** A random source that shares no prefix with Alice's and Bob's. *)
Definition rnd_carol (i : nat) : Z := if (i <? 4)%nat then 0xcd else 0x03.

Definition carol_key : string := keystore.token_hex 32 rnd_carol.

Definition carol_time : string := "2025-01-03T00:00:00+00:00".

End Cases.

Module Requests.

(** A request for the SSE endpoint from a remote address with a given
    [Authorization] header. *)
Definition sse (header : option string) : server.request :=
  {| server.method := "GET"; server.path := "/sse";
     server.scope_path := "/sse";
     server.authorization := header; server.client_host := Some "10.0.0.1";
     server.body := None |}.

(** Requests to the admin endpoints from the loopback address. *)
Definition revoke (prefix : string) : server.request :=
  {| server.method := "DELETE"; server.path := "/admin/keys/" ++ prefix;
     server.scope_path := "/admin/keys/" ++ prefix;
     server.authorization := None; server.client_host := Some "127.0.0.1";
     server.body := None |}.

Definition listing : server.request :=
  {| server.method := "GET"; server.path := "/admin/keys";
     server.scope_path := "/admin/keys";
     server.authorization := None; server.client_host := Some "::1";
     server.body := None |}.

(** A health check from a remote address with a header that is no key. *)
Definition probe : server.request :=
  {| server.method := "GET"; server.path := "/health";
     server.scope_path := "/health";
     server.authorization := Some "Bearer nonsense";
     server.client_host := Some "203.0.113.9"; server.body := None |}.

(** Requests whose two paths differ.  The raw path [/health%0A] reaches the
    router as [/health] and a newline, while the newline is dropped from the
    URL the middleware reads; [/admin/keys%09] reaches the router with a tab
    at its end, which the URL loses; in
    [/admin/keys/abababab%3Fx] the question mark ends the path of the URL
    and not the one the router matches. *)
Definition with_paths (m url_path routed_path : string)
  (host : string) : server.request :=
  {| server.method := m; server.path := url_path;
     server.scope_path := routed_path;
     server.authorization := None; server.client_host := Some host;
     server.body := None |}.

Definition health_newline : server.request :=
  with_paths "GET" "/health" ("/health" ++ String "010" "") "10.0.0.1".

Definition admin_tab : server.request :=
  with_paths "GET" "/admin/keys" ("/admin/keys" ++ String "009" "")
    "10.0.0.1".

Definition revoke_with_query : server.request :=
  with_paths "DELETE" "/admin/keys/abababab" "/admin/keys/abababab?x"
    "127.0.0.1".

End Requests.

Module Sessions.

(** A token endpoint whose tokens live 20 seconds. *)
Definition short_lived : Effects.world :=
  {| Effects.clock := Effects.clock Scenario.expiring_session;
     Effects.token_endpoint :=
       fun n _ =>
         httpx.Reply
           {| httpx.status_code := 200; httpx.content := "{...}";
              httpx.decoded :=
                Some (JObj [("access_token", JStr "brief");
                            ("expires_in", JNum 20)]) |};
     Effects.appliance := Effects.appliance Scenario.expiring_session |}.

(** The state after a first [get_token] in the expiring session. *)
Definition holding : Effects.state :=
  snd (auth.get_token Scenario.cfg Scenario.expiring_session Scenario.fresh).

End Sessions.

Module Catalogs.

(** A catalogue item as the appliance lists it. *)
Definition item (name verb resource category text : string) : json :=
  JObj [("resource_id", JNum 1); ("api_function_name", JStr name);
        ("resourceName", JStr resource); ("verb", JStr verb);
        ("sql_app_name", JStr category); ("apiDescription", JStr text)].

Definition list_group : json :=
  item "list_group" "GET" "group" "Group Builder" "List the groups".

Definition list_datasource : json :=
  item "list_datasource" "GET" "datasource" "Datasource Builder"
    "List the data sources".

Definition create_datasource : json :=
  item "create_datasource" "POST" "datasource" "Datasource Builder"
    "Create a data source".

(** The same name a second time, under another category. *)
Definition list_group_again : json :=
  item "list_group" "GET" "group_v2" "Groups" "List the groups, again".

(** An item without its verb. *)
Definition broken : json :=
  JObj [("resource_id", JNum 9); ("api_function_name", JStr "broken");
        ("resourceName", JStr "broken")].

Definition small : list json :=
  [list_group; list_datasource; create_datasource].

Definition indexed : discovery.GDPDiscovery :=
  snd (discovery._index (JArr small) discovery.init).

Definition endpoint_of (j : json) : discovery.GDPEndpoint :=
  match discovery.from_dict j with
  | Ok ep => ep
  | Raise _ =>
      {| discovery.resource_id := JNull; discovery.function_name := JNull;
         discovery.resource_name := JNull; discovery.verb := JNull;
         discovery.category := JNull; discovery.version := JNull;
         discovery.description := JNull; discovery.parameters := JNull |}
  end.

(** An appliance that answers every request with a catalogue, and one that
    cannot be reached; both grant tokens. *)
Definition catalogue_reply (items : list json) : httpx.Response :=
  {| httpx.status_code := 200; httpx.content := "[...]";
     httpx.decoded := Some (JArr items) |}.

Definition serving (items : list json) : Effects.world :=
  {| Effects.clock := Effects.clock Scenario.expiring_session;
     Effects.token_endpoint :=
       Effects.token_endpoint Scenario.expiring_session;
     Effects.appliance := fun _ _ => httpx.Reply (catalogue_reply items) |}.

Definition unreachable : Effects.world :=
  {| Effects.clock := Effects.clock Scenario.expiring_session;
     Effects.token_endpoint :=
       Effects.token_endpoint Scenario.expiring_session;
     Effects.appliance := fun _ _ => httpx.NoReply |}.

Definition start (f : discovery.cache_file) : discovery.system :=
  {| discovery.index := discovery.init; discovery.file := f;
     discovery.io := Scenario.fresh |}.

End Catalogs.
(** * Properties *)

(** ** The digest agrees with the reference vectors *)

Example sha256_abc :
  sha256_hexdigest "abc"
  = "ba7816bf8f01cfea414140de5dae2223b00361a396177a9cb410ff61f20015ad".
Proof. vm_compute. reflexivity. Qed.

Example sha256_empty :
  sha256_hexdigest ""
  = "e3b0c44298fc1c149afbf4c8996fb92427ae41e4649b934ca495991b7852b855".
Proof. vm_compute. reflexivity. Qed.

Example sha256_two_blocks :
  sha256_hexdigest
    "0000000000000000000000000000000000000000000000000000000000000000"
  = "60e05bd1b195af2f94112fa7197a5c88289058840ce7c6df9693756bc6250f55".
Proof. vm_compute. reflexivity. Qed.

Example sha256_latin1 :
  sha256_hexdigest (String (ascii_of_nat 233) EmptyString)
  = "4a99557e4033c3539de2eb65472017cad5f9557f7a0625a09f1c3f6e2ba69c4c".
Proof. vm_compute. reflexivity. Qed.

(** ** Dictionaries *)

Module DictFacts.

Lemma get_set_eq {V} (k : string) (v : V) (d : Dict.t V) :
  Dict.get k (Dict.set k v d) = Some v.
Proof.
  induction d as [|[k' v'] r IH]; simpl.
  - now rewrite String.eqb_refl.
  - destruct (String.eqb k' k) eqn:E; simpl; rewrite E; auto.
Qed.

Lemma get_set_neq {V} (k k0 : string) (v : V) (d : Dict.t V) :
  k0 <> k -> Dict.get k0 (Dict.set k v d) = Dict.get k0 d.
Proof.
  intros Hne. induction d as [|[k' v'] r IH]; simpl.
  - destruct (String.eqb k k0) eqn:E; auto.
    apply String.eqb_eq in E. congruence.
  - destruct (String.eqb k' k) eqn:E; simpl.
    + apply String.eqb_eq in E. subst k'.
      destruct (String.eqb k k0) eqn:E0; auto.
      apply String.eqb_eq in E0. congruence.
    + now rewrite IH.
Qed.

Lemma get_del_eq {V} (k : string) (d : Dict.t V) :
  Dict.get k (Dict.del k d) = None.
Proof.
  unfold Dict.del. induction d as [|[k' v'] r IH]; simpl; auto.
  destruct (String.eqb k' k) eqn:E; simpl; auto. now rewrite E.
Qed.

Lemma in_del {V} (k : string) (kv : string * V) (d : Dict.t V) :
  In kv (Dict.del k d) <-> In kv d /\ fst kv <> k.
Proof.
  unfold Dict.del. rewrite filter_In, negb_true_iff, String.eqb_neq.
  reflexivity.
Qed.

Lemma get_none {V} (k : string) (d : Dict.t V) :
  Dict.get k d = None <-> ~ In k (Dict.keys d).
Proof.
  induction d as [|[k' v'] r IH]; simpl.
  - tauto.
  - destruct (String.eqb k' k) eqn:E.
    + apply String.eqb_eq in E. split; [discriminate | tauto].
    + apply String.eqb_neq in E. rewrite IH. tauto.
Qed.

Lemma get_del_none {V} (k h : string) (d : Dict.t V) :
  Dict.get h d = None -> Dict.get h (Dict.del k d) = None.
Proof.
  rewrite !get_none. intros Hn Hin. apply Hn.
  unfold Dict.keys in *. apply in_map_iff in Hin.
  destruct Hin as [kv [Hk Hin]]. apply in_del in Hin.
  apply in_map_iff. exists kv. tauto.
Qed.

Lemma keys_set {V} (k : string) (v : V) (d : Dict.t V) :
  Dict.keys (Dict.set k v d)
  = if in_dec string_dec k (Dict.keys d) then Dict.keys d
    else (Dict.keys d ++ [k])%list.
Proof.
  induction d as [|[k' v'] r IH]; simpl; auto.
  destruct (String.eqb k' k) eqn:E; simpl.
  - apply String.eqb_eq in E. subst.
    destruct (string_dec k k); [|congruence].
    reflexivity.
  - apply String.eqb_neq in E. rewrite IH.
    destruct (string_dec k' k); [congruence|].
    destruct (in_dec string_dec k (Dict.keys r)); reflexivity.
Qed.

(** Assignment and deletion keep the keys unique. *)
Lemma wf_set {V} (k : string) (v : V) (d : Dict.t V) :
  Dict.wf d -> Dict.wf (Dict.set k v d).
Proof.
  unfold Dict.wf. intros Hd. rewrite keys_set.
  destruct (in_dec string_dec k (Dict.keys d)) as [|Hn]; auto.
  apply NoDup_app; auto.
  - repeat constructor. simpl. tauto.
  - intros x Hx [<-|[]]. contradiction.
Qed.

Lemma wf_del {V} (k : string) (d : Dict.t V) :
  Dict.wf d -> Dict.wf (Dict.del k d).
Proof.
  unfold Dict.wf, Dict.del, Dict.keys.
  induction d as [|[k' v'] r IH]; simpl; auto.
  intros Hd. inversion Hd as [|? ? Hn Hr]; subst.
  destruct (String.eqb k' k); simpl; auto.
  constructor; auto.
  intros Hin. apply Hn. apply in_map_iff in Hin.
  destruct Hin as [kv [Hk Hf]]. apply filter_In in Hf.
  apply in_map_iff. exists kv. tauto.
Qed.

End DictFacts.

Create Rewrite HintDb dict.
#[global] Hint Rewrite @DictFacts.get_set_eq @DictFacts.get_del_eq : dict.

(** ** The key store *)

Module KeyStoreFacts.

Import keystore.

Lemma token_hex_truthy (n : nat) (rnd : nat -> Z) :
  PyStr.truthy (token_hex (S n) rnd) = true.
Proof. reflexivity. Qed.

Lemma token_hex_length (n : nat) (rnd : nat -> Z) :
  String.length (token_hex n rnd) = 2 * n.
Proof.
  unfold token_hex.
  assert (H : forall s : nat,
    String.length (hexlify (map (fun i => (rnd i mod 256)%Z) (seq s n)))
    = 2 * n).
  { induction n as [|n IH]; intros s; simpl; auto. rewrite IH. lia. }
  apply H.
Qed.

Lemma find_target_some (P : string) (d : Dict.t key_meta) h m :
  find_target P d = Some (h, m) -> In (h, m) d /\ key_prefix m = P.
Proof.
  induction d as [|[h' m'] r IH]; simpl; [discriminate|].
  destruct (String.eqb (key_prefix m') P) eqn:E.
  - intros [= <- <-]. apply String.eqb_eq in E. auto.
  - intros H. destruct (IH H). auto.
Qed.

Lemma find_target_none (P : string) (d : Dict.t key_meta) :
  find_target P d = None <->
  (forall h m, In (h, m) d -> key_prefix m <> P).
Proof.
  induction d as [|[h' m'] r IH]; simpl.
  - split; [intros _ h m [] | reflexivity].
  - destruct (String.eqb (key_prefix m') P) eqn:E.
    + apply String.eqb_eq in E. split; [discriminate|].
      intros H. exfalso. apply (H h' m'); auto.
    + apply String.eqb_neq in E. rewrite IH. split.
      * intros H h m [[= <- <-]|Hin]; eauto.
      * intros H h m Hin. eauto.
Qed.

(** The record the loop stops at is the first one with the prefix. *)
Lemma find_target_first (P : string) (d : Dict.t key_meta) h m :
  find_target P d = Some (h, m) ->
  exists before after,
    d = (before ++ (h, m) :: after)%list /\
    key_prefix m = P /\
    (forall h0 m0, In (h0, m0) before -> key_prefix m0 <> P).
Proof.
  induction d as [|[h' m'] r IH]; simpl; [discriminate|].
  destruct (String.eqb (key_prefix m') P) eqn:E.
  - intros [= <- <-]. apply String.eqb_eq in E.
    exists [], r. split; [reflexivity|]. split; [exact E|]. intros ? ? [].
  - intros H. destruct (IH H) as [before [after [-> [Hp Hb]]]].
    apply String.eqb_neq in E.
    exists ((h', m') :: before), after. split; [reflexivity|].
    split; [exact Hp|].
    intros h0 m0 [[= <- <-]|Hin]; eauto.
Qed.

(** The listing is the stored metadata, field for field. *)
Lemma in_list_keys (e : listed) (f : file) :
  In e (list_keys f) <->
  exists h m, In (h, m) (_load_store f) /\
    e = {| listed_key_prefix := key_prefix m; listed_user := user m;
           listed_created := created m |}.
Proof.
  unfold list_keys, Dict.values. rewrite map_map, in_map_iff. split.
  - intros [[h m] [He Hin]]. exists h, m.
    split; [exact Hin | symmetry; exact He].
  - intros [h [m [Hin He]]]. exists (h, m).
    split; [symmetry; exact He | exact Hin].
Qed.

(** The store written by a successful operation is loaded back as it is. *)
Lemma load_after_save (store : Dict.t key_meta) :
  _load_store (snd (_save_store Written store)) = store.
Proof. reflexivity. Qed.

(** Every operation keeps the digests of the store unique. *)
Lemma generate_key_wf rnd now w u f :
  Dict.wf (_load_store f) ->
  Dict.wf (_load_store (snd (generate_key rnd now w u f))) \/ w <> Written.
Proof.
  intros Hwf. destruct w; [left | right; discriminate].
  unfold generate_key. simpl. now apply DictFacts.wf_set.
Qed.

Lemma revoke_key_wf P f :
  Dict.wf (_load_store f) ->
  Dict.wf (_load_store (snd (revoke_key P Written f))).
Proof.
  intros Hwf. unfold revoke_key.
  destruct (find_target P (_load_store f)) as [[h m]|]; simpl; auto.
  now apply DictFacts.wf_del.
Qed.

(** What the two writing operations leave in the store. *)
Lemma load_after_generate rnd now u (f : file) :
  _load_store (snd (generate_key rnd now Written u f))
  = Dict.set (_hash_key (token_hex 32 rnd))
      {| user := u; created := now;
         key_prefix := _key_prefix (token_hex 32 rnd) |}
      (_load_store f).
Proof. reflexivity. Qed.

Lemma load_after_revoke (P : string) (f : file) :
  _load_store (snd (revoke_key P Written f))
  = match find_target P (_load_store f) with
    | Some (h, _) => Dict.del h (_load_store f)
    | None => _load_store f
    end.
Proof.
  unfold revoke_key.
  destruct (find_target P (_load_store f)) as [[h m]|]; reflexivity.
Qed.

(** A digest the store does not know stays unknown until a key with that
    digest is issued. *)
Lemma unknown_digest_stable (h : string) (ops : list operation) (f : file) :
  forallb (fun o => negb (issues h o)) ops = true ->
  Dict.get h (_load_store f) = None ->
  Dict.get h (_load_store (perform_all ops f)) = None.
Proof.
  unfold perform_all. revert f.
  induction ops as [|o ops IH]; intros f Hops Hf; [exact Hf|].
  change (forallb (fun o => negb (issues h o)) (o :: ops))
    with (negb (issues h o) && forallb (fun o => negb (issues h o)) ops)
    in Hops.
  apply andb_true_iff in Hops. destruct Hops as [Ho Hops].
  change (fold_left perform (o :: ops) f)
    with (fold_left perform ops (perform f o)).
  apply IH; [exact Hops|].
  destruct o as [rnd now u | P].
  - unfold issues in Ho. apply negb_true_iff, String.eqb_neq in Ho.
    unfold perform. rewrite load_after_generate.
    rewrite DictFacts.get_set_neq; auto.
  - unfold perform. rewrite load_after_revoke.
    destruct (find_target P (_load_store f)) as [[h0 m0]|]; auto.
    now apply DictFacts.get_del_none.
Qed.

End KeyStoreFacts.

Import keystore.

(** C3. When the write succeeds, [generate_key] returns the raw key it drew,
    and [validate_key] on that raw key, run on the store just written, returns
    the record stored for it: its user is the user the key was issued to (for
    every user string, the non-empty ones in particular), its creation time
    and prefix those of the issuance. *)
Theorem generate_key_validate_roundtrip
  (rnd : nat -> Z) (now u : string) (f : file) :
  let out := generate_key rnd now Written u f in
  exists r : issued,
    fst out = Ok r /\
    key r = token_hex 32 rnd /\ issued_user r = u /\
    validate_key (key r) (snd out)
    = Some {| user := u; created := now;
              key_prefix := PyStr.take 8 (key r) |}.
Proof.
  unfold generate_key. simpl.
  eexists. split; [reflexivity|]. simpl.
  repeat split.
  unfold validate_key. rewrite KeyStoreFacts.token_hex_truthy. simpl.
  now autorewrite with dict.
Qed.

(** C8. [validate_key] returns [None] for the empty string, and for every
    string whose digest is not a key of the stored dictionary; in
    particular, on a store built from nothing by issuances and revocations,
    for every string whose digest none of the issuances produced. *)
Theorem validate_key_unknown (f : file) :
  validate_key "" f = None /\
  (forall raw : string,
     ~ In (_hash_key raw) (Dict.keys (_load_store f)) ->
     validate_key raw f = None) /\
  (forall (raw : string) (ops : list operation),
     forallb (fun o => negb (issues (_hash_key raw) o)) ops = true ->
     validate_key raw (perform_all ops Absent) = None).
Proof.
  split; [reflexivity|]. split.
  - intros raw Hn. unfold validate_key.
    destruct (negb (PyStr.truthy raw)); auto.
    now apply DictFacts.get_none.
  - intros raw ops Hops. unfold validate_key.
    destruct (negb (PyStr.truthy raw)); auto.
    cbv zeta. now apply KeyStoreFacts.unknown_digest_stable.
Qed.

Lemma validate_key_unknown_witness :
  validate_key "Bearer wrong" Scenario.two_keys = None.
Proof.
  apply (proj1 (proj2 (validate_key_unknown Scenario.two_keys))).
  vm_compute. intros [H|[H|[]]]; discriminate H.
Defined.

(** C6. When no stored record has prefix [P], [revoke_key P] returns [None]
    and the file is the one it found: nothing is written, whatever a write
    would have done. *)
Theorem revoke_key_unknown_prefix (P : string) (w : write) (f : file) :
  (forall h m, In (h, m) (_load_store f) -> key_prefix m <> P) ->
  revoke_key P w f = (Ok None, f).
Proof.
  intros H. unfold revoke_key.
  apply KeyStoreFacts.find_target_none in H. now rewrite H.
Qed.

Lemma revoke_key_unknown_prefix_witness :
  revoke_key "deadbeef" (WriteFails Unreadable) Scenario.two_keys
  = (Ok None, Scenario.two_keys).
Proof.
  apply revoke_key_unknown_prefix.
  intros h m Hin. vm_compute in Hin.
  destruct Hin as [H|[H|[]]]; inversion H; subst; vm_compute; discriminate.
Defined.

(** Alice's and Bob's raw keys both start with [abababab]; revoking that
    prefix removes Alice's record, the first match, and leaves Bob's. *)
Example revoke_key_shared_prefix_run :
  PyStr.take 8 Scenario.alice_key = "abababab" /\
  PyStr.take 8 Scenario.bob_key = "abababab" /\
  list_keys (snd (revoke_key "abababab" Written Scenario.two_keys))
  = [ {| listed_key_prefix := "abababab"; listed_user := "bob";
         listed_created := "2025-01-02T00:00:00+00:00" |} ] /\
  validate_key Scenario.alice_key
    (snd (revoke_key "abababab" Written Scenario.two_keys)) = None /\
  validate_key Scenario.bob_key
    (snd (revoke_key "abababab" Written Scenario.two_keys))
  = Some {| user := "bob"; created := "2025-01-02T00:00:00+00:00";
            key_prefix := "abababab" |}.
Proof. vm_compute. repeat split. Qed.

(** C2, as stated, fails when two stored keys share a prefix: on the store
    holding Alice's and Bob's keys, [revoke_key "abababab"] succeeds and the
    listing still has an entry with that prefix. *)
Lemma revoke_key_shared_prefix_remains :
  fst (revoke_key "abababab" Written Scenario.two_keys)
  = Ok (Some {| status := "revoked"; revoked_key_prefix := "abababab";
                revoked_user := "alice" |}) /\
  ~ (forall e : listed,
       In e (list_keys
               (snd (revoke_key "abababab" Written Scenario.two_keys))) ->
       listed_key_prefix e <> "abababab").
Proof.
  split; [vm_compute; reflexivity|].
  intros H.
  apply (H {| listed_key_prefix := "abababab"; listed_user := "bob";
              listed_created := "2025-01-02T00:00:00+00:00" |}).
  - vm_compute. left. reflexivity.
  - reflexivity.
Qed.

(** C2, amended.  When [revoke_key P] returns a revoked record, it has
    removed the first stored record with prefix [P] and written the rest:
    the store was some records without the prefix, then the record removed,
    then the others; the record returned carries [P] and the user of the
    record removed; every raw key whose digest is that record's key is
    rejected by [validate_key] from then on, through any later issuances and
    revocations that do not issue that digest again; nothing is added to the
    listing; and the listing has no entry with prefix [P] left provided no
    other stored record had prefix [P]. *)
Theorem revoke_key_removes_first_match
  (P : string) (w : write) (f f' : file) (r : revoked) :
  revoke_key P w f = (Ok (Some r), f') ->
  exists before h m after,
    _load_store f = (before ++ (h, m) :: after)%list /\
    key_prefix m = P /\
    (forall h0 m0, In (h0, m0) before -> key_prefix m0 <> P) /\
    r = {| status := "revoked"; revoked_key_prefix := P;
           revoked_user := user m |} /\
    _load_store f' = Dict.del h (_load_store f) /\
    (forall raw ops,
       _hash_key raw = h ->
       forallb (fun o => negb (issues h o)) ops = true ->
       validate_key raw (perform_all ops f') = None) /\
    (forall e, In e (list_keys f') -> In e (list_keys f)) /\
    ((forall h0 m0, In (h0, m0) (_load_store f) ->
                    key_prefix m0 = P -> h0 = h) ->
     forall e, In e (list_keys f') -> listed_key_prefix e <> P).
Proof.
  unfold revoke_key.
  destruct (find_target P (_load_store f)) as [[h m]|] eqn:Ht;
    [|discriminate].
  destruct w as [|residue]; simpl; [|discriminate].
  intros [= <- <-].
  destruct (KeyStoreFacts.find_target_first _ _ Ht)
    as [before [after [Hsplit [Hp Hfirst]]]].
  exists before, h, m, after. simpl.
  split; [exact Hsplit|]. split; [exact Hp|]. split; [exact Hfirst|].
  split; [reflexivity|]. split; [reflexivity|].
  split; [|split].
  - intros raw ops <- Hops. unfold validate_key.
    destruct (negb (PyStr.truthy raw)); auto.
    cbv zeta. apply KeyStoreFacts.unknown_digest_stable; auto.
    simpl _load_store. now autorewrite with dict.
  - intros e. rewrite !KeyStoreFacts.in_list_keys. simpl.
    intros [h0 [m0 [Hin He]]]. apply DictFacts.in_del in Hin.
    exists h0, m0. tauto.
  - intros Huniq e. rewrite KeyStoreFacts.in_list_keys. simpl.
    intros [h0 [m0 [Hin He]]] HP. apply DictFacts.in_del in Hin.
    destruct Hin as [Hin Hne]. subst e. simpl in *. eauto.
Qed.

(** On the store holding Alice's and then Bob's key, both with prefix
    [abababab], the record removed is Alice's, the first, and Bob's stays. *)
Lemma revoke_key_removes_first_match_witness :
  let f := Scenario.two_keys in
  let f' := snd (revoke_key "abababab" Written f) in
  exists before h m after,
    _load_store f = (before ++ (h, m) :: after)%list /\
    key_prefix m = "abababab" /\
    (forall h0 m0, In (h0, m0) before -> key_prefix m0 <> "abababab") /\
    {| status := "revoked"; revoked_key_prefix := "abababab";
       revoked_user := "alice" |}
    = {| status := "revoked"; revoked_key_prefix := "abababab";
         revoked_user := user m |} /\
    _load_store f' = Dict.del h (_load_store f) /\
    (forall raw ops,
       _hash_key raw = h ->
       forallb (fun o => negb (issues h o)) ops = true ->
       validate_key raw (perform_all ops f') = None) /\
    (forall e, In e (list_keys f') -> In e (list_keys f)) /\
    ((forall h0 m0, In (h0, m0) (_load_store f) ->
                    key_prefix m0 = "abababab" -> h0 = h) ->
     forall e, In e (list_keys f') -> listed_key_prefix e <> "abababab").
Proof.
  intros f f'.
  apply (@revoke_key_removes_first_match "abababab" Written f f'
           {| status := "revoked"; revoked_key_prefix := "abababab";
              revoked_user := "alice" |}).
  vm_compute. reflexivity.
Defined.

(** ** Strings *)

Module PyStrFacts.

Import PyStr.

Lemma hex_digit_is_hex (n : Z) : is_hex (hex_digit n) = true.
Proof.
  unfold hex_digit. destruct n as [|p|p]; try reflexivity.
  do 4 (destruct p as [p|p|]; try reflexivity).
Qed.

Lemma hexlify_is_hex (bs : list Z) : all_chars is_hex (hexlify bs) = true.
Proof.
  induction bs as [|b r IH]; simpl; auto.
  now rewrite !hex_digit_is_hex, IH.
Qed.

(** A hexadecimal digit is neither white space nor the letter B. *)
Lemma is_hex_plain (c : ascii) :
  is_hex c = true -> isspace c = false /\ c <> "B"%char.
Proof.
  unfold is_hex. rewrite existsb_exists. intros [x [Hin Hx]].
  apply Ascii.eqb_eq in Hx. subst x. simpl in Hin.
  repeat (destruct Hin as [<-|Hin]; [split; [reflexivity|discriminate]|]).
  destruct Hin.
Qed.

Lemma rstrip_no_space (s : string) :
  all_chars (fun c => negb (isspace c)) s = true -> rstrip s = s.
Proof.
  induction s as [|c r IH]; simpl; auto.
  intros H. apply andb_true_iff in H. destruct H as [Hc Hr].
  rewrite (IH Hr). apply negb_true_iff in Hc. rewrite Hc.
  destruct r; reflexivity.
Qed.

Lemma lstrip_no_space (s : string) :
  all_chars (fun c => negb (isspace c)) s = true -> lstrip s = s.
Proof.
  destruct s as [|c r]; simpl; auto.
  intros H. apply andb_true_iff in H. destruct H as [Hc _].
  apply negb_true_iff in Hc. now rewrite Hc.
Qed.

Lemma strip_no_space (s : string) :
  all_chars (fun c => negb (isspace c)) s = true -> strip s = s.
Proof.
  intros H. unfold strip. rewrite (lstrip_no_space _ H).
  now apply rstrip_no_space.
Qed.

Lemma all_chars_impl (p q : ascii -> bool) (s : string) :
  (forall c, p c = true -> q c = true) ->
  all_chars p s = true -> all_chars q s = true.
Proof.
  intros Hpq. induction s as [|c r IH]; simpl; auto.
  rewrite !andb_true_iff. intros [Hc Hr]. auto.
Qed.

(** White space only strips to nothing. *)
Lemma lstrip_all_space (s : string) :
  all_chars isspace s = true -> lstrip s = "".
Proof.
  induction s as [|c r IH]; simpl; auto.
  rewrite andb_true_iff. intros [Hc Hr]. rewrite Hc. auto.
Qed.

Lemma strip_all_space (s : string) :
  all_chars isspace s = true -> strip s = "".
Proof.
  intros H. unfold strip. now rewrite (lstrip_all_space _ H).
Qed.

Lemma prefix_cons (a b : ascii) (s t : string) :
  String.prefix (String a s) (String b t)
  = if ascii_dec a b then String.prefix s t else false.
Proof. reflexivity. Qed.

(** A string of hexadecimal digits has no scheme prefix to remove and no
    white space to trim. *)
Lemma hex_unchanged (s : string) :
  all_chars is_hex s = true ->
  strip (removeprefix "Bearer " s) = s.
Proof.
  intros H.
  assert (Hrm : removeprefix "Bearer " s = s).
  { unfold removeprefix, startswith. destruct s as [|c r]; auto.
    simpl in H. apply andb_true_iff in H. destruct H as [Hc _].
    apply is_hex_plain in Hc. destruct Hc as [_ Hc].
    change "Bearer " with (String "B" "earer "). rewrite prefix_cons.
    destruct (ascii_dec "B" c); congruence. }
  rewrite Hrm. apply strip_no_space.
  eapply all_chars_impl; [|exact H].
  intros c Hc. apply is_hex_plain in Hc. destruct Hc as [Hc _].
  now rewrite Hc.
Qed.

Lemma prefix_trans (a b c : string) :
  String.prefix a b = true -> String.prefix b c = true ->
  String.prefix a c = true.
Proof.
  revert b c. induction a as [|x a IH]; intros b c;
    [destruct c; reflexivity|].
  destruct b as [|y b]; [discriminate|].
  destruct c as [|z c]; [discriminate|].
  rewrite !prefix_cons.
  destruct (ascii_dec x y) as [->|]; [|discriminate].
  destruct (ascii_dec y z) as [->|]; [|discriminate].
  apply IH.
Qed.

End PyStrFacts.

(** ** Routing *)

Module RouterFacts.

Import server.

Lemma first_full_in (rs : list route) (m p : string) e prm :
  first_full rs m p = Some (e, prm) ->
  exists r, In r rs /\ endpoint_of r = e /\
            path_params (route_at r) p = Some prm.
Proof.
  induction rs as [|r rest IH]; simpl; [discriminate|].
  unfold matches at 1.
  destruct (path_params (route_at r) p) as [prm0|] eqn:Hp.
  - destruct (effective_methods r) as [ms|].
    + destruct (existsb (String.eqb m) ms).
      * intros [= <- <-]. exists r. auto.
      * intros H. destruct (IH H) as [r' [? ?]]. exists r'. auto.
    + intros [= <- <-]. exists r. auto.
  - intros H. destruct (IH H) as [r' [? ?]]. exists r'. auto.
Qed.

(** A literal route takes its path, with or without a newline after it. *)
Lemma literal_match (q p : string) prm :
  path_params (Literal q) p = Some prm ->
  prm = None /\ (p = q \/ p = q ++ String "010" "").
Proof.
  cbn [path_params].
  destruct (String.eqb p q) eqn:E; cbn [orb].
  - intros [= <-]. apply String.eqb_eq in E. auto.
  - destruct (String.eqb p (q ++ String "010" "")) eqn:E'; [|discriminate].
    intros [= <-]. apply String.eqb_eq in E'. auto.
Qed.

(** Only a path under [/admin] reaches an admin handler, and the revoke
    handler always gets its path parameter. *)
Lemma resolve_admin (m p : string) e prm :
  resolve m p = Handler e prm ->
  AuthorizationGateway.is_admin_endpoint e = true ->
  PyStr.startswith "/admin" p = true /\
  (e = AdminRevokeKey -> exists k, prm = Some k).
Proof.
  unfold resolve.
  destruct (first_full routes m p) as [[e0 prm0]|] eqn:Hf.
  - intros [= <- <-] Ha. apply first_full_in in Hf.
    destruct Hf as [r [Hin [He Hp]]]. simpl in Hin.
    repeat (destruct Hin as [<-|Hin]); simpl in He; subst e0;
      try discriminate Ha; cbn [route_at] in Hp.
    + apply literal_match in Hp. destruct Hp as [_ [-> | ->]];
        (split; [reflexivity|discriminate]).
    + apply literal_match in Hp. destruct Hp as [_ [-> | ->]];
        (split; [reflexivity|discriminate]).
    + cbn [path_params] in Hp.
      destruct (PyStr.startswith "/admin/keys/" p) eqn:E;
        [|discriminate].
      split.
      * apply PyStrFacts.prefix_trans with (b := "/admin/keys/");
          [reflexivity | exact E].
      * intros _. simpl in Hp.
        match type of Hp with
        | (if ?c then _ else _) = _ => destruct c; [|discriminate]
        end.
        injection Hp as <-. eauto.
    + destruct Hin.
  - destruct (existsb _ routes); [discriminate|].
    destruct (String.eqb p "/"); [discriminate|].
    destruct (existsb _ routes); discriminate.
Qed.

End RouterFacts.

(** ** The gateway *)

Module GatewayFacts.

Import server AuthorizationGateway.


(** The middleware never answers 403: it hands on or answers 401. *)
Lemma dispatch_cases (req : request) (f : keystore.file) :
  dispatch req f = CallNext \/ dispatch req f = Respond unauthorized.
Proof.
  unfold dispatch.
  destruct (String.eqb (path req) "/health"); auto.
  destruct (PyStr.startswith "/admin" (path req)); auto.
  destruct (keystore.validate_key _ f); auto.
Qed.

(** An admin handler answers 403 to an address off the allow-list and leaves
    the store alone; to an address on it, it never answers 403 or 401. *)
Lemma admin_handler_decision cfg env req f e prm :
  resolve (method req) (scope_path req) = Handler e prm ->
  is_admin_endpoint e = true ->
  dispatch req f = CallNext ->
  decision_of (fst (app cfg env req f))
  = (if _is_localhost req then Admit else Forbidden) /\
  (_is_localhost req = false -> snd (app cfg env req f) = f).
Proof.
  intros Hr Ha Hd.
  destruct (RouterFacts.resolve_admin _ _ Hr Ha) as [_ Hk].
  unfold app. rewrite Hd, Hr.
  destruct e; try discriminate Ha.
  - unfold admin_create_key.
    destruct (_is_localhost req); simpl; [|auto].
    destruct (negb (PyStr.truthy (requested_user req))); simpl; [auto|].
    destruct (keystore.generate_key _ _ _ _ f) as [[r|ex] f']; simpl;
      split; auto; discriminate.
  - unfold admin_list_keys.
    destruct (_is_localhost req); simpl; split; auto; discriminate.
  - destruct (Hk eq_refl) as [k ->]. unfold admin_revoke_key.
    destruct (_is_localhost req); simpl; [|auto].
    destruct (keystore.revoke_key k (disk env) f) as [[[r|]|ex] f']; simpl;
      split; auto; discriminate.
Qed.

(** Past the middleware, a request the router sends to no admin handler is
    never answered 403 or 401. *)
Lemma non_admin_admitted cfg env req f :
  reaches_admin_handler req = false ->
  dispatch req f = CallNext ->
  decision_of (fst (app cfg env req f)) = Admit.
Proof.
  unfold reaches_admin_handler. intros Hn Hd. unfold app. rewrite Hd.
  destruct (resolve (method req) (scope_path req)) as [e prm| | |] eqn:Hr;
    try reflexivity.
  destruct e; try discriminate Hn; reflexivity.
Qed.

(** The router sends a path outside [/admin] to no admin handler. *)
Lemma outside_admin_unreached (req : request) :
  PyStr.startswith "/admin" (scope_path req) = false ->
  reaches_admin_handler req = false.
Proof.
  intros Hp. unfold reaches_admin_handler.
  destruct (resolve (method req) (scope_path req)) as [e prm| | |] eqn:Hr;
    try reflexivity.
  destruct (is_admin_endpoint e) eqn:Ha; [|reflexivity].
  destruct (RouterFacts.resolve_admin _ _ Hr Ha) as [Hs _]. congruence.
Qed.


(** Every request ends admitted, forbidden by an admin handler or
    unauthorized by the middleware; only an admitted one can change the
    store. *)
Lemma app_decision cfg env req f :
  decision_of (fst (app cfg env req f))
  = match dispatch req f with
    | Respond _ => Unauthorized
    | CallNext =>
        if reaches_admin_handler req
        then if _is_localhost req then Admit else Forbidden
        else Admit
    end /\
  (decision_of (fst (app cfg env req f)) <> Admit ->
   snd (app cfg env req f) = f).
Proof.
  destruct (dispatch_cases req f) as [Hd | Hd].
  - rewrite Hd.
    destruct (reaches_admin_handler req) eqn:Hr.
    + unfold reaches_admin_handler in Hr.
      destruct (resolve (method req) (scope_path req)) as [e prm| | |] eqn:Hres;
        try discriminate Hr.
      destruct (admin_handler_decision cfg env req f Hres Hr Hd)
        as [Hdec Hkeep].
      split; [exact Hdec|]. rewrite Hdec.
      destruct (_is_localhost req); [congruence | auto].
    + rewrite (non_admin_admitted cfg env req f Hr Hd). split; congruence.
  - unfold app. rewrite Hd. cbn [fst snd]. split; [reflexivity | auto].
Qed.

End GatewayFacts.

Import server.


(** Other requests under the prefix from a remote address that get the
    router's answer and not a 403: the bare prefix, an admin path with a
    method no route takes, an admin path with a trailing slash. *)
Example admin_prefix_router_answers :
  let remote m p :=
    {| method := m; path := p; scope_path := p; authorization := None;
       client_host := Some "10.0.0.1"; body := None |} in
  let answer m p :=
    fst (app Scenario.cfg Scenario.env (remote m p) Scenario.one_key) in
  answer "GET" "/admin" = ByRouter 404 /\
  answer "PUT" "/admin/keys" = ByRouter 405 /\
  answer "GET" "/admin/keys/" = ByRouter 307 /\
  answer "GET" "/admin/keys" = Answered forbidden /\
  answer "POST" "/admin/keys" = Answered forbidden /\
  answer "DELETE" "/admin/keys/abababab" = Answered forbidden.
Proof. vm_compute. repeat split. Qed.

(** The middleware and the router read different paths.  A newline after
    [/health] is lost from the URL and kept in the scope: the middleware
    sees the health check and the router serves it.  A tab after
    [/admin/keys] is lost from the URL too: the middleware sees the admin
    prefix and the router finds no route.  A question mark in the scope path
    ends the path of the URL: the revoke handler is given [abababab?x] as
    the prefix, finds no such key and leaves the store alone. *)
Example paths_disagree_run :
  fst (app Scenario.cfg Scenario.env Requests.health_newline Scenario.one_key)
  = Answered (health Scenario.cfg Scenario.one_key) /\
  fst (app Scenario.cfg Scenario.env Requests.admin_tab Scenario.one_key)
  = ByRouter 404 /\
  app Scenario.cfg Scenario.env Requests.revoke_with_query Scenario.one_key
  = (Answered (not_found "abababab?x"), Scenario.one_key).
Proof. vm_compute. repeat split. Qed.



(** C9. On a protected route (neither [/health] nor under [/admin]) the
    scheme prefix is optional: a header that leaves a key the store knows
    after the prefix strip and the trim is handed on by the middleware and
    never answered 401, nor 403 when the router matches the path the
    middleware read; and a header that is an issued raw key by itself, 64
    hexadecimal digits, is left as it is by both steps. *)
Theorem bearer_scheme_optional
  (cfg : config.GDPConfig) (env : environment) (req : request)
  (f : keystore.file) (h : string) (m : keystore.key_meta) :
  path req <> "/health" ->
  PyStr.startswith "/admin" (path req) = false ->
  authorization req = Some h ->
  keystore.validate_key (PyStr.strip (PyStr.removeprefix "Bearer " h)) f
  = Some m ->
  dispatch req f = CallNext /\
  AuthorizationGateway.decision_of (fst (app cfg env req f))
  <> AuthorizationGateway.Unauthorized /\
  (scope_path req = path req ->
   AuthorizationGateway.decision_of (fst (app cfg env req f))
   = AuthorizationGateway.Admit) /\
  forall rnd : nat -> Z,
    PyStr.strip (PyStr.removeprefix "Bearer " (keystore.token_hex 32 rnd))
    = keystore.token_hex 32 rnd.
Proof.
  intros Hh Hp Ha Hv.
  assert (Hd : dispatch req f = CallNext).
  { unfold dispatch. apply String.eqb_neq in Hh. now rewrite Hh, Hp, Ha, Hv. }
  destruct (GatewayFacts.app_decision cfg env req f) as [Hdec _].
  rewrite Hd in Hdec.
  split; [exact Hd|]. split; [|split].
  - rewrite Hdec.
    destruct (AuthorizationGateway.reaches_admin_handler req);
      [destruct (_is_localhost req)|]; discriminate.
  - intros Hsame. apply GatewayFacts.non_admin_admitted; [|exact Hd].
    apply GatewayFacts.outside_admin_unreached. now rewrite Hsame.
  - intros rnd. apply PyStrFacts.hex_unchanged.
    apply PyStrFacts.hexlify_is_hex.
Qed.

Lemma bearer_scheme_optional_witness :
  dispatch Scenario.bare_key_request Scenario.two_keys = CallNext /\
  AuthorizationGateway.decision_of
    (fst (app Scenario.cfg Scenario.env Scenario.bare_key_request
            Scenario.two_keys))
  <> AuthorizationGateway.Unauthorized /\
  (scope_path Scenario.bare_key_request = path Scenario.bare_key_request ->
   AuthorizationGateway.decision_of
     (fst (app Scenario.cfg Scenario.env Scenario.bare_key_request
             Scenario.two_keys))
   = AuthorizationGateway.Admit) /\
  forall rnd : nat -> Z,
    PyStr.strip (PyStr.removeprefix "Bearer " (keystore.token_hex 32 rnd))
    = keystore.token_hex 32 rnd.
Proof.
  apply (@bearer_scheme_optional Scenario.cfg Scenario.env
           Scenario.bare_key_request Scenario.two_keys Scenario.alice_key
           {| keystore.user := "alice";
              keystore.created := "2025-01-01T00:00:00+00:00";
              keystore.key_prefix := "abababab" |}).
  - vm_compute. discriminate.
  - vm_compute. reflexivity.
  - reflexivity.
  - vm_compute. reflexivity.
Defined.

(** C10.  From an address on the allow-list, a request to issue a key whose
    body does not decode, decodes to an object without [user], or has a
    [user] string that is empty once trimmed, is answered 400 by the handler,
    and by the whole application when it comes as POST [/admin/keys], the
    path the middleware reads and the one the router matches; no key is
    generated and the store is the one found, whatever the random source and
    whatever a write would have done. *)
Theorem admin_create_key_bad_request
  (cfg : config.GDPConfig) (env : environment) (req : request)
  (f : keystore.file) :
  _is_localhost req = true ->
  (body req = None \/
   (exists fields, body req = Some (JObj fields) /\
                   Dict.get "user" fields = None) \/
   (exists fields s, body req = Some (JObj fields) /\
                     Dict.get "user" fields = Some (JStr s) /\
                     PyStr.strip s = "")) ->
  admin_create_key env req f = (Ok bad_request, f) /\
  status_code bad_request = 400%Z /\
  (method req = "POST" -> path req = "/admin/keys" ->
   scope_path req = "/admin/keys" ->
   app cfg env req f = (Answered bad_request, f)).
Proof.
  intros Hl Hb.
  assert (Hu : requested_user req = "").
  { unfold requested_user.
    destruct Hb as [-> | [[fields [-> Hg]] | [fields [s [-> [Hg Hs]]]]]];
      simpl; auto.
    - now rewrite Hg.
    - now rewrite Hg; simpl. }
  assert (Hc : admin_create_key env req f = (Ok bad_request, f)).
  { unfold admin_create_key. now rewrite Hl, Hu. }
  split; [exact Hc|]. split; [reflexivity|].
  intros Hm Hp Hs. unfold app, dispatch. rewrite Hm, Hp, Hs. simpl.
  change (resolve "POST" "/admin/keys") with (Handler AdminCreateKey None).
  now rewrite Hc.
Qed.

Lemma admin_create_key_bad_request_witness :
  admin_create_key Scenario.env
    (Scenario.issue_request (Some (JObj [("user", JStr "   ")])))
    Scenario.one_key
  = (Ok bad_request, Scenario.one_key) /\
  status_code bad_request = 400%Z /\
  (method (Scenario.issue_request (Some (JObj [("user", JStr "   ")])))
   = "POST" ->
   path (Scenario.issue_request (Some (JObj [("user", JStr "   ")])))
   = "/admin/keys" ->
   scope_path (Scenario.issue_request (Some (JObj [("user", JStr "   ")])))
   = "/admin/keys" ->
   app Scenario.cfg Scenario.env
     (Scenario.issue_request (Some (JObj [("user", JStr "   ")])))
     Scenario.one_key
   = (Answered bad_request, Scenario.one_key)).
Proof.
  apply admin_create_key_bad_request.
  - reflexivity.
  - right. right. exists [("user", JStr "   ")], "   ".
    repeat split.
Defined.

(** Any other body that is not an object with a non-blank [user] string ends
    the same way: a decoded value that is no object, a [user] that is no
    string. *)
Lemma admin_create_key_needs_user
  (env : environment) (req : request) (f : keystore.file) :
  _is_localhost req = true ->
  requested_user req = "" ->
  admin_create_key env req f = (Ok bad_request, f).
Proof.
  intros Hl Hu. unfold admin_create_key. now rewrite Hl, Hu.
Qed.

(** The scenario of the specification: a key issued to alice opens a
    protected route with and without the scheme prefix, a wrong key is
    answered 401, an admin endpoint is answered 403 from a remote address
    and served from the loopback address without any header. *)
Example gateway_scenario :
  let f := Scenario.one_key in
  let protected header :=
    {| method := "GET"; path := "/sse"; scope_path := "/sse";
       authorization := header; client_host := Some "10.0.0.1";
       body := None |} in
  let listing host :=
    {| method := "GET"; path := "/admin/keys"; scope_path := "/admin/keys";
       authorization := None; client_host := Some host; body := None |} in
  dispatch (protected (Some ("Bearer " ++ Scenario.alice_key))) f = CallNext /\
  dispatch (protected (Some Scenario.alice_key)) f = CallNext /\
  dispatch (protected (Some "Bearer wrong")) f = Respond unauthorized /\
  dispatch (protected None) f = Respond unauthorized /\
  fst (app Scenario.cfg Scenario.env (listing "10.0.0.1") f)
  = Answered forbidden /\
  fst (app Scenario.cfg Scenario.env (listing "127.0.0.1") f)
  = Answered
      (JSONResponse
         (JArr [JObj [("key_prefix", JStr "abababab");
                      ("user", JStr "alice");
                      ("created", JStr "2025-01-01T00:00:00+00:00")]]) 200).
Proof. vm_compute. repeat split. Qed.

(** ** The token manager *)

Module AuthFacts.

Import Effects auth.

Lemma Qltb_true (x y : Q) : Qltb x y = true <-> (x < y)%Q.
Proof.
  unfold Qltb. rewrite negb_true_iff. split.
  - intros H. apply Qnot_le_lt. intros Hle.
    apply Qle_bool_iff in Hle. congruence.
  - intros H. destruct (Qle_bool y x) eqn:E; auto.
    apply Qle_bool_iff in E. exfalso. apply (Qlt_not_le _ _ H E).
Qed.

Lemma Qltb_false (x y : Q) : Qltb x y = false <-> (y <= x)%Q.
Proof.
  unfold Qltb. rewrite negb_false_iff. apply Qle_bool_iff.
Qed.

(** Every acquisition makes exactly one request to the token endpoint. *)
Lemma acquire_posts_once cfg (w : world) (s : state) :
  posts (snd (_acquire_token cfg w s)) = S (posts s) /\
  log (snd (_acquire_token cfg w s)) = (log s ++ [TokenPost (token_form cfg)])%list /\
  sends (snd (_acquire_token cfg w s)) = sends s.
Proof.
  unfold _acquire_token, bind, http_post, lift.
  destruct (token_endpoint w (posts s) (token_form cfg)) as [|resp];
    simpl; auto.
  destruct (httpx.raise_for_status resp); simpl; auto.
  destruct (httpx.json resp) as [data|]; simpl; auto.
  destruct (Json.get_default "expires_in" (JNum 300) data) as [ex|];
    simpl; auto.
  destruct (Json.subscript "access_token" data) as [tok|]; simpl; auto.
  destruct (Json.as_number ex) as [e|]; simpl; auto.
  destruct (overflows e); simpl; auto.
Qed.


(** With no token cached, [get_token] goes straight to the endpoint. *)
Lemma get_token_uncached cfg (w : world) (s : state) :
  Json.truthy (_token (self s)) = false ->
  get_token cfg w s = _acquire_token cfg w (logged GetToken s).
Proof.
  intros H. unfold get_token, bind, emit, read_self. simpl. now rewrite H.
Qed.

End AuthFacts.

Import Effects.



(** The run behind the witness: a token acquired at 1000 is returned from
    the cache at 1001, and a read at 1270 asks the endpoint again. *)
Example token_expiry_run :
  let w := Scenario.expiring_session in
  let s1 := snd (auth.get_token Scenario.cfg w Scenario.fresh) in
  let later :=
    {| clock := fun _ => 1270%Q; token_endpoint := token_endpoint w;
       appliance := appliance w |} in
  fst (auth.get_token Scenario.cfg w Scenario.fresh) = Ok (JStr "token-0") /\
  posts s1 = 1%nat /\
  fst (auth.get_token Scenario.cfg w s1) = Ok (JStr "token-0") /\
  posts (snd (auth.get_token Scenario.cfg w s1)) = 1%nat /\
  fst (auth.get_token Scenario.cfg later s1) = Ok (JStr "token-1") /\
  posts (snd (auth.get_token Scenario.cfg later s1)) = 2%nat.
Proof. vm_compute. repeat split. Qed.

(** Run [_acquire_token] up to the point the hypotheses in scope decide. *)
Ltac run_acquire :=
  unfold auth._acquire_token, bind, http_post, lift,
    httpx.raise_for_status, httpx.json;
  repeat match goal with
         | H : token_endpoint _ _ _ = _ |- _ => rewrite H
         | H : httpx.is_success _ = _ |- _ => rewrite H
         | H : httpx.decoded _ = _ |- _ => rewrite H
         end.

(** An acquisition that gets no reply, a reply outside 2xx, or a body that
    is no object with an access token raises before it stores anything. *)
Lemma acquire_raises_before_store
  (cfg : config.GDPConfig) (w : world) (n : nat) :
  let reply := token_endpoint w n (auth.token_form cfg) in
  (reply = httpx.NoReply \/
   (exists r, reply = httpx.Reply r /\ httpx.is_success r = false) \/
   (exists r, reply = httpx.Reply r /\ httpx.is_success r = true /\
              forall fields, httpx.decoded r = Some (JObj fields) ->
                             Dict.get "access_token" fields = None)) ->
  exists e : exn,
    forall s : state,
      posts s = n ->
      auth._acquire_token cfg w s
      = (Raise e, posted (auth.token_form cfg) s).
Proof.
  intros reply H. unfold reply in H. clear reply.
  destruct H as [Hn | [[r [Hr Hs]] | [r [Hr [Hs Hb]]]]].
  - exists TransportError. intros s <-. now run_acquire.
  - exists (HTTPStatusError (httpx.status_code r)). intros s <-.
    now run_acquire.
  - destruct (httpx.decoded r) as [data|] eqn:Hd.
    + destruct data as [ | b | q | str | items | fields];
        try (exists AttributeError; intros s <-; now run_acquire).
      exists (KeyError "access_token"). intros s <-. run_acquire.
      simpl. rewrite (Hb fields eq_refl).
      destruct (Dict.get "expires_in" fields); reflexivity.
    + exists JSONDecodeError. intros s <-. now run_acquire.
Qed.

(** C7.  When the token endpoint gives no reply, a reply outside 2xx, or
    a body that is not an object with an access token, the acquisition
    raises, and the token and expiry of the manager are what they were.  A
    [get_token] in that situation either answers from the cache without
    asking the endpoint, or raises the same exception; it leaves the token
    and expiry as they were too. *)
Theorem acquire_failure_keeps_state
  (cfg : config.GDPConfig) (w : world) (s : state) :
  let reply := token_endpoint w (posts s) (auth.token_form cfg) in
  (reply = httpx.NoReply \/
   (exists r, reply = httpx.Reply r /\ httpx.is_success r = false) \/
   (exists r, reply = httpx.Reply r /\ httpx.is_success r = true /\
              forall fields, httpx.decoded r = Some (JObj fields) ->
                             Dict.get "access_token" fields = None)) ->
  exists e : exn,
    fst (auth._acquire_token cfg w s) = Raise e /\
    self (snd (auth._acquire_token cfg w s)) = self s /\
    self (snd (auth.get_token cfg w s)) = self s /\
    (fst (auth.get_token cfg w s) = Raise e \/
     fst (auth.get_token cfg w s) = Ok (_token (self s)) /\
     posts (snd (auth.get_token cfg w s)) = posts s).
Proof.
  intros reply H.
  destruct (acquire_raises_before_store cfg w (posts s) H) as [e He].
  exists e. rewrite (He s eq_refl). simpl.
  split; [reflexivity|]. split; [reflexivity|].
  unfold auth.get_token, bind, emit, read_self, time. simpl.
  destruct (Json.truthy (_token (self s))).
  - destruct (Qltb _ _).
    + simpl. auto.
    + rewrite (He (ticked (logged GetToken s)) eq_refl). simpl. auto.
  - rewrite (He (logged GetToken s) eq_refl). simpl. auto.
Qed.

Lemma acquire_failure_keeps_state_witness :
  let s := snd (auth.get_token Scenario.cfg Scenario.expiring_session
                  Scenario.fresh) in
  exists e : exn,
    fst (auth._acquire_token Scenario.cfg Scenario.endpoint_lost s)
    = Raise e /\
    self (snd (auth._acquire_token Scenario.cfg Scenario.endpoint_lost s))
    = self s /\
    self (snd (auth.get_token Scenario.cfg Scenario.endpoint_lost s))
    = self s /\
    (fst (auth.get_token Scenario.cfg Scenario.endpoint_lost s) = Raise e \/
     fst (auth.get_token Scenario.cfg Scenario.endpoint_lost s)
     = Ok (_token (self s)) /\
     posts (snd (auth.get_token Scenario.cfg Scenario.endpoint_lost s))
     = posts s).
Proof.
  apply (acquire_failure_keeps_state Scenario.cfg Scenario.endpoint_lost).
  left. reflexivity.
Defined.

(** Outside those cases one failure is left: an expiry that is no number
    raises after the token is stored, so the new token stays with the old
    expiry. *)
Remark acquire_bad_expiry_keeps_token :
  let w :=
    {| clock := fun _ => 1000%Q;
       token_endpoint := fun _ _ =>
         httpx.Reply
           {| httpx.status_code := 200; httpx.content := "{...}";
              httpx.decoded :=
                Some (JObj [("access_token", JStr "new");
                            ("expires_in", JStr "300")]) |};
       appliance := fun _ _ => httpx.NoReply |} in
  fst (auth._acquire_token Scenario.cfg w Scenario.fresh) = Raise TypeError /\
  self (snd (auth._acquire_token Scenario.cfg w Scenario.fresh))
  = {| _token := JStr "new"; _expires_at := 0 |}.
Proof. vm_compute. split; reflexivity. Qed.

(** ** The authorised client *)

Module ClientFacts.

Import auth client.

Lemma invalidate_clears (w : world) (s : state) :
  invalidate w s = (Ok tt, cleared s).
Proof. reflexivity. Qed.

(** After [invalidate], the next [get_token] asks the endpoint, whatever
    the clock reads. *)
Lemma get_token_after_invalidate cfg (w : world) (s : state) :
  get_token cfg w (cleared s)
  = _acquire_token cfg w (logged GetToken (cleared s)).
Proof. now apply AuthFacts.get_token_uncached. Qed.

(** The retried request is the first one with the new bearer token. *)
Lemma attempt_same_but_token cfg method resource (params : option json)
  (t1 t2 : json) :
  attempt cfg method resource params t2
  = {| api_method := api_method (attempt cfg method resource params t1);
       api_url := api_url (attempt cfg method resource params t1);
       api_params := api_params (attempt cfg method resource params t1);
       api_json := api_json (attempt cfg method resource params t1);
       api_bearer := t2;
       api_verify := api_verify (attempt cfg method resource params t1) |}.
Proof. reflexivity. Qed.

(** [request], once the first token and the first response are known. *)
Lemma request_after_first_attempt cfg (w : world) (s s1 : state)
  method resource (params : option json) (t1 : json) (r1 : httpx.Response) :
  get_token cfg w s = (Ok t1, s1) ->
  appliance w (sends s1) (attempt cfg method resource params t1)
  = httpx.Reply r1 ->
  request cfg method resource params w s
  = if (httpx.status_code r1 =? 401)%Z then
      match
        get_token cfg w
          (cleared (sent (attempt cfg method resource params t1) s1))
      with
      | (Ok t2, s3) =>
          (outcome_of
             (appliance w (sends s3) (attempt cfg method resource params t2)),
           sent (attempt cfg method resource params t2) s3)
      | (Raise e, s3) => (Raise e, s3)
      end
    else (conclude r1, sent (attempt cfg method resource params t1) s1).
Proof.
  intros Hg Ha. unfold request, bind. rewrite Hg.
  unfold http_request at 1. rewrite Ha.
  destruct (httpx.status_code r1 =? 401)%Z; [|reflexivity].
  rewrite invalidate_clears.
  destruct (get_token cfg w
              (cleared (sent (attempt cfg method resource params t1) s1)))
    as [[t2|e] s3]; [|reflexivity].
  unfold http_request.
  destruct (appliance w (sends s3) _); reflexivity.
Qed.

End ClientFacts.

(** C4, amended.  Take a request whose first [get_token] returns [t1]; the
    first attempt is then sent.
    - If it gets no response, [request] raises the transport error after
      that one attempt.
    - If it is answered [r1] and [r1] is not a 401, success or any other
      failure, [request] ends with what [r1] amounts to, after that one
      attempt.
    - If [r1] is a 401, [request] calls [invalidate], then [get_token],
      which asks the token endpoint whatever the clock reads.  When that
      returns [t2], the same request is sent once more with [t2] as its
      bearer token and [request] ends with whatever that second attempt
      amounts to, a second 401 or no response included: the calls after the
      first [get_token] are the first attempt, [invalidate], [get_token],
      the token request and the second attempt, and nothing else.  When it
      raises, [request] raises the same exception and no second attempt is
      made. *)
Theorem retry_once_on_401
  (cfg : config.GDPConfig) (w : world) (s s1 : state)
  (method resource : string) (params : option json) (t1 : json) :
  auth.get_token cfg w s = (Ok t1, s1) ->
  let a1 := client.attempt cfg method resource params t1 in
  let run := client.request cfg method resource params w s in
  match appliance w (sends s1) a1 with
  | httpx.NoReply => run = (Raise TransportError, sent a1 s1)
  | httpx.Reply r1 =>
      (httpx.status_code r1 <> 401%Z ->
       run = (client.conclude r1, sent a1 s1)) /\
      (httpx.status_code r1 = 401%Z ->
       let s2 := client.cleared (sent a1 s1) in
       self s2 = auth.init /\
       auth.get_token cfg w s2
       = auth._acquire_token cfg w (logged GetToken s2) /\
       match auth.get_token cfg w s2 with
       | (Ok t2, s3) =>
           let a2 := client.attempt cfg method resource params t2 in
           run
           = (client.outcome_of (appliance w (sends s3) a2), sent a2 s3) /\
           log (sent a2 s3)
           = (log s1 ++ [Send a1; Invalidate; GetToken;
                         TokenPost (auth.token_form cfg); Send a2])%list
       | (Raise e, s3) =>
           run = (Raise e, s3) /\
           log s3
           = (log s1 ++ [Send a1; Invalidate; GetToken;
                         TokenPost (auth.token_form cfg)])%list
       end)
  end.
Proof.
  intros Hg a1 run.
  destruct (appliance w (sends s1) a1) as [|r1] eqn:Ha.
  - unfold run, client.request, bind. rewrite Hg.
    unfold http_request at 1. fold a1. now rewrite Ha.
  - unfold run.
    rewrite (@ClientFacts.request_after_first_attempt
               cfg w s s1 method resource params t1 r1 Hg Ha).
    fold a1. split.
    + intros Hne. apply Z.eqb_neq in Hne. now rewrite Hne.
    + intros H401. cbv zeta. split; [reflexivity|].
      split; [apply ClientFacts.get_token_after_invalidate|].
      rewrite H401. simpl Z.eqb. cbv iota.
      pose proof (AuthFacts.acquire_posts_once cfg w
                    (logged GetToken (client.cleared (sent a1 s1))))
        as [_ [Hlog _]].
      rewrite <- ClientFacts.get_token_after_invalidate in Hlog.
      destruct (auth.get_token cfg w (client.cleared (sent a1 s1)))
        as [[t2|e] s3]; simpl in Hlog.
      * split; [reflexivity|].
        simpl. rewrite Hlog. rewrite <- !app_assoc. reflexivity.
      * split; [reflexivity|].
        rewrite Hlog. rewrite <- !app_assoc. reflexivity.
Qed.

Lemma retry_once_on_401_witness :
  let w := Scenario.expiring_session in
  let s1 := snd (auth.get_token Scenario.cfg w Scenario.fresh) in
  let a1 :=
    client.attempt Scenario.cfg "get" "datasource" None (JStr "token-0") in
  let run :=
    client.request Scenario.cfg "get" "datasource" None w Scenario.fresh in
  match appliance w (sends s1) a1 with
  | httpx.NoReply => run = (Raise TransportError, sent a1 s1)
  | httpx.Reply r1 =>
      (httpx.status_code r1 <> 401%Z ->
       run = (client.conclude r1, sent a1 s1)) /\
      (httpx.status_code r1 = 401%Z ->
       let s2 := client.cleared (sent a1 s1) in
       self s2 = auth.init /\
       auth.get_token Scenario.cfg w s2
       = auth._acquire_token Scenario.cfg w (logged GetToken s2) /\
       match auth.get_token Scenario.cfg w s2 with
       | (Ok t2, s3) =>
           let a2 :=
             client.attempt Scenario.cfg "get" "datasource" None t2 in
           run
           = (client.outcome_of (appliance w (sends s3) a2), sent a2 s3) /\
           log (sent a2 s3)
           = (log s1 ++ [Send a1; Invalidate; GetToken;
                         TokenPost (auth.token_form Scenario.cfg);
                         Send a2])%list
       | (Raise e, s3) =>
           run = (Raise e, s3) /\
           log s3
           = (log s1 ++ [Send a1; Invalidate; GetToken;
                         TokenPost (auth.token_form Scenario.cfg)])%list
       end)
  end.
Proof.
  intros w s1 a1.
  apply (@retry_once_on_401 Scenario.cfg w Scenario.fresh s1
           "get" "datasource" None (JStr "token-0")).
  reflexivity.
Defined.

(** A first attempt that gets no response is final: the transport error
    is raised after one request and the token is kept. *)
Example transport_error_not_retried :
  let w :=
    {| clock := clock Scenario.expiring_session;
       token_endpoint := token_endpoint Scenario.expiring_session;
       appliance := fun _ _ => httpx.NoReply |} in
  let run :=
    client.request Scenario.cfg "get" "datasource" None w Scenario.fresh in
  fst run = Raise TransportError /\ sends (snd run) = 1%nat /\
  posts (snd run) = 1%nat /\ _token (self (snd run)) = JStr "token-0".
Proof. vm_compute. repeat split. Qed.

(** A 401 followed by a served retry returns the served body after exactly
    two attempts, the second with the new token. *)
Example retry_run :
  let a t := client.attempt Scenario.cfg "get" "datasource" None (JStr t) in
  let post := TokenPost (auth.token_form Scenario.cfg) in
  let run :=
    client.request Scenario.cfg "get" "datasource" None
      Scenario.expiring_session Scenario.fresh in
  fst run = Ok (JArr []) /\
  log (snd run)
  = [GetToken; post; Send (a "token-0"); Invalidate; GetToken; post;
     Send (a "token-1")] /\
  _token (self (snd run)) = JStr "token-1".
Proof. vm_compute. repeat split. Qed.

(** C4, as stated, fails when the token cannot be acquired again: the first
    attempt is answered 401, [invalidate] and [get_token] are called, the
    token endpoint does not answer, and [request] raises that error; the
    request is not sent a second time. *)
Lemma no_retry_when_reacquisition_fails :
  let first :=
    client.attempt Scenario.cfg "get" "datasource" None (JStr "token-0") in
  let post := TokenPost (auth.token_form Scenario.cfg) in
  let run :=
    client.request Scenario.cfg "get" "datasource" None
      Scenario.endpoint_lost Scenario.fresh in
  appliance Scenario.endpoint_lost 0 first = httpx.Reply Scenario.rejected /\
  httpx.status_code Scenario.rejected = 401%Z /\
  fst run = Raise TransportError /\
  log (snd run) = [GetToken; post; Send first; Invalidate; GetToken; post] /\
  sends (snd run) = 1%nat /\
  ~ (exists second : api_request,
       In (Send second) (log (snd run)) /\ second <> first).
Proof.
  vm_compute. repeat split.
  intros [second [Hin Hne]].
  repeat (destruct Hin as [Hin|Hin]; [try discriminate Hin|]).
  - injection Hin as <-. now apply Hne.
  - destruct Hin.
Qed.

(** A failure that is not a 401 is final after one attempt. *)
Example server_error_not_retried :
  let w :=
    {| clock := clock Scenario.expiring_session;
       token_endpoint := token_endpoint Scenario.expiring_session;
       appliance := fun _ _ =>
         httpx.Reply {| httpx.status_code := 503; httpx.content := "busy";
                        httpx.decoded := None |} |} in
  let run :=
    client.request Scenario.cfg "post" "datasource" None w Scenario.fresh in
  fst run = Raise (HTTPStatusError 503) /\ sends (snd run) = 1%nat.
Proof. vm_compute. split; reflexivity. Qed.

(** * Further properties of the key store *)

Module DictLaws.

Lemma get_del_neq {V} (k k0 : string) (d : Dict.t V) :
  k0 <> k -> Dict.get k0 (Dict.del k d) = Dict.get k0 d.
Proof.
  intros Hne. unfold Dict.del.
  induction d as [|[k' v'] r IH]; simpl; auto.
  destruct (String.eqb k' k) eqn:E; simpl.
  - apply String.eqb_eq in E. subst k'.
    destruct (String.eqb k k0) eqn:E0; auto.
    apply String.eqb_eq in E0. congruence.
  - now rewrite IH.
Qed.

(** Assigning a new key appends it. *)
Lemma set_fresh {V} (k : string) (v : V) (d : Dict.t V) :
  ~ In k (Dict.keys d) -> Dict.set k v d = (d ++ [(k, v)])%list.
Proof.
  induction d as [|[k' v'] r IH]; simpl; auto.
  intros Hn. destruct (String.eqb k' k) eqn:E.
  - apply String.eqb_eq in E. tauto.
  - rewrite IH; auto.
Qed.

(** Assigning an existing key keeps the number of entries. *)
Lemma set_present_length {V} (k : string) (v : V) (d : Dict.t V) :
  In k (Dict.keys d) -> List.length (Dict.set k v d) = List.length d.
Proof.
  induction d as [|[k' v'] r IH]; simpl; [tauto|].
  intros Hin. destruct (String.eqb k' k) eqn:E; simpl; auto.
  apply String.eqb_neq in E. rewrite IH; tauto.
Qed.

Lemma del_absent {V} (k : string) (d : Dict.t V) :
  ~ In k (Dict.keys d) -> Dict.del k d = d.
Proof.
  unfold Dict.del. induction d as [|[k' v'] r IH]; simpl; auto.
  intros Hn. destruct (String.eqb k' k) eqn:E; simpl.
  - apply String.eqb_eq in E. tauto.
  - rewrite IH; tauto.
Qed.

Lemma del_app {V} (k : string) (d e : Dict.t V) :
  Dict.del k (d ++ e)%list = (Dict.del k d ++ Dict.del k e)%list.
Proof. unfold Dict.del. apply filter_app. Qed.

(** Deleting a key just assigned for the first time undoes the assignment. *)
Lemma del_set_fresh {V} (k : string) (v : V) (d : Dict.t V) :
  ~ In k (Dict.keys d) -> Dict.del k (Dict.set k v d) = d.
Proof.
  intros Hn. rewrite set_fresh, del_app, del_absent by exact Hn.
  unfold Dict.del. simpl. rewrite String.eqb_refl. simpl.
  apply app_nil_r.
Qed.

(** An entry after an assignment is the assigned one or was there. *)
Lemma in_set {V} (k : string) (v : V) (d : Dict.t V) (kv : string * V) :
  In kv (Dict.set k v d) -> kv = (k, v) \/ In kv d.
Proof.
  induction d as [|[k' v'] r IH]; simpl.
  - intros [<-|[]]. auto.
  - destruct (String.eqb k' k) eqn:E; simpl.
    + apply String.eqb_eq in E. subst k'. intros [<-|H]; auto.
    + intros [<-|H]; auto. destruct (IH H); auto.
Qed.

(** In a dictionary with unique keys, deleting a present key removes one
    entry. *)
Lemma del_present_length {V} (k : string) (d : Dict.t V) :
  Dict.wf d -> In k (Dict.keys d) ->
  S (List.length (Dict.del k d)) = List.length d.
Proof.
  unfold Dict.wf. induction d as [|[k' v'] r IH]; simpl; [tauto|].
  intros Hwf Hin. inversion Hwf as [|? ? Hn Hr]; subst.
  unfold Dict.del. simpl. destruct (String.eqb k' k) eqn:E; simpl.
  - apply String.eqb_eq in E. subst k'.
    fold (Dict.del k r). now rewrite del_absent.
  - apply String.eqb_neq in E. fold (Dict.del k r).
    rewrite IH; tauto.
Qed.

End DictLaws.

Module KeyStoreLaws.

Import keystore.

Lemma take_length (n : nat) (s : string) :
  String.length (PyStr.take n s) = Nat.min n (String.length s).
Proof.
  unfold PyStr.take. revert s.
  induction n as [|n IH]; intros [|c r]; simpl; auto.
Qed.

Lemma find_target_app (P : string) (d e : Dict.t key_meta) :
  find_target P (d ++ e)%list
  = match find_target P d with
    | Some t => Some t
    | None => find_target P e
    end.
Proof.
  induction d as [|[h m] r IH]; simpl; auto.
  destruct (String.eqb (key_prefix m) P); auto.
Qed.

Lemma list_keys_length (f : file) :
  List.length (list_keys f) = List.length (_load_store f).
Proof. unfold list_keys, Dict.values. now rewrite !length_map. Qed.

Lemma in_keys (h : string) (m : key_meta) (d : Dict.t key_meta) :
  In (h, m) d -> In h (Dict.keys d).
Proof. intros H. unfold Dict.keys. apply in_map_iff. exists (h, m). auto. Qed.

End KeyStoreLaws.

Import keystore.

(** X1.  With a write that succeeds, [generate_key] hands out a key of 64
    lowercase hexadecimal digits together with its first 8 characters as the
    prefix, the user and the time it was given; with a write that fails it
    raises [IOError], hands out nothing, and the file is whatever the failed
    write left. *)
Theorem generate_key_hands_out_hex_key
  (rnd : nat -> Z) (now u : string) (f : file) :
  (exists r : issued,
     fst (generate_key rnd now Written u f) = Ok r /\
     String.length (key r) = 64 /\
     PyStr.all_chars PyStr.is_hex (key r) = true /\
     issued_key_prefix r = PyStr.take 8 (key r) /\
     String.length (issued_key_prefix r) = 8 /\
     issued_user r = u /\ issued_created r = now) /\
  (forall residue : file,
     generate_key rnd now (WriteFails residue) u f = (Raise IOError, residue)).
Proof.
  split; [|reflexivity].
  eexists. split; [reflexivity|]. cbn [key issued_key_prefix issued_user
                                        issued_created].
  assert (Hlen : String.length (token_hex 32 rnd) = 64)
    by apply KeyStoreFacts.token_hex_length.
  split; [exact Hlen|].
  split; [apply PyStrFacts.hexlify_is_hex|].
  split; [reflexivity|].
  split; [|split; reflexivity].
  unfold _key_prefix. rewrite KeyStoreLaws.take_length, Hlen. reflexivity.
Qed.

(** X2.  Issuing a key touches no other key: every raw key with another
    digest validates after the issuance exactly as before.  A digest the
    store does not hold yet adds one entry at the end of the listing; a digest
    it holds already (the same random bytes drawn twice) replaces that entry
    and the listing keeps its length. *)
Theorem generate_key_frame
  (rnd : nat -> Z) (now u : string) (f : file) :
  let h := _hash_key (token_hex 32 rnd) in
  let f' := snd (generate_key rnd now Written u f) in
  (forall raw : string,
     _hash_key raw <> h -> validate_key raw f' = validate_key raw f) /\
  (~ In h (Dict.keys (_load_store f)) ->
   list_keys f'
   = (list_keys f ++
      [{| listed_key_prefix := PyStr.take 8 (token_hex 32 rnd);
          listed_user := u; listed_created := now |}])%list) /\
  (In h (Dict.keys (_load_store f)) ->
   List.length (list_keys f') = List.length (list_keys f)).
Proof.
  intros h f'. unfold f'. split; [|split].
  - intros raw Hne. unfold validate_key.
    destruct (negb (PyStr.truthy raw)); auto. cbv zeta.
    rewrite KeyStoreFacts.load_after_generate.
    now apply DictFacts.get_set_neq.
  - intros Hn. unfold list_keys. cbv zeta.
    rewrite KeyStoreFacts.load_after_generate.
    rewrite DictLaws.set_fresh by exact Hn.
    unfold Dict.values. now rewrite !map_app.
  - intros Hin. rewrite !KeyStoreLaws.list_keys_length.
    rewrite KeyStoreFacts.load_after_generate.
    now apply DictLaws.set_present_length.
Qed.

Lemma generate_key_frame_witness :
  let f' :=
    snd (generate_key Cases.rnd_carol Cases.carol_time Written "carol"
           Scenario.two_keys) in
  validate_key Scenario.bob_key f'
  = validate_key Scenario.bob_key Scenario.two_keys /\
  list_keys f'
  = (list_keys Scenario.two_keys ++
     [{| listed_key_prefix := PyStr.take 8 (token_hex 32 Cases.rnd_carol);
         listed_user := "carol"; listed_created := Cases.carol_time |}])%list.
Proof.
  destruct (generate_key_frame Cases.rnd_carol Cases.carol_time "carol"
              Scenario.two_keys) as [Hother [Hfresh _]].
  split.
  - apply Hother. vm_compute. discriminate.
  - apply Hfresh. vm_compute. intros [H|[H|[]]]; discriminate H.
Defined.

(** X3.  A successful revocation touches no other key: every raw key whose
    digest is not the removed record's validates afterwards exactly as
    before, and, the digests of the store being unique, the listing is one
    entry shorter. *)
Theorem revoke_key_frame
  (P : string) (f : file) (h : string) (m : key_meta) :
  find_target P (_load_store f) = Some (h, m) ->
  let f' := snd (revoke_key P Written f) in
  fst (revoke_key P Written f)
  = Ok (Some {| status := "revoked"; revoked_key_prefix := P;
                revoked_user := user m |}) /\
  (forall raw : string,
     _hash_key raw <> h -> validate_key raw f' = validate_key raw f) /\
  (Dict.wf (_load_store f) ->
   S (List.length (list_keys f')) = List.length (list_keys f)).
Proof.
  intros Ht f'. unfold f'.
  assert (Hl : _load_store (snd (revoke_key P Written f))
               = Dict.del h (_load_store f)).
  { rewrite KeyStoreFacts.load_after_revoke. now rewrite Ht. }
  split; [|split].
  - unfold revoke_key. now rewrite Ht.
  - intros raw Hne. unfold validate_key.
    destruct (negb (PyStr.truthy raw)); auto. cbv zeta.
    rewrite Hl. now apply DictLaws.get_del_neq.
  - intros Hwf. rewrite !KeyStoreLaws.list_keys_length, Hl.
    apply DictLaws.del_present_length; auto.
    apply KeyStoreFacts.find_target_some in Ht.
    eapply KeyStoreLaws.in_keys. apply Ht.
Qed.

Lemma revoke_key_frame_witness :
  let f' := snd (revoke_key "abababab" Written Scenario.two_keys) in
  fst (revoke_key "abababab" Written Scenario.two_keys)
  = Ok (Some {| status := "revoked"; revoked_key_prefix := "abababab";
                revoked_user := "alice" |}) /\
  validate_key Scenario.bob_key f'
  = validate_key Scenario.bob_key Scenario.two_keys /\
  S (List.length (list_keys f')) = List.length (list_keys Scenario.two_keys).
Proof.
  destruct (@revoke_key_frame "abababab" Scenario.two_keys
              (_hash_key Scenario.alice_key)
              {| user := "alice"; created := "2025-01-01T00:00:00+00:00";
                 key_prefix := "abababab" |})
    as [Hout [Hother Hlen]].
  - vm_compute. reflexivity.
  - split; [exact Hout|]. split.
    + apply Hother. vm_compute. discriminate.
    + apply Hlen. vm_compute. repeat constructor.
      * intros [H|[]]. discriminate H.
      * intros [].
Defined.

(** X4.  Issuing a key and revoking it by the prefix handed out brings the
    store back to what it held, provided the digest is new and no stored
    record has that prefix: the revocation reports the user of the new key,
    the listing is the one before the issuance, and the new key no longer
    validates. *)
Theorem issue_then_revoke_restores
  (rnd : nat -> Z) (now u : string) (f : file) :
  let raw := token_hex 32 rnd in
  let prefix := PyStr.take 8 raw in
  ~ In (_hash_key raw) (Dict.keys (_load_store f)) ->
  (forall h m, In (h, m) (_load_store f) -> key_prefix m <> prefix) ->
  let f1 := snd (generate_key rnd now Written u f) in
  let f2 := snd (revoke_key prefix Written f1) in
  fst (revoke_key prefix Written f1)
  = Ok (Some {| status := "revoked"; revoked_key_prefix := prefix;
                revoked_user := u |}) /\
  _load_store f2 = _load_store f /\
  list_keys f2 = list_keys f /\
  validate_key raw f2 = None.
Proof.
  intros raw prefix Hfresh Hnone f1 f2.
  assert (H1 : _load_store f1
               = (_load_store f ++
                  [(_hash_key raw,
                    {| user := u; created := now; key_prefix := prefix |})])%list).
  { unfold f1. rewrite KeyStoreFacts.load_after_generate.
    now apply DictLaws.set_fresh. }
  assert (Ht : find_target prefix (_load_store f1)
               = Some (_hash_key raw,
                       {| user := u; created := now; key_prefix := prefix |})).
  { rewrite H1, KeyStoreLaws.find_target_app.
    apply KeyStoreFacts.find_target_none in Hnone. rewrite Hnone.
    cbn [find_target key_prefix]. now rewrite String.eqb_refl. }
  assert (H2 : _load_store f2 = _load_store f).
  { unfold f2. rewrite KeyStoreFacts.load_after_revoke, Ht.
    unfold f1. rewrite KeyStoreFacts.load_after_generate.
    now apply DictLaws.del_set_fresh. }
  split; [|split; [|split]].
  - unfold revoke_key. now rewrite Ht.
  - exact H2.
  - unfold list_keys. now rewrite H2.
  - unfold validate_key. fold raw.
    destruct (negb (PyStr.truthy raw)); auto. cbv zeta. rewrite H2.
    now apply DictFacts.get_none.
Qed.

Lemma issue_then_revoke_restores_witness :
  let raw := token_hex 32 Cases.rnd_carol in
  let prefix := PyStr.take 8 raw in
  let f1 :=
    snd (generate_key Cases.rnd_carol Cases.carol_time Written "carol"
           Scenario.two_keys) in
  let f2 := snd (revoke_key prefix Written f1) in
  fst (revoke_key prefix Written f1)
  = Ok (Some {| status := "revoked"; revoked_key_prefix := prefix;
                revoked_user := "carol" |}) /\
  _load_store f2 = _load_store Scenario.two_keys /\
  list_keys f2 = list_keys Scenario.two_keys /\
  validate_key raw f2 = None.
Proof.
  apply (@issue_then_revoke_restores Cases.rnd_carol Cases.carol_time
           "carol" Scenario.two_keys).
  - vm_compute. intros [H|[H|[]]]; discriminate H.
  - intros h m Hin. vm_compute in Hin.
    destruct Hin as [H|[H|[]]]; inversion H; subst; vm_compute; discriminate.
Defined.

(** X5.  When a stored record already has the prefix of a newly issued key,
    revoking by the prefix handed out removes that older record, not the
    new key: the revocation reports the older record's user, the older key
    stops validating and the new key still validates. *)
Theorem revoke_by_new_prefix_hits_older_record
  (rnd : nat -> Z) (now u : string) (f : file) (h0 : string) (m0 : key_meta) :
  let raw := token_hex 32 rnd in
  let prefix := PyStr.take 8 raw in
  ~ In (_hash_key raw) (Dict.keys (_load_store f)) ->
  find_target prefix (_load_store f) = Some (h0, m0) ->
  let f1 := snd (generate_key rnd now Written u f) in
  let f2 := snd (revoke_key prefix Written f1) in
  fst (revoke_key prefix Written f1)
  = Ok (Some {| status := "revoked"; revoked_key_prefix := prefix;
                revoked_user := user m0 |}) /\
  (forall old, _hash_key old = h0 -> validate_key old f2 = None) /\
  validate_key raw f2
  = Some {| user := u; created := now; key_prefix := prefix |}.
Proof.
  intros raw prefix Hfresh Ht0 f1 f2.
  assert (Hne : _hash_key raw <> h0).
  { intros <-. apply Hfresh.
    apply KeyStoreFacts.find_target_some in Ht0.
    eapply KeyStoreLaws.in_keys. apply Ht0. }
  assert (H1 : _load_store f1
               = Dict.set (_hash_key raw)
                   {| user := u; created := now; key_prefix := prefix |}
                   (_load_store f)).
  { unfold f1. apply KeyStoreFacts.load_after_generate. }
  assert (Ht : find_target prefix (_load_store f1) = Some (h0, m0)).
  { rewrite H1, DictLaws.set_fresh by exact Hfresh.
    rewrite KeyStoreLaws.find_target_app. now rewrite Ht0. }
  assert (H2 : _load_store f2 = Dict.del h0 (_load_store f1)).
  { unfold f2. rewrite KeyStoreFacts.load_after_revoke. now rewrite Ht. }
  split; [|split].
  - unfold revoke_key. now rewrite Ht.
  - intros old <-. unfold validate_key.
    destruct (negb (PyStr.truthy old)); auto. cbv zeta.
    rewrite H2. apply DictFacts.get_del_eq.
  - unfold validate_key. fold raw.
    assert (Htr : PyStr.truthy raw = true)
      by apply KeyStoreFacts.token_hex_truthy.
    rewrite Htr. cbv zeta. simpl negb. cbv iota.
    rewrite H2, DictLaws.get_del_neq by exact Hne.
    rewrite H1. apply DictFacts.get_set_eq.
Qed.

Lemma revoke_by_new_prefix_hits_older_record_witness :
  let raw := token_hex 32 Scenario.rnd_bob in
  let prefix := PyStr.take 8 raw in
  let f1 :=
    snd (generate_key Scenario.rnd_bob "2025-01-02T00:00:00+00:00" Written
           "bob" Scenario.one_key) in
  let f2 := snd (revoke_key prefix Written f1) in
  fst (revoke_key prefix Written f1)
  = Ok (Some {| status := "revoked"; revoked_key_prefix := prefix;
                revoked_user := "alice" |}) /\
  (forall old, _hash_key old = _hash_key Scenario.alice_key ->
               validate_key old f2 = None) /\
  validate_key raw f2
  = Some {| user := "bob"; created := "2025-01-02T00:00:00+00:00";
            key_prefix := prefix |}.
Proof.
  apply (@revoke_by_new_prefix_hits_older_record Scenario.rnd_bob
           "2025-01-02T00:00:00+00:00" "bob" Scenario.one_key
           (_hash_key Scenario.alice_key)
           {| user := "alice"; created := "2025-01-01T00:00:00+00:00";
              key_prefix := "abababab" |}).
  - vm_compute. intros [H|[]]. discriminate H.
  - vm_compute. reflexivity.
Defined.

(** X7.  Whatever keys are issued and revoked, in any order, the digests of
    the store stay distinct and every stored prefix has 8 characters,
    starting from a store where that holds (no file, for one). *)
Theorem store_invariant (ops : list operation) (f : file) :
  Dict.wf (_load_store f) ->
  (forall h m, In (h, m) (_load_store f) ->
               String.length (key_prefix m) = 8) ->
  Dict.wf (_load_store (perform_all ops f)) /\
  (forall h m, In (h, m) (_load_store (perform_all ops f)) ->
               String.length (key_prefix m) = 8).
Proof.
  unfold perform_all. revert f.
  induction ops as [|o ops IH]; intros f Hwf Hlen; [auto|].
  change (fold_left perform (o :: ops) f)
    with (fold_left perform ops (perform f o)).
  apply IH; destruct o as [rnd now u | P]; unfold perform.
  - rewrite KeyStoreFacts.load_after_generate. now apply DictFacts.wf_set.
  - rewrite KeyStoreFacts.load_after_revoke.
    destruct (find_target P (_load_store f)) as [[h0 m0]|]; auto.
    now apply DictFacts.wf_del.
  - rewrite KeyStoreFacts.load_after_generate. intros h m Hin.
    apply DictLaws.in_set in Hin. destruct Hin as [[= _ ->]|Hin]; [|eauto].
    cbn [key_prefix]. unfold _key_prefix.
    rewrite KeyStoreLaws.take_length, KeyStoreFacts.token_hex_length.
    reflexivity.
  - rewrite KeyStoreFacts.load_after_revoke. intros h m Hin.
    destruct (find_target P (_load_store f)) as [[h0 m0]|]; eauto.
    apply DictFacts.in_del in Hin. destruct Hin as [Hin _]. eauto.
Qed.

Lemma store_invariant_witness :
  Dict.wf
    (_load_store
       (perform_all
          [Issue Scenario.rnd_alice "t1" "alice";
           Issue Scenario.rnd_bob "t2" "bob"; Revoke "abababab"] Absent)) /\
  (forall h m,
     In (h, m)
       (_load_store
          (perform_all
             [Issue Scenario.rnd_alice "t1" "alice";
              Issue Scenario.rnd_bob "t2" "bob"; Revoke "abababab"] Absent)) ->
     String.length (key_prefix m) = 8).
Proof.
  apply store_invariant.
  - constructor.
  - intros h m [].
Defined.

(** * Further properties of the gateway *)

Module GatewayLaws.

Import PyStr.

Lemma prefix_app (p s : string) : String.prefix p (p ++ s) = true.
Proof.
  induction p as [|c p IH]; simpl.
  - destruct s; reflexivity.
  - change (String.prefix (String c p) (String c (p ++ s)) = true).
    rewrite PyStrFacts.prefix_cons.
    destruct (ascii_dec c c); [exact IH | congruence].
Qed.

Lemma drop_app (p s : string) : drop (String.length p) (p ++ s) = s.
Proof. induction p as [|c p IH]; simpl; auto. Qed.

(** [(p + s).removeprefix(p)] is [s]. *)
Lemma removeprefix_app (p s : string) : removeprefix p (p ++ s) = s.
Proof.
  unfold removeprefix, startswith. now rewrite prefix_app, drop_app.
Qed.

Lemma truthy_nonempty (s : string) : truthy s = true <-> s <> "".
Proof. destruct s; simpl; split; congruence. Qed.

Lemma dispatch_protected (req : server.request) (f : keystore.file) :
  Protected.route req ->
  server.dispatch req f
  = match
      keystore.validate_key
        (strip (removeprefix "Bearer "
                  (match server.authorization req with
                   | Some h => h
                   | None => ""
                   end))) f
    with
    | None => server.Respond server.unauthorized
    | Some _ => server.CallNext
    end.
Proof.
  intros [Hh Hp]. unfold server.dispatch.
  apply String.eqb_neq in Hh. now rewrite Hh, Hp.
Qed.

End GatewayLaws.

Import server.

(** X8.  A key issued through the admin endpoint opens the protected routes.
    From an address on the allow-list, with a body whose [user] is a string
    that is not blank and a write that succeeds, [admin_create_key] answers
    201 with the new key, the trimmed user, the time and the prefix; after
    that, every request to a protected route whose header is ["Bearer "]
    followed by that key is handed on by the middleware. *)
Theorem issued_key_opens_protected_routes
  (env : environment) (req : request) (f : keystore.file)
  (fields : list (string * json)) (s : string) :
  _is_localhost req = true ->
  body req = Some (JObj fields) ->
  Dict.get "user" fields = Some (JStr s) ->
  PyStr.strip s <> "" ->
  disk env = Written ->
  let raw := token_hex 32 (rnd env) in
  fst (admin_create_key env req f)
  = Ok (JSONResponse
          (JObj [("key", JStr raw); ("user", JStr (PyStr.strip s));
                 ("created", JStr (now env));
                 ("key_prefix", JStr (PyStr.take 8 raw))]) 201) /\
  forall req' : request,
    Protected.route req' ->
    authorization req' = Some ("Bearer " ++ raw) ->
    dispatch req' (snd (admin_create_key env req f)) = CallNext.
Proof.
  intros Hl Hb Hu Hs Hd raw.
  assert (Hr : requested_user req = PyStr.strip s).
  { unfold requested_user. rewrite Hb. simpl. now rewrite Hu. }
  assert (Ht : PyStr.truthy (PyStr.strip s) = true)
    by now apply GatewayLaws.truthy_nonempty.
  assert (Hc : admin_create_key env req f
               = (Ok (JSONResponse
                        (JObj [("key", JStr raw);
                               ("user", JStr (PyStr.strip s));
                               ("created", JStr (now env));
                               ("key_prefix", JStr (PyStr.take 8 raw))]) 201),
                  snd (generate_key (rnd env) (now env) Written
                         (PyStr.strip s) f))).
  { unfold admin_create_key. rewrite Hl, Hr, Ht, Hd. reflexivity. }
  rewrite Hc. split; [reflexivity|]. cbn [snd].
  intros req' Hp Ha. rewrite GatewayLaws.dispatch_protected by exact Hp.
  rewrite Ha, GatewayLaws.removeprefix_app.
  rewrite PyStrFacts.strip_no_space.
  - unfold validate_key. fold raw.
    assert (Htr : PyStr.truthy raw = true)
      by apply KeyStoreFacts.token_hex_truthy.
    rewrite Htr. cbv zeta. simpl negb. cbv iota.
    rewrite KeyStoreFacts.load_after_generate.
    now rewrite DictFacts.get_set_eq.
  - eapply PyStrFacts.all_chars_impl; [|apply PyStrFacts.hexlify_is_hex].
    intros c Hc'. apply PyStrFacts.is_hex_plain in Hc'.
    destruct Hc' as [Hc' _]. now rewrite Hc'.
Qed.

Lemma issued_key_opens_protected_routes_witness :
  let req := Scenario.issue_request (Some (JObj [("user", JStr " alice ")])) in
  let raw := token_hex 32 (rnd Scenario.env) in
  fst (admin_create_key Scenario.env req Absent)
  = Ok (JSONResponse
          (JObj [("key", JStr raw); ("user", JStr (PyStr.strip " alice "));
                 ("created", JStr (now Scenario.env));
                 ("key_prefix", JStr (PyStr.take 8 raw))]) 201) /\
  dispatch (Requests.sse (Some ("Bearer " ++ raw)))
    (snd (admin_create_key Scenario.env req Absent))
  = CallNext.
Proof.
  intros req raw.
  destruct (@issued_key_opens_protected_routes Scenario.env req Absent
              [("user", JStr " alice ")] " alice ") as [Hout Hopen].
  - reflexivity.
  - reflexivity.
  - reflexivity.
  - vm_compute. discriminate.
  - reflexivity.
  - split; [exact Hout|]. apply Hopen.
    + split; [discriminate | reflexivity].
    + reflexivity.
Defined.

(** X9.  A key revoked through the admin endpoint is shut out.  From an
    address on the allow-list, when the first record with the prefix belongs
    to the raw key [raw] and the write succeeds, [admin_revoke_key] answers
    200 with the prefix and the record's user, and from then on every request
    to a protected route with ["Bearer "] and that key is answered 401. *)
Theorem revoked_key_is_rejected
  (env : environment) (P : string) (req : request) (f : keystore.file)
  (raw : string) (m : key_meta) :
  _is_localhost req = true ->
  disk env = Written ->
  find_target P (_load_store f) = Some (_hash_key raw, m) ->
  PyStr.strip raw = raw ->
  fst (admin_revoke_key env P req f)
  = Ok (JSONResponse
          (JObj [("status", JStr "revoked"); ("key_prefix", JStr P);
                 ("user", JStr (user m))]) 200) /\
  forall req' : request,
    Protected.route req' ->
    authorization req' = Some ("Bearer " ++ raw) ->
    dispatch req' (snd (admin_revoke_key env P req f))
    = Respond unauthorized.
Proof.
  intros Hl Hd Ht Hs.
  assert (Hr : admin_revoke_key env P req f
               = (Ok (JSONResponse
                        (JObj [("status", JStr "revoked");
                               ("key_prefix", JStr P);
                               ("user", JStr (user m))]) 200),
                  snd (revoke_key P Written f))).
  { unfold admin_revoke_key, revoke_key. now rewrite Hl, Hd, Ht. }
  rewrite Hr. split; [reflexivity|]. cbn [snd].
  intros req' Hp Ha.
  rewrite GatewayLaws.dispatch_protected by exact Hp.
  rewrite Ha, GatewayLaws.removeprefix_app, Hs.
  unfold validate_key. destruct (negb (PyStr.truthy raw)); auto.
  cbv zeta. rewrite KeyStoreFacts.load_after_revoke, Ht.
  now rewrite DictFacts.get_del_eq.
Qed.

Lemma revoked_key_is_rejected_witness :
  fst (admin_revoke_key Scenario.env "abababab" (Requests.revoke "abababab")
         Scenario.two_keys)
  = Ok (JSONResponse
          (JObj [("status", JStr "revoked"); ("key_prefix", JStr "abababab");
                 ("user", JStr "alice")]) 200) /\
  dispatch (Requests.sse (Some ("Bearer " ++ Scenario.alice_key)))
    (snd (admin_revoke_key Scenario.env "abababab"
            (Requests.revoke "abababab") Scenario.two_keys))
  = Respond unauthorized.
Proof.
  destruct (@revoked_key_is_rejected Scenario.env "abababab"
              (Requests.revoke "abababab") Scenario.two_keys
              Scenario.alice_key
              {| user := "alice"; created := "2025-01-01T00:00:00+00:00";
                 key_prefix := "abababab" |}) as [Hout Hshut].
  - reflexivity.
  - reflexivity.
  - vm_compute. reflexivity.
  - vm_compute. reflexivity.
  - split; [exact Hout|]. apply Hshut.
    + split; [discriminate | reflexivity].
    + reflexivity.
Defined.

(** The run behind it: Alice's key opens [/sse], is revoked through the
    admin endpoint, and is answered 401 afterwards. *)
Example revoke_then_reject_run :
  let knock f :=
    dispatch (Requests.sse (Some ("Bearer " ++ Scenario.alice_key))) f in
  let out :=
    app Scenario.cfg Scenario.env (Requests.revoke "abababab")
      Scenario.one_key in
  knock Scenario.one_key = CallNext /\
  fst out
  = Answered
      (JSONResponse
         (JObj [("status", JStr "revoked"); ("key_prefix", JStr "abababab");
                ("user", JStr "alice")]) 200) /\
  knock (snd out) = Respond unauthorized /\
  fst (app Scenario.cfg Scenario.env (Requests.revoke "abababab") (snd out))
  = Answered (not_found "abababab").
Proof. vm_compute. repeat split. Qed.

(** X10.  On a protected route, a request without an [Authorization] header,
    or with one that is empty once the scheme prefix is removed and white
    space trimmed, is answered 401 whatever the store holds, and the store is
    left alone. *)
Theorem blank_credentials_unauthorized
  (cfg : config.GDPConfig) (env : environment) (req : request)
  (f : keystore.file) :
  Protected.route req ->
  (authorization req = None \/
   exists h, authorization req = Some h /\
             PyStr.strip (PyStr.removeprefix "Bearer " h) = "") ->
  dispatch req f = Respond unauthorized /\
  app cfg env req f = (Answered unauthorized, f) /\
  status_code unauthorized = 401%Z.
Proof.
  intros Hp Ha.
  assert (Hd : dispatch req f = Respond unauthorized).
  { rewrite GatewayLaws.dispatch_protected by exact Hp.
    destruct Ha as [-> | [h [-> ->]]]; reflexivity. }
  split; [exact Hd|]. split; [|reflexivity].
  unfold app. now rewrite Hd.
Qed.

Lemma blank_credentials_unauthorized_witness :
  dispatch (Requests.sse (Some "Bearer   ")) Scenario.two_keys
  = Respond unauthorized /\
  app Scenario.cfg Scenario.env (Requests.sse (Some "Bearer   "))
    Scenario.two_keys
  = (Answered unauthorized, Scenario.two_keys) /\
  status_code unauthorized = 401%Z.
Proof.
  apply blank_credentials_unauthorized.
  - split; [discriminate | reflexivity].
  - right. exists "Bearer   ". split; reflexivity.
Defined.

(** X11.  From an address on the allow-list, [admin_list_keys] answers 200
    with one object per stored record, in the order of the store, each with
    exactly the members [key_prefix], [user] and [created] of that record;
    the digest a record is stored under is not part of the answer, and the
    store is left alone. *)
Theorem admin_list_keys_masks_digests (req : request) (f : keystore.file) :
  _is_localhost req = true ->
  admin_list_keys req f
  = (Ok (JSONResponse
           (JArr (map (fun hm : string * key_meta =>
                         JObj [("key_prefix", JStr (key_prefix (snd hm)));
                               ("user", JStr (user (snd hm)));
                               ("created", JStr (created (snd hm)))])
                      (_load_store f))) 200), f).
Proof.
  intros Hl. unfold admin_list_keys. rewrite Hl. simpl negb. cbv iota.
  unfold list_keys, Dict.values. now rewrite !map_map.
Qed.

Lemma admin_list_keys_masks_digests_witness :
  admin_list_keys Requests.listing Scenario.two_keys
  = (Ok (JSONResponse
           (JArr (map (fun hm : string * key_meta =>
                         JObj [("key_prefix", JStr (key_prefix (snd hm)));
                               ("user", JStr (user (snd hm)));
                               ("created", JStr (created (snd hm)))])
                      (_load_store Scenario.two_keys))) 200),
     Scenario.two_keys).
Proof.
  apply admin_list_keys_masks_digests. reflexivity.
Defined.

(** X12.  The health check is public.  The middleware hands on every
    request whose URL path is [/health], whatever its address and its
    [Authorization] header; and a GET or HEAD that the router matches to
    [/health], the scope path being [/health] with or without a newline
    after it, is answered 200 by the health handler: the answer says that
    keys are required and how many are stored, and the store is left
    alone. *)
Theorem health_is_public
  (cfg : config.GDPConfig) (env : environment) (req : request)
  (f : keystore.file) :
  path req = "/health" ->
  scope_path req = "/health" \/
  scope_path req = "/health" ++ String "010" "" ->
  method req = "GET" \/ method req = "HEAD" ->
  dispatch req f = CallNext /\
  app cfg env req f = (Answered (health cfg f), f) /\
  status_code (health cfg f) = 200%Z /\
  exists fields,
    content (health cfg f) = JObj fields /\
    Dict.get "auth_required" fields = Some (JBool true) /\
    Dict.get "active_keys" fields
    = Some (JNum (inject_Z (Z.of_nat (List.length (_load_store f))))).
Proof.
  intros Hp Hs Hm.
  assert (Hd : dispatch req f = CallNext)
    by (unfold dispatch; now rewrite Hp).
  split; [exact Hd|]. split; [|split; [reflexivity|]].
  - unfold app. rewrite Hd.
    destruct Hs as [-> | ->]; destruct Hm as [-> | ->]; reflexivity.
  - eexists. split; [reflexivity|]. split; [reflexivity|].
    simpl. now rewrite KeyStoreLaws.list_keys_length.
Qed.

Lemma health_is_public_witness :
  dispatch Requests.health_newline Scenario.two_keys = CallNext /\
  app Scenario.cfg Scenario.env Requests.health_newline Scenario.two_keys
  = (Answered (health Scenario.cfg Scenario.two_keys), Scenario.two_keys) /\
  status_code (health Scenario.cfg Scenario.two_keys) = 200%Z /\
  exists fields,
    content (health Scenario.cfg Scenario.two_keys) = JObj fields /\
    Dict.get "auth_required" fields = Some (JBool true) /\
    Dict.get "active_keys" fields
    = Some (JNum (inject_Z (Z.of_nat
                              (List.length (_load_store Scenario.two_keys))))).
Proof.
  apply health_is_public.
  - reflexivity.
  - right. reflexivity.
  - left. reflexivity.
Defined.

(** * Further properties of the token manager and the client *)

Module AuthLaws.

Import auth.

(** What a call of [get_token] can do to the state: it logs itself, reads
    the clock at most once, posts to the token endpoint at most once and
    sends nothing to the appliance; a token it returns is the one it holds
    afterwards. *)
Lemma acquire_effects cfg (w : world) (s : state) :
  let out := _acquire_token cfg w s in
  posts (snd out) = S (posts s) /\
  sends (snd out) = sends s /\
  log (snd out) = (log s ++ [TokenPost (token_form cfg)])%list /\
  (forall t, fst out = Ok t -> _token (self (snd out)) = t).
Proof.
  unfold _acquire_token, bind, http_post, lift.
  destruct (token_endpoint w (posts s) (token_form cfg)) as [|resp];
    simpl; [repeat split; discriminate|].
  destruct (httpx.raise_for_status resp); simpl;
    [|repeat split; discriminate].
  destruct (httpx.json resp) as [data|]; simpl;
    [|repeat split; discriminate].
  destruct (Json.get_default "expires_in" (JNum 300) data) as [ex|];
    simpl; [|repeat split; discriminate].
  destruct (Json.subscript "access_token" data) as [tok|]; simpl;
    [|repeat split; discriminate].
  destruct (Json.as_number ex) as [e|]; simpl;
    [|repeat split; discriminate].
  destruct (overflows e); simpl; repeat split; try discriminate.
  now intros t [= ->].
Qed.

Lemma get_token_effects cfg (w : world) (s : state) :
  let out := get_token cfg w s in
  (posts (snd out) = posts s \/ posts (snd out) = S (posts s)) /\
  sends (snd out) = sends s /\
  (log (snd out) = (log s ++ [GetToken])%list \/
   log (snd out) = (log s ++ [GetToken; TokenPost (token_form cfg)])%list) /\
  (forall t, fst out = Ok t -> _token (self (snd out)) = t) /\
  (forall e, fst out = Raise e ->
     log (snd out) = (log s ++ [GetToken; TokenPost (token_form cfg)])%list).
Proof.
  unfold get_token, bind, emit, read_self, time. simpl.
  destruct (Json.truthy (_token (self s))).
  - destruct (Qltb _ _).
    + simpl. repeat split; auto; try discriminate. now intros t [= ->].
    + destruct (acquire_effects cfg w (ticked (logged GetToken s)))
        as [Hp [Hs [Hl Ht]]].
      rewrite Hp, Hs, Hl. simpl. rewrite <- app_assoc. simpl.
      repeat split; auto.
  - destruct (acquire_effects cfg w (logged GetToken s))
      as [Hp [Hs [Hl Ht]]].
    rewrite Hp, Hs, Hl. simpl. rewrite <- app_assoc. simpl.
    repeat split; auto.
Qed.

(** A double is below the integers [float + int] refuses. *)
Lemma binary64_fits (q : Q) : binary64 q = true -> overflows q = false.
Proof.
  unfold binary64, overflows. intros H.
  assert (Hq : (Qred q == q)%Q) by apply Qred_correct.
  assert (Hb : (- float_max <= Qnum (Qred q) <= float_max)%Z).
  { destruct (Qnum (Qred q)) as [|n|n]; cbn [Z.abs] in H.
    - unfold float_max. lia.
    - destruct (log2_exact (Qden (Qred q))); [|discriminate].
      apply andb_true_iff in H. destruct H as [H _].
      apply andb_true_iff in H. destruct H as [_ H].
      apply Z.leb_le in H. lia.
    - destruct (log2_exact (Qden (Qred q))); [|discriminate].
      apply andb_true_iff in H. destruct H as [H _].
      apply andb_true_iff in H. destruct H as [_ H].
      apply Z.leb_le in H. lia. }
  apply orb_false_iff. split.
  - destruct (Qle_bool (inject_Z float_limit) q) eqn:E; [|reflexivity].
    apply Qle_bool_iff in E. rewrite <- Hq in E.
    unfold Qle, inject_Z in E. cbn [Qnum Qden] in E.
    unfold float_limit, float_max in *.
    pose proof (Pos2Z.is_pos (Qden (Qred q))). nia.
  - destruct (Qle_bool q (inject_Z (- float_limit))) eqn:E; [|reflexivity].
    apply Qle_bool_iff in E. rewrite <- Hq in E.
    unfold Qle, inject_Z in E. cbn [Qnum Qden] in E.
    unfold float_limit, float_max in *.
    pose proof (Pos2Z.is_pos (Qden (Qred q))). nia.
Qed.

End AuthLaws.

(** X13.  Take a clock reading [T], a lifetime of [e] seconds and their
    sums [T + e] and [T + e - 30] that are all doubles, so that the sums the
    code takes in floating point are exact.  A token acquired with that
    lifetime, the clock reading [T] as it is stored, expires at
    [T + e - 30].  While it is the cached credential, a [get_token] answers
    without asking the endpoint exactly when the token counts as true and
    the clock reads less than [T + e - 30].  So a token that lives 30
    seconds or less is never served from the cache by a call whose clock
    reading is [T] or later: each such call asks the endpoint again. *)
Theorem token_lifetime
  (cfg : config.GDPConfig) (w0 : world) (s0 : state)
  (resp : httpx.Response) (fields : list (string * json)) (tok ex : json)
  (e : Q) :
  let T := clock w0 (ticks s0) in
  token_endpoint w0 (posts s0) (auth.token_form cfg) = httpx.Reply resp ->
  httpx.is_success resp = true ->
  httpx.decoded resp = Some (JObj fields) ->
  Dict.get "access_token" fields = Some tok ->
  Dict.get "expires_in" fields = Some ex ->
  Json.as_number ex = Some e ->
  binary64 T = true ->
  binary64 e = true ->
  binary64 (T + e) = true ->
  binary64 (T + e - 30) = true ->
  exists s1 : state,
    auth._acquire_token cfg w0 s0 = (Ok tok, s1) /\
    (_expires_at (self s1) == T + e - 30)%Q /\
    forall (w : world) (s : state),
      self s = self s1 ->
      let now := clock w (ticks s) in
      (posts (snd (auth.get_token cfg w s)) = posts s <->
       Json.truthy tok = true /\ (now < T + e - 30)%Q) /\
      ((e <= 30)%Q -> (T <= now)%Q ->
       posts (snd (auth.get_token cfg w s)) = S (posts s)).
Proof.
  intros T Hr Hok Hd Ht Hex He _ Hfits _ _.
  apply AuthLaws.binary64_fits in Hfits.
  eexists. split.
  { unfold auth._acquire_token, bind, http_post, lift. rewrite Hr.
    unfold httpx.raise_for_status, httpx.json. rewrite Hok, Hd.
    simpl. rewrite Hex, Ht. simpl. rewrite He, Hfits. reflexivity. }
  simpl. split; [reflexivity|].
  intros w s Hs. cbv zeta.
  assert (Hcases :
    posts (snd (auth.get_token cfg w s))
    = if Json.truthy tok
         && Qltb (clock w (ticks s)) (clock w0 (ticks s0) + e - 30)
      then posts s else S (posts s)).
  { unfold auth.get_token, bind, emit, read_self, time. simpl.
    rewrite Hs. simpl. destruct (Json.truthy tok); simpl.
    - change (ticks (logged GetToken s)) with (ticks s).
      destruct (Qltb _ _); [reflexivity|].
      apply (AuthLaws.acquire_effects cfg w (ticked (logged GetToken s))).
    - apply (AuthLaws.acquire_effects cfg w (logged GetToken s)). }
  fold T in Hcases. split.
  - rewrite Hcases. split.
    + destruct (Json.truthy tok); simpl; [|intros H; lia].
      destruct (Qltb _ _) eqn:E; [|intros H; lia].
      intros _. split; [reflexivity|]. now apply AuthFacts.Qltb_true.
    + intros [Htr Hlt]. rewrite Htr. simpl.
      apply AuthFacts.Qltb_true in Hlt. now rewrite Hlt.
  - intros Hshort Hlater. rewrite Hcases.
    assert (Hb : Qltb (clock w (ticks s)) (T + e - 30) = false).
    { apply AuthFacts.Qltb_false. lra. }
    rewrite Hb. now rewrite andb_false_r.
Qed.

Lemma token_lifetime_witness :
  let T := clock Sessions.short_lived (ticks Scenario.fresh) in
  exists s1 : state,
    auth._acquire_token Scenario.cfg Sessions.short_lived Scenario.fresh
    = (Ok (JStr "brief"), s1) /\
    (_expires_at (self s1) == T + 20 - 30)%Q /\
    posts (snd (auth.get_token Scenario.cfg Sessions.short_lived s1))
    = S (posts s1).
Proof.
  destruct (@token_lifetime Scenario.cfg Sessions.short_lived Scenario.fresh
              {| httpx.status_code := 200; httpx.content := "{...}";
                 httpx.decoded :=
                   Some (JObj [("access_token", JStr "brief");
                               ("expires_in", JNum 20)]) |}
              [("access_token", JStr "brief"); ("expires_in", JNum 20)]
              (JStr "brief") (JNum 20) 20%Q)
    as [s1 [Hacq [Hexp Hlater]]]; try reflexivity.
  exists s1. split; [exact Hacq|]. split; [exact Hexp|].
  apply (Hlater Sessions.short_lived s1 eq_refl).
  - vm_compute. discriminate.
  - injection Hacq as <-. vm_compute. discriminate.
Defined.

(** Which numbers are doubles: whole seconds and binary fractions of them,
    not a tenth; [2 ^ 53] and not the next integer; the largest double and
    nothing beyond it. *)
Example binary64_runs :
  binary64 1762180000 = true /\ binary64 (1 # 4) = true /\
  binary64 (301 # 10) = false /\
  binary64 (inject_Z (2 ^ 53)) = true /\
  binary64 (inject_Z (2 ^ 53 + 1)) = false /\
  binary64 (inject_Z (10 ^ 22)) = true /\
  binary64 (inject_Z (10 ^ 23)) = false /\
  binary64 (inject_Z float_max) = true /\
  binary64 (inject_Z (2 ^ 1024)) = false /\
  binary64 (1 # 2 ^ 1074) = true /\ binary64 (1 # 2 ^ 1075) = false.
Proof. vm_compute. repeat split. Qed.

(** An integer lifetime beyond the doubles: the token is stored, then the
    sum raises. *)
Example acquire_overflow_keeps_token :
  let w :=
    {| clock := fun _ => 1000%Q;
       token_endpoint := fun _ _ =>
         httpx.Reply
           {| httpx.status_code := 200; httpx.content := "{...}";
              httpx.decoded :=
                Some (JObj [("access_token", JStr "new");
                            ("expires_in", JNum (inject_Z (10 ^ 400)))]) |};
       appliance := fun _ _ => httpx.NoReply |} in
  fst (auth._acquire_token Scenario.cfg w Scenario.fresh)
  = Raise OverflowError /\
  self (snd (auth._acquire_token Scenario.cfg w Scenario.fresh))
  = {| _token := JStr "new"; _expires_at := 0 |}.
Proof. vm_compute. split; reflexivity. Qed.

(** X14.  A call of [get_token] sends nothing to the appliance and asks the
    token endpoint at most once; the token it returns is the token the
    manager holds afterwards; and when it does not ask the endpoint it
    returns the token it held and leaves token and expiry as they were. *)
Theorem get_token_contract
  (cfg : config.GDPConfig) (w : world) (s : state) :
  let out := auth.get_token cfg w s in
  sends (snd out) = sends s /\
  (posts (snd out) = posts s \/ posts (snd out) = S (posts s)) /\
  (forall t, fst out = Ok t -> _token (self (snd out)) = t) /\
  (posts (snd out) = posts s ->
   fst out = Ok (_token (self s)) /\ self (snd out) = self s).
Proof.
  cbv zeta.
  destruct (AuthLaws.get_token_effects cfg w s) as [Hp [Hs [_ [Ht _]]]].
  split; [exact Hs|]. split; [exact Hp|]. split; [exact Ht|].
  unfold auth.get_token, bind, emit, read_self, time. simpl.
  destruct (Json.truthy (_token (self s))).
  - destruct (Qltb _ _); [simpl; auto|].
    destruct (AuthLaws.acquire_effects cfg w (ticked (logged GetToken s)))
      as [Hp' _].
    rewrite Hp'. simpl. intros H. lia.
  - destruct (AuthLaws.acquire_effects cfg w (logged GetToken s))
      as [Hp' _].
    rewrite Hp'. simpl. intros H. lia.
Qed.

Lemma get_token_contract_witness :
  fst (auth.get_token Scenario.cfg Scenario.expiring_session Sessions.holding)
  = Ok (_token (self Sessions.holding)) /\
  self (snd (auth.get_token Scenario.cfg Scenario.expiring_session
               Sessions.holding))
  = self Sessions.holding.
Proof.
  apply (get_token_contract Scenario.cfg Scenario.expiring_session
           Sessions.holding).
  reflexivity.
Defined.

(** X15.  After [invalidate], which itself asks nobody and reads no clock,
    a token returned by the next [get_token] is the access token of the
    answer the token endpoint gives to that very call: the token held before
    is never returned again on the strength of the cache. *)
Theorem no_stale_token_after_invalidate
  (cfg : config.GDPConfig) (w : world) (s : state) (t : json) :
  let s0 := snd (auth.invalidate w s) in
  fst (auth.get_token cfg w s0) = Ok t ->
  posts s0 = posts s /\ sends s0 = sends s /\ ticks s0 = ticks s /\
  exists (resp : httpx.Response) (fields : list (string * json)),
    token_endpoint w (posts s) (auth.token_form cfg) = httpx.Reply resp /\
    httpx.is_success resp = true /\
    httpx.decoded resp = Some (JObj fields) /\
    Dict.get "access_token" fields = Some t.
Proof.
  cbv zeta. rewrite ClientFacts.invalidate_clears. cbn [snd].
  rewrite ClientFacts.get_token_after_invalidate.
  intros H. split; [reflexivity|]. split; [reflexivity|].
  split; [reflexivity|].
  revert H. unfold auth._acquire_token, bind, http_post, lift.
  change (posts (logged GetToken (client.cleared s))) with (posts s).
  destruct (token_endpoint w (posts s) (auth.token_form cfg)) as [|resp];
    [discriminate|].
  unfold httpx.raise_for_status, httpx.json.
  destruct (httpx.is_success resp) eqn:Hok; [|discriminate].
  destruct (httpx.decoded resp) as [data|] eqn:Hd; [|discriminate].
  destruct data as [ | b | q | str | items | fields]; try discriminate.
  simpl.
  destruct (Dict.get "access_token" fields) as [tok|] eqn:Ht.
  - destruct (Dict.get "expires_in" fields) as [ex|]; simpl.
    + destruct (Json.as_number ex) as [e|]; simpl; [|discriminate].
      destruct (overflows e); simpl; [discriminate|].
      intros [= <-]. exists resp, fields. auto.
    + intros [= <-]. exists resp, fields. auto.
  - destruct (Dict.get "expires_in" fields); discriminate.
Qed.

Lemma no_stale_token_after_invalidate_witness :
  let s0 :=
    snd (auth.invalidate Scenario.expiring_session Sessions.holding) in
  posts s0 = posts Sessions.holding /\ sends s0 = sends Sessions.holding /\
  ticks s0 = ticks Sessions.holding /\
  exists (resp : httpx.Response) (fields : list (string * json)),
    token_endpoint Scenario.expiring_session (posts Sessions.holding)
      (auth.token_form Scenario.cfg) = httpx.Reply resp /\
    httpx.is_success resp = true /\
    httpx.decoded resp = Some (JObj fields) /\
    Dict.get "access_token" fields = Some (JStr "token-1").
Proof.
  apply (@no_stale_token_after_invalidate Scenario.cfg
           Scenario.expiring_session Sessions.holding (JStr "token-1")).
  reflexivity.
Defined.

Module ClientLaws.

Import auth client.

Lemma http_request_effects (a : api_request) (w : world) (s : state) :
  snd (http_request a w s) = sent a s.
Proof. unfold http_request. destruct (appliance w (sends s) a); reflexivity. Qed.

Lemma request_shape cfg method resource (params : option json)
  (w : world) (s : state) :
  ClientRuns.run_shape cfg method resource params w s
    (snd (request cfg method resource params w s)).
Proof.
  unfold request, bind.
  destruct (get_token cfg w s) as [[t1|e] s1] eqn:Hg;
    [|eapply ClientRuns.NoToken; eauto].
  unfold http_request at 1.
  destruct (appliance w (sends s1) (attempt cfg method resource params t1))
    as [|r1]; [eapply ClientRuns.OneAttempt; eauto|].
  destruct (httpx.status_code r1 =? 401)%Z.
  - rewrite ClientFacts.invalidate_clears.
    destruct (get_token cfg w
                (cleared (sent (attempt cfg method resource params t1) s1)))
      as [[t2|e] s3] eqn:Hg2.
    + unfold http_request.
      destruct (appliance w (sends s3)
                  (attempt cfg method resource params t2)) as [|r2];
        [|unfold lift; destruct (conclude r2)];
        eapply ClientRuns.TwoAttempts; eauto.
    + eapply ClientRuns.NoSecondToken; eauto.
  - unfold ret, lift.
    destruct (conclude r1); eapply ClientRuns.OneAttempt; eauto.
Qed.

Lemma text_eqb_eq (a b : list N) : text_eqb a b = true <-> a = b.
Proof.
  revert b. induction a as [|x a IH]; intros [|y b]; cbn [text_eqb];
    try (split; [discriminate | intros H; discriminate H]);
    [split; reflexivity|].
  rewrite Bool.andb_true_iff, N.eqb_eq, IH. split.
  - intros [-> ->]. reflexivity.
  - intros [= -> ->]. auto.
Qed.

(** Upper case does not see the letter case of its argument. *)
Lemma upper_char_lower (c : ascii) :
  upper_char (PyVal.lower_char c) = upper_char c.
Proof. destruct c as [[] [] [] [] [] [] [] []]; reflexivity. Qed.

Lemma upper_lower (s : string) : upper (PyVal.lower s) = upper s.
Proof.
  induction s as [|c r IH]; cbn [PyVal.lower upper]; [reflexivity|].
  now rewrite upper_char_lower, IH.
Qed.

(** The upper case of a character is one code point, or [SS]. *)
Lemma upper_char_shape (c : ascii) :
  (exists n, upper_char c = [n]) \/ upper_char c = [83; 83]%N.
Proof.
  destruct c as [[] [] [] [] [] [] [] []];
    first [right; reflexivity | left; eexists; reflexivity].
Qed.

Lemma upper_nil (s : string) : upper s = [] -> s = "".
Proof.
  destruct s as [|c r]; [reflexivity|]. cbn [upper].
  destruct (upper_char_shape c) as [[n ->] | ->]; discriminate.
Qed.

(** Only the two cases of a letter have its capital as upper case. *)
Lemma upper_char_G (c : ascii) :
  upper_char c = [71]%N -> PyVal.lower_char c = "g"%char.
Proof.
  destruct c as [[] [] [] [] [] [] [] []]; vm_compute; intros H;
    first [reflexivity | discriminate H].
Qed.

Lemma upper_char_E (c : ascii) :
  upper_char c = [69]%N -> PyVal.lower_char c = "e"%char.
Proof.
  destruct c as [[] [] [] [] [] [] [] []]; vm_compute; intros H;
    first [reflexivity | discriminate H].
Qed.

Lemma upper_char_T (c : ascii) :
  upper_char c = [84]%N -> PyVal.lower_char c = "t"%char.
Proof.
  destruct c as [[] [] [] [] [] [] [] []]; vm_compute; intros H;
    first [reflexivity | discriminate H].
Qed.

(** The methods whose upper case is [GET] are the spellings of [get]. *)
Lemma upper_is_GET (m : string) :
  upper m = points "GET" <-> PyVal.lower m = "get".
Proof.
  split.
  - change (points "GET") with [71; 69; 84]%N.
    destruct m as [|c1 m]; [discriminate|]. cbn [upper].
    destruct (upper_char_shape c1) as [[n1 H1] | H1]; rewrite H1;
      [|discriminate].
    intros [= -> H]. apply upper_char_G in H1.
    destruct m as [|c2 m]; [discriminate|]. cbn [upper] in H.
    destruct (upper_char_shape c2) as [[n2 H2] | H2]; rewrite H2 in H;
      [|discriminate].
    injection H as -> H. apply upper_char_E in H2.
    destruct m as [|c3 m]; [discriminate|]. cbn [upper] in H.
    destruct (upper_char_shape c3) as [[n3 H3] | H3]; rewrite H3 in H;
      [|discriminate].
    injection H as -> H. apply upper_char_T in H3.
    apply upper_nil in H. subst m.
    cbn [PyVal.lower]. now rewrite H1, H2, H3.
  - intros H. rewrite <- upper_lower, H. reflexivity.
Qed.

End ClientLaws.

(** X16.  One call of [request] makes at most two requests to the
    appliance and at most two to the token endpoint, in every environment,
    and only adds to the log of calls. *)
Theorem request_is_bounded
  (cfg : config.GDPConfig) (method resource : string) (params : option json)
  (w : world) (s : state) :
  let s' := snd (client.request cfg method resource params w s) in
  (sends s <= sends s' <= sends s + 2)%nat /\
  (posts s <= posts s' <= posts s + 2)%nat /\
  exists l, log s' = (log s ++ l)%list.
Proof.
  cbv zeta.
  destruct (ClientLaws.request_shape cfg method resource params w s)
    as [e s1 Hg | t1 s1 Hg | t1 s1 e s3 Hg Hg2 | t1 s1 t2 s3 Hg Hg2].
  - pose proof (AuthLaws.get_token_effects cfg w s) as H.
    rewrite Hg in H. cbn [fst snd] in H.
    destruct H as [Hp [Hs [Hl _]]]. rewrite Hs.
    split; [lia|]. split; [lia|]. destruct Hl as [Hl | Hl]; eauto.
  - pose proof (AuthLaws.get_token_effects cfg w s) as H.
    rewrite Hg in H. cbn [fst snd] in H.
    destruct H as [Hp [Hs [Hl _]]]. cbn [sent sends posts log]. rewrite Hs.
    split; [lia|]. split; [lia|].
    destruct Hl as [Hl | Hl]; rewrite Hl, <- app_assoc; eauto.
  - pose proof (AuthLaws.get_token_effects cfg w s) as H.
    rewrite Hg in H. cbn [fst snd] in H.
    destruct H as [Hp [Hs [Hl _]]].
    pose proof (AuthLaws.get_token_effects cfg w
                  (client.cleared
                     (sent (client.attempt cfg method resource params t1) s1)))
      as H2.
    rewrite Hg2 in H2. cbn [fst snd] in H2.
    destruct H2 as [Hp2 [Hs2 [Hl2 _]]].
    cbn [client.cleared with_self logged sent sends posts log] in Hp2, Hs2, Hl2.
    rewrite Hs2, Hs. split; [lia|]. split; [lia|].
    destruct Hl as [Hl | Hl]; destruct Hl2 as [Hl2 | Hl2];
      rewrite Hl2, Hl, <- !app_assoc; eauto.
  - pose proof (AuthLaws.get_token_effects cfg w s) as H.
    rewrite Hg in H. cbn [fst snd] in H.
    destruct H as [Hp [Hs [Hl _]]].
    pose proof (AuthLaws.get_token_effects cfg w
                  (client.cleared
                     (sent (client.attempt cfg method resource params t1) s1)))
      as H2.
    rewrite Hg2 in H2. cbn [fst snd] in H2.
    destruct H2 as [Hp2 [Hs2 [Hl2 _]]].
    cbn [client.cleared with_self logged sent sends posts log] in Hp2, Hs2, Hl2.
    cbn [sent sends posts log].
    rewrite Hs2, Hs. split; [lia|]. split; [lia|].
    destruct Hl as [Hl | Hl]; destruct Hl2 as [Hl2 | Hl2];
      rewrite Hl2, Hl, <- !app_assoc; eauto.
Qed.

(** X17.  Whenever the last call of a run of [request] is an attempt, the
    bearer token of that attempt is the token the manager holds when the run
    ends: the client never sends with one token and caches another. *)
Theorem last_attempt_uses_cached_token
  (cfg : config.GDPConfig) (method resource : string) (params : option json)
  (w : world) (s : state) (l : list event) (a : api_request) :
  let s' := snd (client.request cfg method resource params w s) in
  log s' = (l ++ [Send a])%list ->
  api_bearer a = _token (self s').
Proof.
  cbv zeta.
  destruct (ClientLaws.request_shape cfg method resource params w s)
    as [e s1 Hg | t1 s1 Hg | t1 s1 e s3 Hg Hg2 | t1 s1 t2 s3 Hg Hg2].
  - pose proof (AuthLaws.get_token_effects cfg w s) as H.
    rewrite Hg in H. cbn [fst snd] in H.
    destruct H as [_ [_ [_ [_ Hl]]]]. rewrite (Hl e eq_refl).
    change (log s ++ [GetToken; TokenPost (auth.token_form cfg)])%list
      with (log s ++ [GetToken] ++ [TokenPost (auth.token_form cfg)])%list.
    rewrite app_assoc. intros Heq. apply app_inj_tail in Heq.
    destruct Heq as [_ Heq]. discriminate Heq.
  - pose proof (AuthLaws.get_token_effects cfg w s) as H.
    rewrite Hg in H. cbn [fst snd] in H.
    destruct H as [_ [_ [_ [Ht _]]]].
    cbn [sent log self]. intros Heq. apply app_inj_tail in Heq.
    destruct Heq as [_ [= <-]]. cbn [client.attempt api_bearer].
    symmetry. now apply Ht.
  - pose proof (AuthLaws.get_token_effects cfg w
                  (client.cleared
                     (sent (client.attempt cfg method resource params t1) s1)))
      as H2.
    rewrite Hg2 in H2. cbn [fst snd] in H2.
    destruct H2 as [_ [_ [_ [_ Hl]]]]. rewrite (Hl e eq_refl).
    match goal with
    | |- (?x ++ [GetToken; ?p])%list = _ -> _ =>
        change (x ++ [GetToken; p])%list with (x ++ [GetToken] ++ [p])%list
    end.
    rewrite app_assoc. intros Heq. apply app_inj_tail in Heq.
    destruct Heq as [_ Heq]. discriminate Heq.
  - pose proof (AuthLaws.get_token_effects cfg w
                  (client.cleared
                     (sent (client.attempt cfg method resource params t1) s1)))
      as H2.
    rewrite Hg2 in H2. cbn [fst snd] in H2.
    destruct H2 as [_ [_ [_ [Ht _]]]].
    cbn [sent log self]. intros Heq. apply app_inj_tail in Heq.
    destruct Heq as [_ [= <-]]. cbn [client.attempt api_bearer].
    symmetry. now apply Ht.
Qed.

Lemma last_attempt_uses_cached_token_witness :
  let run :=
    client.request Scenario.cfg "get" "datasource" None
      Scenario.expiring_session Scenario.fresh in
  api_bearer
    (client.attempt Scenario.cfg "get" "datasource" None (JStr "token-1"))
  = _token (self (snd run)).
Proof.
  apply (@last_attempt_uses_cached_token Scenario.cfg "get" "datasource"
           None Scenario.expiring_session Scenario.fresh
           [GetToken; TokenPost (auth.token_form Scenario.cfg);
            Send (client.attempt Scenario.cfg "get" "datasource" None
                    (JStr "token-0"));
            Invalidate; GetToken; TokenPost (auth.token_form Scenario.cfg)]).
  vm_compute. reflexivity.
Defined.

Lemma take_is_prefix (n : nat) (s : string) :
  String.prefix (PyStr.take n s) s = true.
Proof.
  unfold PyStr.take. revert s.
  induction n as [|n IH]; intros [|c r]; try reflexivity.
  change (substring 0 (S n) (String c r)) with (String c (substring 0 n r)).
  rewrite PyStrFacts.prefix_cons.
  destruct (ascii_dec c c); [apply IH | congruence].
Qed.

(** X18.  What [request] makes of the answer it ends with: an answer
    outside 2xx raises [HTTPStatusError] with its status, and an answer in
    2xx always gives a result.  A 204 or an empty body gives the status
    object; a body that decodes gives the decoded value; a body that does
    not decode gives the status object with the body cut to its first 2000
    characters. *)
Theorem conclude_classifies (resp : httpx.Response) :
  let status_object :=
    [("status", JStr "success");
     ("http_code", JNum (inject_Z (httpx.status_code resp)))] in
  (httpx.is_success resp = false ->
   client.conclude resp = Raise (HTTPStatusError (httpx.status_code resp))) /\
  (httpx.is_success resp = true ->
   exists j : json,
     client.conclude resp = Ok j /\
     (httpx.status_code resp = 204%Z \/ httpx.content resp = "" ->
      j = JObj status_object) /\
     (httpx.status_code resp <> 204%Z -> httpx.content resp <> "" ->
      (forall d, httpx.decoded resp = Some d -> j = d) /\
      (httpx.decoded resp = None ->
       exists body : string,
         j = JObj (status_object ++ [("body", JStr body)])%list /\
         (String.length body <= 2000)%nat /\
         String.prefix body (httpx.content resp) = true))).
Proof.
  cbv zeta. unfold client.conclude, httpx.raise_for_status. split.
  - intros ->. reflexivity.
  - intros ->.
    destruct (httpx.status_code resp =? 204)%Z eqn:E204.
    + apply Z.eqb_eq in E204. eexists. split; [reflexivity|].
      split; [reflexivity|]. intros H. contradiction.
    + apply Z.eqb_neq in E204. simpl orb.
      destruct (httpx.content resp) as [|c r] eqn:Hc.
      * eexists. split; [reflexivity|]. split; [reflexivity|].
        intros _ H. contradiction.
      * simpl negb. cbv iota.
        destruct (httpx.decoded resp) as [d|] eqn:Hd.
        -- exists d. split; [reflexivity|]. split.
           ++ intros [H|H]; [contradiction | discriminate].
           ++ intros _ _. split; [now intros d' [= <-] | discriminate].
        -- eexists. split; [reflexivity|]. split.
           ++ intros [H|H]; [contradiction | discriminate].
           ++ intros _ _. split; [discriminate|]. intros _.
              eexists. split; [reflexivity|]. split.
              ** rewrite KeyStoreLaws.take_length. apply Nat.le_min_l.
              ** apply take_is_prefix.
Qed.

Lemma conclude_classifies_witness :
  let resp :=
    {| httpx.status_code := 200; httpx.content := "<html>oops</html>";
       httpx.decoded := None |} in
  exists j : json,
    client.conclude resp = Ok j /\
    exists body : string,
      j = JObj [("status", JStr "success");
                ("http_code", JNum (inject_Z 200)); ("body", JStr body)] /\
      (String.length body <= 2000)%nat /\
      String.prefix body "<html>oops</html>" = true.
Proof.
  intros resp.
  destruct (proj2 (conclude_classifies resp) eq_refl) as [j [Hj [_ Hbody]]].
  exists j. split; [exact Hj|].
  apply Hbody.
  - vm_compute. discriminate.
  - discriminate.
  - reflexivity.
Defined.

(** X19.  The parameters travel exactly once, and where depends on the
    letters of the method alone: in the query string and not in the body
    exactly for the spellings of [get], in whatever letter case; in the JSON
    body and not in the query string for every other method.  The method
    sent is the upper case of the one given, so two methods that differ in
    letter case only build the same request. *)
Theorem parameters_travel_once
  (cfg : config.GDPConfig) (method resource : string) (params : option json)
  (token : json) :
  let a := client.attempt cfg method resource params token in
  api_method a = client.upper method /\
  (PyVal.lower method = "get" ->
   api_method a = client.points "GET" /\
   api_params a = params /\ api_json a = None) /\
  (PyVal.lower method <> "get" ->
   api_method a <> client.points "GET" /\
   api_params a = None /\ api_json a = params) /\
  (forall method',
     PyVal.lower method' = PyVal.lower method ->
     client.attempt cfg method' resource params token = a).
Proof.
  cbv zeta. unfold client.attempt. cbn [api_method api_params api_json].
  split; [reflexivity|]. split; [|split].
  - intros H. apply ClientLaws.upper_is_GET in H. rewrite H.
    repeat split.
  - intros H.
    destruct (client.text_eqb (client.upper method) (client.points "GET"))
      eqn:E.
    + apply ClientLaws.text_eqb_eq in E.
      apply ClientLaws.upper_is_GET in E. contradiction.
    + repeat split. intros E'. apply ClientLaws.text_eqb_eq in E'.
      congruence.
  - intros method' H.
    now rewrite <- (ClientLaws.upper_lower method'), H,
      ClientLaws.upper_lower.
Qed.

Lemma parameters_travel_once_witness :
  let q := Some (JObj [("withParameters", JStr "1")]) in
  (api_method (client.attempt Scenario.cfg "gEt" "restapi" q JNull)
   = client.points "GET" /\
   api_params (client.attempt Scenario.cfg "gEt" "restapi" q JNull) = q /\
   api_json (client.attempt Scenario.cfg "gEt" "restapi" q JNull) = None) /\
  (api_method (client.attempt Scenario.cfg "Post" "datasource" q JNull)
   <> client.points "GET" /\
   api_params (client.attempt Scenario.cfg "Post" "datasource" q JNull) = None
   /\ api_json (client.attempt Scenario.cfg "Post" "datasource" q JNull) = q).
Proof.
  intros q. split.
  - apply (parameters_travel_once Scenario.cfg "gEt" "restapi" q JNull).
    reflexivity.
  - apply (parameters_travel_once Scenario.cfg "Post" "datasource" q JNull).
    vm_compute. discriminate.
Defined.

(** The upper case of a method with letters beyond ASCII: the sharp s
    becomes [SS], the accented letters their capitals. *)
Example upper_runs :
  client.upper ("stra" ++ String "223" "e") = client.points "STRASSE" /\
  client.upper (String "233" "") = [201%N] /\
  client.upper (String "255" "") = [376%N] /\
  client.upper "get" = client.points "GET".
Proof. vm_compute. repeat split. Qed.

(** * Properties of the endpoint catalogue *)

Module SortLaws.

Import PyVal.

Section Insertion.

Variable A : Type.
Variable lt : A -> A -> bool.

Lemma insert_by_perm (x : A) (l : list A) :
  Permutation (insert_by lt x l) (x :: l).
Proof.
  induction l as [|y r IH]; simpl; auto.
  destruct (lt x y); auto.
  rewrite IH. apply perm_swap.
Qed.

Lemma sort_by_perm (l : list A) : Permutation (sort_by lt l) l.
Proof.
  unfold sort_by.
  assert (H : forall acc,
    Permutation (fold_left (fun acc x => insert_by lt x acc) l acc)
                (acc ++ l)).
  { induction l as [|x r IH]; intros acc; simpl.
    - now rewrite app_nil_r.
    - rewrite IH, insert_by_perm. apply Permutation_middle. }
  apply (H []).
Qed.

(** With a comparison that never holds both ways, insertion keeps a list
    in order. *)
Hypothesis lt_asym : forall x y, lt x y = true -> lt y x = false.

Lemma insert_by_sorted (x : A) (l : list A) :
  Sorted (fun a b => lt b a = false) l ->
  Sorted (fun a b => lt b a = false) (insert_by lt x l).
Proof.
  induction l as [|y r IH]; simpl; intros Hs.
  - repeat constructor.
  - destruct (lt x y) eqn:E.
    + constructor; auto.
    + inversion Hs as [|? ? Hr Hh]; subst. constructor; auto.
      destruct r as [|z r']; simpl.
      * constructor. exact E.
      * destruct (lt x z); constructor; auto.
        inversion Hh; auto.
Qed.

Lemma sort_by_sorted (l : list A) :
  Sorted (fun a b => lt b a = false) (sort_by lt l).
Proof.
  unfold sort_by.
  assert (H : forall acc, Sorted (fun a b => lt b a = false) acc ->
    Sorted (fun a b => lt b a = false)
      (fold_left (fun acc x => insert_by lt x acc) l acc)).
  { induction l as [|x r IH]; intros acc Hacc; simpl; auto.
    apply IH. now apply insert_by_sorted. }
  apply H. constructor.
Qed.

End Insertion.

Lemma firstn_sorted {A} (R : A -> A -> Prop) (n : nat) (l : list A) :
  Sorted R l -> Sorted R (firstn n l).
Proof.
  revert l. induction n as [|n IH]; intros [|x r] Hs; simpl;
    try constructor.
  - inversion Hs; subst. auto.
  - inversion Hs as [|? ? Hr Hh]; subst.
    destruct n; destruct r as [|y r']; simpl; constructor.
    inversion Hh; auto.
Qed.

Lemma slice_to_sorted {A} (R : A -> A -> Prop) (limit : Z) (l : list A) :
  Sorted R l -> Sorted R (slice_to limit l).
Proof.
  intros Hs. unfold slice_to. destruct (limit <? 0)%Z;
    now apply firstn_sorted.
Qed.

Lemma firstn_in {A} (n : nat) (l : list A) (x : A) :
  In x (firstn n l) -> In x l.
Proof.
  intros H. rewrite <- (firstn_skipn n l). apply in_or_app. now left.
Qed.

Lemma slice_to_in {A} (limit : Z) (l : list A) (x : A) :
  In x (slice_to limit l) -> In x l.
Proof.
  unfold slice_to. destruct (limit <? 0)%Z; apply firstn_in.
Qed.

Lemma ltb_asym (s t : string) : String.ltb s t = true -> String.ltb t s = false.
Proof.
  unfold String.ltb. rewrite (String.compare_antisym t s).
  destruct (String.compare s t); simpl; congruence.
Qed.

Lemma ltb_leb (s t : string) : String.ltb t s = false <-> String.leb s t = true.
Proof.
  unfold String.ltb, String.leb. rewrite (String.compare_antisym t s).
  destruct (String.compare s t); simpl; split; congruence.
Qed.

End SortLaws.

Module CatalogLaws.

Import discovery.

Lemma select_in (keep : GDPEndpoint -> result bool)
  (l kept : list GDPEndpoint) :
  select keep l = Ok kept ->
  forall ep, In ep kept <-> In ep l /\ keep ep = Ok true.
Proof.
  revert kept. induction l as [|x r IH]; simpl; intros kept H ep.
  - injection H as <-. simpl. tauto.
  - unfold rbind in H. destruct (keep x) as [b|e] eqn:Hk; [|discriminate].
    destruct (select keep r) as [rs|e]; [|discriminate].
    injection H as <-. specialize (IH rs eq_refl ep).
    destruct b; simpl; rewrite IH; split.
    + intros [<-|[Hin Hep]]; auto.
    + intros [[<-|Hin] Hep]; auto.
    + intros [Hin Hep]; auto.
    + intros [[<-|Hin] Hep]; [congruence | auto].
Qed.

(** The kept endpoints are in the order of the index. *)
Lemma select_length (keep : GDPEndpoint -> result bool)
  (l kept : list GDPEndpoint) :
  select keep l = Ok kept -> (List.length kept <= List.length l)%nat.
Proof.
  revert kept. induction l as [|x r IH]; simpl; intros kept H.
  - injection H as <-. auto.
  - unfold rbind in H. destruct (keep x) as [b|e]; [|discriminate].
    destruct (select keep r) as [rs|e]; [|discriminate].
    injection H as <-. specialize (IH rs eq_refl).
    destruct b; simpl; lia.
Qed.

(** An endpoint the search keeps has a string for a name. *)
Lemma keeps_has_name q c v (ep : GDPEndpoint) :
  keeps q c v ep = Ok true -> PyVal.is_str (function_name ep) = true.
Proof.
  unfold keeps, rbind.
  destruct (match truthy_opt c with Some _ => _ | None => _ end)
    as [[|]|]; simpl; try discriminate.
  destruct (match truthy_opt v with Some _ => _ | None => _ end)
    as [[|]|]; simpl; try discriminate.
  unfold matches_query, rbind.
  destruct (function_name ep); simpl; try discriminate. reflexivity.
Qed.

Lemma sorted_weaken {A} (R R' : A -> A -> Prop) (P : A -> Prop)
  (l : list A) :
  (forall a b, P a -> P b -> R a b -> R' a b) ->
  Forall P l -> Sorted R l -> Sorted R' l.
Proof.
  intros Himp. induction l as [|x r IH]; intros Hall Hs; constructor.
  - inversion Hall; inversion Hs; subst. auto.
  - inversion Hall as [|? ? Hx Hr]; inversion Hs as [|? ? _ Hh]; subst.
    destruct r as [|y r']; constructor.
    inversion Hh; inversion Hr; subst. auto.
Qed.

End CatalogLaws.

Import discovery.

(** X20.  What [search] returns, when it returns: endpoints of the index
    that pass the category filter, the verb filter and the query (each
    compared without regard to case, an empty filter not filtering), in the
    order of their names, at most [limit] of them for a [limit] that is not
    negative, and all of them when there are no more than [limit]. *)
Theorem search_results
  (query : string) (category verb : option string) (limit : Z)
  (d : GDPDiscovery) (rs : list GDPEndpoint) :
  search query category verb limit d = Ok rs ->
  let keep := keeps (PyVal.lower query) category verb in
  (forall ep, In ep rs ->
     In ep (JDict.values (endpoints d)) /\ keep ep = Ok true) /\
  Sorted Catalog.name_le rs /\
  ((0 <= limit)%Z -> (Z.of_nat (List.length rs) <= limit)%Z) /\
  (forall kept,
     select keep (JDict.values (endpoints d)) = Ok kept ->
     (Z.of_nat (List.length kept) <= limit)%Z ->
     Permutation rs kept).
Proof.
  intros H. cbv zeta. unfold search, rbind in H.
  set (keep := keeps (PyVal.lower query) category verb) in *.
  destruct (select keep (JDict.values (endpoints d))) as [kept|e] eqn:Hsel;
    [|discriminate].
  pose proof (CatalogLaws.select_in _ _ Hsel) as Hin.
  assert (Hstr : forallb (fun x => PyVal.is_str (function_name x)) kept
                 = true).
  { apply forallb_forall. intros ep Hep. apply Hin in Hep.
    eapply CatalogLaws.keeps_has_name. apply Hep. }
  unfold PyVal.sorted_by in H. rewrite Hstr in H.
  injection H as <-.
  set (lt := fun x y : GDPEndpoint =>
               PyVal.str_lt (function_name x) (function_name y)).
  pose proof (SortLaws.sort_by_perm lt kept) as Hperm.
  split; [|split; [|split]].
  - intros ep Hep. apply SortLaws.slice_to_in in Hep.
    apply Hin. eapply Permutation_in; [exact Hperm | exact Hep].
  - apply SortLaws.slice_to_sorted.
    apply CatalogLaws.sorted_weaken
      with (R := fun a b => lt b a = false)
           (P := fun ep => PyVal.is_str (function_name ep) = true).
    + intros a b Ha Hb. unfold lt, Catalog.name_le, Catalog.name_of.
      destruct (function_name a); try discriminate.
      destruct (function_name b); try discriminate.
      simpl. intros Hlt. now apply SortLaws.ltb_leb.
    + apply Forall_forall. intros ep Hep.
      apply (Permutation_in _ Hperm) in Hep.
      rewrite forallb_forall in Hstr. auto.
    + apply SortLaws.sort_by_sorted.
      intros x y. unfold lt.
      destruct (function_name x), (function_name y); simpl; auto.
      apply SortLaws.ltb_asym.
  - intros Hl. unfold PyVal.slice_to.
    destruct (limit <? 0)%Z eqn:E; [apply Z.ltb_lt in E; lia|].
    rewrite length_firstn. lia.
  - intros kept' [= <-] Hle. unfold PyVal.slice_to.
    destruct (limit <? 0)%Z eqn:E; [apply Z.ltb_lt in E; lia|].
    rewrite firstn_all2; [exact Hperm|].
    rewrite (Permutation_length Hperm). lia.
Qed.

Lemma search_results_witness :
  let rs :=
    [Catalogs.endpoint_of Catalogs.create_datasource;
     Catalogs.endpoint_of Catalogs.list_datasource] in
  search "DATA" None (Some "") 25 Catalogs.indexed = Ok rs /\
  Sorted Catalog.name_le rs /\
  (Z.of_nat (List.length rs) <= 25)%Z /\
  Permutation rs
    [Catalogs.endpoint_of Catalogs.list_datasource;
     Catalogs.endpoint_of Catalogs.create_datasource].
Proof.
  intros rs.
  assert (H : search "DATA" None (Some "") 25 Catalogs.indexed = Ok rs)
    by (vm_compute; reflexivity).
  destruct (search_results "DATA" None (Some "") 25 Catalogs.indexed H)
    as [_ [Hsorted [Hlimit Hall]]].
  split; [exact H|]. split; [exact Hsorted|]. split.
  - apply Hlimit. lia.
  - apply Hall.
    + vm_compute. reflexivity.
    + vm_compute. discriminate.
Defined.

(** The verb filter and the category filter at work, and a limit that cuts
    the sorted list. *)
Example search_runs :
  let names r :=
    match r with
    | Ok eps => Ok (map Catalog.name_of eps)
    | Raise e => Raise e
    end in
  names (search "" None None 25 Catalogs.indexed)
  = Ok ["create_datasource"; "list_datasource"; "list_group"] /\
  names (search "" None None 2 Catalogs.indexed)
  = Ok ["create_datasource"; "list_datasource"] /\
  names (search "" None None (-1) Catalogs.indexed)
  = Ok ["create_datasource"; "list_datasource"] /\
  names (search "list" None (Some "get") 25 Catalogs.indexed)
  = Ok ["list_datasource"; "list_group"] /\
  names (search "" (Some "group builder") None 25 Catalogs.indexed)
  = Ok ["list_group"] /\
  names (search "absent" None None 25 Catalogs.indexed) = Ok [].
Proof. vm_compute. repeat split. Qed.

(** ** The index of the catalogue *)

Module IndexLaws.

Lemma Qeq_bool_euclid (x y z : Q) :
  Qeq_bool x y = true -> Qeq_bool x z = true -> Qeq_bool y z = true.
Proof.
  rewrite !Qeq_bool_iff. intros Hxy Hxz. now rewrite <- Hxy, <- Hxz.
Qed.

Lemma eqb_euclid (s t u : string) :
  String.eqb s t = true -> String.eqb s u = true -> String.eqb t u = true.
Proof.
  rewrite !String.eqb_eq. congruence.
Qed.

(** Two keys equal to a third are equal to each other. *)
Lemma key_eqb_euclid (a b c : json) :
  PyVal.key_eqb a b = true -> PyVal.key_eqb a c = true ->
  PyVal.key_eqb b c = true.
Proof.
  destruct a, b, c; cbn [PyVal.key_eqb Json.as_number];
    try discriminate; try (intros; reflexivity);
    try apply Qeq_bool_euclid; try apply eqb_euclid.
Qed.

Lemma key_eqb_refl (k : json) :
  PyVal.hashable k = true -> PyVal.key_eqb k k = true.
Proof.
  destruct k; cbn [PyVal.key_eqb Json.as_number PyVal.hashable];
    try discriminate; intros _;
    try reflexivity; try apply Qeq_bool_refl; try apply String.eqb_refl.
Qed.

Section Put.

Variable V : Type.

Lemma get_put_same (k : json) (v : V) (d : JDict.t V) :
  PyVal.key_eqb k k = true -> JDict.get k (JDict.put k v d) = Some v.
Proof.
  intros Hk. induction d as [|[k' v'] r IH]; cbn [JDict.put JDict.get].
  - now rewrite Hk.
  - destruct (PyVal.key_eqb k' k) eqn:E; cbn [JDict.get]; rewrite E; auto.
Qed.

Lemma get_put_other (k k2 : json) (v : V) (d : JDict.t V) :
  PyVal.key_eqb k2 k = false ->
  JDict.get k (JDict.put k2 v d) = JDict.get k d.
Proof.
  intros Hk. induction d as [|[k' v'] r IH]; cbn [JDict.put JDict.get].
  - now rewrite Hk.
  - destruct (PyVal.key_eqb k' k2) eqn:E2; cbn [JDict.get].
    + destruct (PyVal.key_eqb k' k) eqn:E; [|reflexivity].
      now rewrite (key_eqb_euclid _ _ _ E2 E) in Hk.
    + now rewrite IH.
Qed.

Lemma put_length (k : json) (v : V) (d : JDict.t V) :
  (List.length d <= List.length (JDict.put k v d) <= S (List.length d))%nat.
Proof.
  induction d as [|[k' v'] r IH]; cbn [JDict.put List.length]; [lia|].
  destruct (PyVal.key_eqb k' k); cbn [List.length]; lia.
Qed.

End Put.

(** Appending a name under a category files one name more. *)
Lemma filed_append (k x : json) (d : JDict.t (list json)) :
  Catalog.filed
    (JDict.put k (match JDict.get k d with
                  | Some l => (l ++ [x])%list
                  | None => [x]
                  end) d)
  = S (Catalog.filed d).
Proof.
  unfold Catalog.filed, list_sum.
  induction d as [|[k' v'] r IH]; cbn [JDict.put JDict.get]; [reflexivity|].
  destruct (PyVal.key_eqb k' k); cbn [map fold_right snd].
  - rewrite length_app. cbn [List.length]. lia.
  - rewrite IH. lia.
Qed.

Lemma list_sum_perm (l l' : list nat) :
  Permutation l l' -> list_sum l = list_sum l'.
Proof.
  unfold list_sum. induction 1; cbn [fold_right]; lia.
Qed.

(** One step of the loop of [_index] that does not raise. *)
Lemma index_items_step (item : json) (rest : list json)
  (d d' : discovery.GDPDiscovery) :
  discovery.index_items (item :: rest) d = (Ok tt, d') ->
  exists ep,
    discovery.from_dict item = Ok ep /\
    PyVal.hashable (discovery.function_name ep) = true /\
    discovery.index_items rest
      {| discovery.endpoints :=
           JDict.put (discovery.function_name ep) ep (discovery.endpoints d);
         discovery._categories :=
           JDict.put (discovery.category ep)
             (match
                JDict.get (discovery.category ep) (discovery._categories d)
              with
              | Some l => (l ++ [discovery.function_name ep])%list
              | None => [discovery.function_name ep]
              end) (discovery._categories d) |}
    = (Ok tt, d').
Proof.
  cbn [discovery.index_items].
  destruct (discovery.from_dict item) as [ep|e]; [|discriminate].
  unfold JDict.set, JDict.setdefault_append.
  destruct (PyVal.hashable (discovery.function_name ep)) eqn:Hf;
    [|discriminate].
  cbn [discovery._categories].
  destruct (PyVal.hashable (discovery.category ep)); [|discriminate].
  intros H. exists ep. auto.
Qed.

Lemma index_items_counts (items : list json) :
  forall d d',
    discovery.index_items items d = (Ok tt, d') ->
    Catalog.filed (discovery._categories d')
    = (Catalog.filed (discovery._categories d) + List.length items)%nat /\
    (List.length (discovery.endpoints d)
     <= List.length (discovery.endpoints d')
     <= List.length (discovery.endpoints d) + List.length items)%nat.
Proof.
  induction items as [|item rest IH]; intros d d' H.
  - cbn in H. injection H as <-. cbn [List.length]. lia.
  - apply index_items_step in H. destruct H as (ep & _ & _ & H).
    apply IH in H. cbn [discovery.endpoints discovery._categories] in H.
    rewrite filed_append in H.
    pose proof
      (put_length (discovery.function_name ep) ep (discovery.endpoints d)).
    cbn [List.length]. lia.
Qed.

(** An entry stays as it is while the items that follow carry other names. *)
Lemma index_items_keeps (name : json) (ep : discovery.GDPEndpoint)
  (items : list json) :
  forall d d',
    discovery.index_items items d = (Ok tt, d') ->
    JDict.get name (discovery.endpoints d) = Some ep ->
    (forall later ep',
       In later items -> discovery.from_dict later = Ok ep' ->
       PyVal.key_eqb (discovery.function_name ep') name = false) ->
    JDict.get name (discovery.endpoints d') = Some ep.
Proof.
  induction items as [|item rest IH]; intros d d' H Hget Hother.
  - cbn in H. now injection H as <-.
  - apply index_items_step in H. destruct H as (ep' & Hfrom & _ & H).
    apply (IH _ _ H).
    + cbn [discovery.endpoints]. rewrite get_put_other; [exact Hget|].
      apply (Hother item); [now left | exact Hfrom].
    + intros later ep'' Hin. apply Hother. now right.
Qed.

Lemma index_items_last_wins (before : list json) :
  forall (item : json) (after : list json) (ep : discovery.GDPEndpoint) d d',
    discovery.index_items (before ++ item :: after) d = (Ok tt, d') ->
    discovery.from_dict item = Ok ep ->
    (forall later ep',
       In later after -> discovery.from_dict later = Ok ep' ->
       PyVal.key_eqb (discovery.function_name ep')
         (discovery.function_name ep) = false) ->
    JDict.get (discovery.function_name ep) (discovery.endpoints d') = Some ep.
Proof.
  induction before as [|b before IH]; intros item after ep d d' H Hfrom Hother.
  - cbn [List.app] in H. apply index_items_step in H.
    destruct H as (ep' & Hfrom' & Hhash & H).
    rewrite Hfrom in Hfrom'. injection Hfrom' as <-.
    eapply index_items_keeps; [exact H | | exact Hother].
    cbn [discovery.endpoints]. apply get_put_same.
    now apply key_eqb_refl.
  - cbn [List.app] in H. apply index_items_step in H.
    destruct H as (ep' & _ & _ & H).
    now apply (IH _ _ _ _ _ H).
Qed.

Lemma sorted_by_perm {A} (key : A -> json) (l l' : list A) :
  PyVal.sorted_by key l = Ok l' -> Permutation l' l.
Proof.
  unfold PyVal.sorted_by.
  destruct (forallb _ l);
    [intros [= <-]; apply SortLaws.sort_by_perm|].
  destruct (forallb _ l);
    [intros [= <-]; apply SortLaws.sort_by_perm|].
  destruct (_ <=? _)%nat; [|discriminate].
  intros [= <-]. apply Permutation_refl.
Qed.

End IndexLaws.

(** X21.  When [_index] runs through a list of items without raising, every
    item is accounted for under a category: the names filed under the
    categories, and so the counts [categories] reports, add up to the number
    of items.  The endpoints are at most as many, because an item whose
    [api_function_name] comes again replaces the entry of that name: the
    entry found under a name is the one of the last item with it. *)
Theorem index_accounts_for_every_item
  (items : list json) (d0 d : GDPDiscovery) :
  _index (JArr items) d0 = (Ok tt, d) ->
  (List.length (endpoints d) <= List.length items)%nat /\
  Catalog.filed (_categories d) = List.length items /\
  (forall counts,
     categories d = Ok counts -> Catalog.total counts = List.length items) /\
  (forall before item after ep,
     items = (before ++ item :: after)%list ->
     from_dict item = Ok ep ->
     (forall later ep',
        In later after -> from_dict later = Ok ep' ->
        PyVal.key_eqb (function_name ep') (function_name ep) = false) ->
     JDict.get (function_name ep) (endpoints d) = Some ep).
Proof.
  unfold _index. cbn [PyVal.iterate]. intros H.
  destruct (IndexLaws.index_items_counts _ _ H) as [Hfiled Hlen].
  cbn [init endpoints _categories List.length] in Hfiled, Hlen.
  change (Catalog.filed []) with 0%nat in Hfiled.
  rewrite Nat.add_0_l in Hfiled.
  split; [lia|]. split; [exact Hfiled|]. split.
  - intros counts Hc. unfold categories, rbind in Hc.
    destruct (PyVal.sorted_by fst (_categories d)) as [sorted|e] eqn:Hs;
      [|discriminate].
    injection Hc as <-. apply IndexLaws.sorted_by_perm in Hs.
    unfold Catalog.total. rewrite map_map. cbn [snd].
    rewrite <- Hfiled. unfold Catalog.filed.
    apply IndexLaws.list_sum_perm. now apply Permutation_map.
  - intros before item after ep -> Hfrom Hother.
    eapply IndexLaws.index_items_last_wins; eauto.
Qed.

Lemma index_accounts_for_every_item_witness :
  let items :=
    [Catalogs.list_group; Catalogs.list_datasource;
     Catalogs.list_group_again] in
  let d := snd (_index (JArr items) init) in
  (List.length (endpoints d) <= 3)%nat /\
  Catalog.filed (_categories d) = 3%nat /\
  Catalog.total
    [(JStr "Datasource Builder", 1%nat); (JStr "Group Builder", 1%nat);
     (JStr "Groups", 1%nat)] = 3%nat /\
  JDict.get (JStr "list_group") (endpoints d)
  = Some (Catalogs.endpoint_of Catalogs.list_group_again).
Proof.
  intros items d.
  assert (H : _index (JArr items) init = (Ok tt, d))
    by (vm_compute; reflexivity).
  destruct (index_accounts_for_every_item items init H)
    as [Hlen [Hfiled [Hcounts Hlast]]].
  split; [exact Hlen|]. split; [exact Hfiled|]. split.
  - apply Hcounts. vm_compute. reflexivity.
  - apply (Hlast [Catalogs.list_group; Catalogs.list_datasource]
             Catalogs.list_group_again []
             (Catalogs.endpoint_of Catalogs.list_group_again)).
    + reflexivity.
    + vm_compute. reflexivity.
    + intros later ep' [].
Defined.

(** A name listed twice leaves two endpoints for three items, and the
    category of its first listing still counts it. *)
Example index_of_a_repeated_name :
  let d :=
    snd (_index (JArr [Catalogs.list_group; Catalogs.list_datasource;
                       Catalogs.list_group_again]) init) in
  List.length (endpoints d) = 2%nat /\
  categories d
  = Ok [(JStr "Datasource Builder", 1%nat); (JStr "Group Builder", 1%nat);
        (JStr "Groups", 1%nat)] /\
  option_map category (JDict.get (JStr "list_group") (endpoints d))
  = Some (JStr "Groups").
Proof. vm_compute. repeat split. Qed.

(** ** Discovery and its cache *)

Module DiscoverLaws.

Lemma put_nonempty {V} (k : json) (v : V) (d : JDict.t V) :
  (0 < List.length (JDict.put k v d))%nat.
Proof.
  destruct d as [|[k' v'] r]; cbn [JDict.put List.length]; [lia|].
  destruct (PyVal.key_eqb k' k); cbn [List.length]; lia.
Qed.

(** Indexed items leave a loaded index. *)
Lemma index_items_loaded (items : list json) (d0 d : GDPDiscovery) :
  index_items items d0 = (Ok tt, d) -> items <> [] -> loaded d = true.
Proof.
  destruct items as [|item rest]; [congruence|]. intros H _.
  apply IndexLaws.index_items_step in H. destruct H as (ep & _ & _ & H).
  apply IndexLaws.index_items_counts in H.
  cbn [endpoints] in H.
  pose proof (put_nonempty (function_name ep) ep (endpoints d0)).
  unfold loaded. apply Nat.ltb_lt. lia.
Qed.

(** An item that cannot be read stops the loop with what was indexed
    before it. *)
Lemma index_items_stops (good : list json) :
  forall (bad : json) (rest : list json) (e : exn) (d0 d : GDPDiscovery),
    index_items good d0 = (Ok tt, d) ->
    from_dict bad = Raise e ->
    index_items (good ++ bad :: rest) d0 = (Raise e, d).
Proof.
  induction good as [|g good IH]; intros bad rest e d0 d H Hbad.
  - cbn in H. injection H as <-. cbn [List.app index_items].
    now rewrite Hbad.
  - pose proof H as H'. apply IndexLaws.index_items_step in H'.
    destruct H' as (ep & Hfrom & Hhash & H').
    cbn [List.app index_items] in *. rewrite Hfrom in *.
    unfold JDict.set, JDict.setdefault_append in *. rewrite Hhash in *.
    cbn [_categories] in *.
    destruct (PyVal.hashable (category ep)); [|discriminate].
    now apply IH.
Qed.

End DiscoverLaws.

(** X22.  A live discovery that indexes the answer and writes the cache
    file leaves a file from which a later cache-first discovery, and so the
    first tool call of a later process, rebuilds the same index with the
    same count, whatever the appliance does then and without a request to
    it. *)
Theorem cache_round_trip
  (cfg : config.GDPConfig) (prefer : bool) (w : Effects.world)
  (sys : system) (items : list json) (io' : Effects.state)
  (d : GDPDiscovery) :
  fetch cfg w (io sys) = (Ok (JArr items), io') ->
  items <> [] ->
  _index (JArr items) init = (Ok tt, d) ->
  prefer = false \/ file sys = Missing ->
  let cached := Holds (Ok (JArr items)) in
  discover cfg CacheWritten true prefer w sys
  = (Ok (List.length (endpoints d)),
     {| index := d; file := cached; io := io' |}) /\
  forall cfg' wr' w' stale io0,
    let restart := {| index := stale; file := cached; io := io0 |} in
    let reloaded := {| index := d; file := cached; io := io0 |} in
    discover cfg' wr' true true w' restart
    = (Ok (List.length (endpoints d)), reloaded) /\
    (loaded stale = false ->
     tools._ensure_discovered cfg' wr' w' restart = (Ok tt, reloaded)).
Proof.
  intros Hreq Hitems Hindex Hprefer. cbv zeta. split.
  - unfold discover.
    assert (Hfast : prefer && true && file_exists (file sys) = false).
    { destruct Hprefer as [-> | ->]; [reflexivity|].
      cbn [file_exists]. now rewrite Bool.andb_false_r. }
    rewrite Hfast. unfold live. rewrite Hreq.
    destruct items as [|item rest]; [congruence|].
    change (_index (JArr (item :: rest)) (index sys))
      with (_index (JArr (item :: rest)) init).
    now rewrite Hindex.
  - intros cfg' wr' w' stale io0.
    assert (Hload :
      discover cfg' wr' true true w'
        {| index := stale; file := Holds (Ok (JArr items)); io := io0 |}
      = (Ok (List.length (endpoints d)),
         {| index := d; file := Holds (Ok (JArr items)); io := io0 |})).
    { unfold discover. cbn [andb file file_exists]. unfold load_cache.
      cbn [file index io].
      change (_index (JArr items) stale) with (_index (JArr items) init).
      now rewrite Hindex. }
    split; [exact Hload|].
    intros Hstale. unfold tools._ensure_discovered. cbn [index].
    now rewrite Hstale, Hload.
Qed.

Lemma cache_round_trip_witness :
  let d := Catalogs.indexed in
  let cached := Holds (Ok (JArr Catalogs.small)) in
  discover Scenario.cfg CacheWritten true true
    (Catalogs.serving Catalogs.small) (Catalogs.start Missing)
  = (Ok 3%nat,
     {| index := d; file := cached;
        io := snd (fetch Scenario.cfg (Catalogs.serving Catalogs.small)
                     Scenario.fresh) |}) /\
  tools._ensure_discovered Scenario.cfg CacheWritten Catalogs.unreachable
    (Catalogs.start cached)
  = (Ok tt, {| index := d; file := cached; io := Scenario.fresh |}).
Proof.
  intros d cached.
  destruct (@cache_round_trip Scenario.cfg true
              (Catalogs.serving Catalogs.small) (Catalogs.start Missing)
              Catalogs.small
              (snd (fetch Scenario.cfg (Catalogs.serving Catalogs.small)
                      Scenario.fresh))
              d) as [Hlive Hlater].
  - vm_compute. reflexivity.
  - discriminate.
  - vm_compute. reflexivity.
  - right. reflexivity.
  - split; [exact Hlive|].
    apply (Hlater Scenario.cfg CacheWritten Catalogs.unreachable init
             Scenario.fresh).
    reflexivity.
Defined.

(** X23.  When the request for the catalogue raises, or its answer is not
    a list with items, [discover] with a cache file that decodes and indexes
    answers from the file: the index and the count are the file's. *)
Theorem live_failure_falls_back_to_cache
  (cfg : config.GDPConfig) (wr : cache_write) (w : Effects.world)
  (sys : system) (data : json) (d : GDPDiscovery) :
  match fst (fetch cfg w (io sys)) with
  | Ok (JArr (_ :: _)) => False
  | _ => True
  end ->
  file sys = Holds (Ok data) ->
  _index data init = (Ok tt, d) ->
  discover cfg wr true false w sys
  = (Ok (List.length (endpoints d)),
     {| index := d; file := file sys; io := snd (fetch cfg w (io sys)) |}).
Proof.
  intros Hlive Hfile Hindex. unfold discover, live. cbn [andb].
  assert (Hload : forall stale io',
    load_cache {| index := stale; file := file sys; io := io' |}
    = (Ok (List.length (endpoints d)),
       {| index := d; file := file sys; io := io' |})).
  { intros stale io'. unfold load_cache. cbn [file index io].
    rewrite Hfile.
    change (_index data stale) with (_index data init).
    now rewrite Hindex. }
  destruct (fetch cfg w (io sys)) as [[answer|e] io'] eqn:Hreq;
    cbn [fst snd] in *.
  - destruct answer as [| | | |[|item rest]|];
      try contradiction;
      cbn [file]; rewrite Hfile; cbn [file_exists];
      rewrite <- Hfile; apply Hload.
  - cbn [file]. rewrite Hfile. cbn [file_exists].
    rewrite <- Hfile. apply Hload.
Qed.

Lemma live_failure_falls_back_to_cache_witness :
  discover Scenario.cfg CacheWritten true false Catalogs.unreachable
    (Catalogs.start (Holds (Ok (JArr Catalogs.small))))
  = (Ok (List.length (endpoints Catalogs.indexed)),
     {| index := Catalogs.indexed;
        file := Holds (Ok (JArr Catalogs.small));
        io := snd (fetch Scenario.cfg Catalogs.unreachable Scenario.fresh) |}).
Proof.
  apply (@live_failure_falls_back_to_cache Scenario.cfg CacheWritten
           Catalogs.unreachable
           (Catalogs.start (Holds (Ok (JArr Catalogs.small))))
           (JArr Catalogs.small) Catalogs.indexed).
  - vm_compute. exact I.
  - reflexivity.
  - vm_compute. reflexivity.
Defined.



(** X25.  An item that [from_dict] cannot read, after items it can, stops
    the indexing of a live answer midway.  With no cache file to fall back
    to, [discover] then returns 0 although the index holds the items before
    the broken one; the index counts as loaded, so no later tool call runs
    discovery again. *)
Theorem broken_item_leaves_partial_index
  (cfg : config.GDPConfig) (wr : cache_write) (prefer : bool)
  (w : Effects.world) (sys : system) (good rest : list json) (bad : json)
  (io' : Effects.state) (d : GDPDiscovery) (e : exn) :
  fetch cfg w (io sys) = (Ok (JArr (good ++ bad :: rest)), io') ->
  index_items good init = (Ok tt, d) ->
  from_dict bad = Raise e ->
  file sys = Missing ->
  let partial := {| index := d; file := Missing; io := io' |} in
  discover cfg wr true prefer w sys = (Ok 0%nat, partial) /\
  (good <> [] ->
   loaded d = true /\
   forall cfg' wr' w',
     tools._ensure_discovered cfg' wr' w' partial = (Ok tt, partial)).
Proof.
  intros Hreq Hgood Hbad Hfile. cbv zeta. split.
  - unfold discover. rewrite Hfile. cbn [file_exists].
    rewrite Bool.andb_false_r. unfold live. rewrite Hreq.
    assert (Hstop :
      _index (JArr (good ++ bad :: rest)) (index sys) = (Raise e, d))
      by (unfold _index; cbn [PyVal.iterate];
          now apply DiscoverLaws.index_items_stops).
    destruct (good ++ bad :: rest)%list as [|x l] eqn:Hl;
      [now destruct good|].
    rewrite Hstop. rewrite Hfile. reflexivity.
  - intros Hne.
    assert (Hloaded : loaded d = true)
      by (eapply DiscoverLaws.index_items_loaded; eauto).
    split; [exact Hloaded|].
    intros cfg' wr' w'. unfold tools._ensure_discovered. cbn [index].
    now rewrite Hloaded.
Qed.

Lemma broken_item_leaves_partial_index_witness :
  let answer := [Catalogs.list_group; Catalogs.broken;
                 Catalogs.list_datasource] in
  let d := snd (index_items [Catalogs.list_group] init) in
  let partial :=
    {| index := d; file := Missing;
       io := snd (fetch Scenario.cfg (Catalogs.serving answer)
                    Scenario.fresh) |} in
  discover Scenario.cfg CacheWritten true true (Catalogs.serving answer)
    (Catalogs.start Missing)
  = (Ok 0%nat, partial) /\
  loaded d = true /\
  tools._ensure_discovered Scenario.cfg CacheWritten Catalogs.unreachable
    partial
  = (Ok tt, partial).
Proof.
  intros answer d partial.
  destruct (@broken_item_leaves_partial_index Scenario.cfg CacheWritten true
              (Catalogs.serving answer) (Catalogs.start Missing)
              [Catalogs.list_group] [Catalogs.list_datasource]
              Catalogs.broken
              (snd (fetch Scenario.cfg (Catalogs.serving answer)
                      Scenario.fresh))
              d (KeyError "verb")) as [Hrun Hlater].
  - vm_compute. reflexivity.
  - vm_compute. reflexivity.
  - vm_compute. reflexivity.
  - reflexivity.
  - split; [exact Hrun|].
    destruct Hlater as [Hloaded Hskip]; [discriminate|].
    split; [exact Hloaded|]. apply Hskip.
Defined.

(** ** What reaches the key store *)

Module RouterLaws.

Lemma first_full_match (rs : list route) (m p : string) e prm :
  first_full rs m p = Some (e, prm) ->
  exists r, In r rs /\ endpoint_of r = e /\ matches r m p = FULL prm.
Proof.
  induction rs as [|r rest IH]; cbn [first_full]; [discriminate|].
  destruct (matches r m p) as [| |prm0] eqn:Hm.
  - intros H. destruct (IH H) as [r' [? ?]]. exists r'. split; [now right|auto].
  - intros H. destruct (IH H) as [r' [? ?]]. exists r'. split; [now right|auto].
  - intros [= <- <-]. exists r. split; [now left|auto].
Qed.

Lemma resolve_route (m p : string) e prm :
  resolve m p = Handler e prm ->
  exists r, In r routes /\ endpoint_of r = e /\ matches r m p = FULL prm.
Proof.
  unfold resolve.
  destruct (first_full routes m p) as [[e0 prm0]|] eqn:Hf.
  - intros [= <- <-]. now apply first_full_match.
  - destruct (existsb _ routes); [discriminate|].
    destruct (String.eqb p "/"); [discriminate|].
    destruct (existsb _ routes); discriminate.
Qed.

Lemma prefix_split (q s : string) :
  String.prefix q s = true -> s = q ++ PyStr.drop (String.length q) s.
Proof.
  revert s. induction q as [|c q IH]; intros s H; [reflexivity|].
  destruct s as [|b s]; [discriminate|].
  rewrite PyStrFacts.prefix_cons in H.
  destruct (ascii_dec c b) as [->|]; [|discriminate].
  cbn [String.length PyStr.drop String.append]. f_equal. now apply IH.
Qed.

(** Only [POST /admin/keys], a newline after the path or not, reaches
    [admin_create_key]. *)
Lemma resolve_create (m p : string) prm :
  resolve m p = Handler AdminCreateKey prm ->
  m = "POST" /\
  (p = "/admin/keys" \/ p = "/admin/keys" ++ String "010" "").
Proof.
  intros H. apply resolve_route in H. destruct H as [r [Hin [He Hm]]].
  cbn [In routes] in Hin.
  repeat (destruct Hin as [<-|Hin]); try discriminate He; [|destruct Hin].
  unfold matches in Hm. cbn [route_at] in Hm.
  destruct (path_params (Literal "/admin/keys") p) as [prm0|] eqn:Hp;
    [|discriminate].
  apply RouterFacts.literal_match in Hp. destruct Hp as [_ Hp].
  change (effective_methods _) with (Some ["POST"]) in Hm.
  cbn [existsb] in Hm.
  destruct (String.eqb m "POST") eqn:Em; [|discriminate].
  apply String.eqb_eq in Em. auto.
Qed.

(** Only [DELETE /admin/keys/<prefix>], the prefix not empty and with no
    slash in it, reaches [admin_revoke_key]. *)
Lemma resolve_revoke (m p : string) prm :
  resolve m p = Handler AdminRevokeKey prm ->
  m = "DELETE" /\
  exists k,
    prm = Some k /\ k <> "" /\ has_slash k = false /\
    p = "/admin/keys/" ++ k.
Proof.
  intros H. apply resolve_route in H. destruct H as [r [Hin [He Hm]]].
  cbn [In routes] in Hin.
  repeat (destruct Hin as [<-|Hin]); try discriminate He; [|destruct Hin].
  unfold matches in Hm. cbn [route_at path_params] in Hm.
  destruct (PyStr.startswith "/admin/keys/" p) eqn:Ep; [|discriminate].
  cbn [andb] in Hm.
  destruct (PyStr.truthy (PyStr.drop (String.length "/admin/keys/") p))
    eqn:Et; [|discriminate].
  cbn [andb] in Hm.
  destruct (has_slash (PyStr.drop (String.length "/admin/keys/") p)) eqn:Es;
    [discriminate|].
  cbn [negb] in Hm.
  change (effective_methods _) with (Some ["DELETE"]) in Hm.
  cbn [existsb] in Hm.
  destruct (String.eqb m "DELETE") eqn:Em; [|discriminate].
  apply String.eqb_eq in Em. injection Hm as <-.
  split; [exact Em|].
  exists (PyStr.drop (String.length "/admin/keys/") p).
  split; [reflexivity|]. split; [|split; [exact Es|]].
  - now apply GatewayLaws.truthy_nonempty.
  - now apply prefix_split.
Qed.

End RouterLaws.

(** X26.  Whatever a request is, the application changes the key file only
    through the two writing admin endpoints, called from an address on the
    allow-list and handed on by the middleware: a POST that the router
    matches to [/admin/keys], with a user that is not blank, or a DELETE that
    the router matches to [/admin/keys/<prefix>], for a prefix that some
    stored record has.  A request from any other address, a request with any
    other method or routed path, and one the middleware rejects leave the
    file as it is. *)
Theorem store_changes_only_by_local_admin
  (cfg : config.GDPConfig) (env : environment) (req : request)
  (f : keystore.file) :
  snd (app cfg env req f) <> f ->
  _is_localhost req = true /\
  dispatch req f = CallNext /\
  ((method req = "POST" /\
    (scope_path req = "/admin/keys" \/
     scope_path req = "/admin/keys" ++ String "010" "") /\
    requested_user req <> "") \/
   (method req = "DELETE" /\
    exists k,
      k <> "" /\ has_slash k = false /\
      scope_path req = "/admin/keys/" ++ k /\
      keystore.find_target k (keystore._load_store f) <> None)).
Proof.
  unfold server.app.
  destruct (dispatch req f); try (cbn [snd]; intros H; now elim H).
  destruct (resolve (method req) (scope_path req)) as [e prm| | |] eqn:Hr;
    try (cbn [snd]; intros H; now elim H).
  destruct e; try (cbn [snd]; intros H; now elim H).
  - unfold admin_create_key.
    destruct (_is_localhost req); cbn [negb handled snd];
      [|intros H; now elim H].
    destruct (PyStr.truthy (requested_user req)) eqn:Hu;
      cbn [negb handled snd]; [|intros H; now elim H].
    intros _. split; [reflexivity|]. split; [reflexivity|]. left.
    apply RouterLaws.resolve_create in Hr. destruct Hr as [Hm Hp].
    split; [exact Hm|]. split; [exact Hp|].
    now apply GatewayLaws.truthy_nonempty.
  - unfold admin_list_keys.
    destruct (_is_localhost req); cbn [negb handled snd];
      intros H; now elim H.
  - apply RouterLaws.resolve_revoke in Hr.
    destruct Hr as [Hm [k [-> [Hk [Hs Hp]]]]].
    unfold admin_revoke_key.
    destruct (_is_localhost req); cbn [negb handled snd];
      [|intros H; now elim H].
    unfold keystore.revoke_key.
    destruct (keystore.find_target k (keystore._load_store f)) as [[h m]|]
      eqn:Ht; [|cbn [handled snd]; intros H; now elim H].
    intros _. split; [reflexivity|]. split; [reflexivity|]. right.
    split; [exact Hm|]. exists k. rewrite Ht.
    repeat split; auto; discriminate.
Qed.

Lemma store_changes_only_by_local_admin_witness :
  let req := Scenario.issue_request (Some (JObj [("user", JStr "alice")])) in
  snd (app Scenario.cfg Scenario.env req keystore.Absent) <> keystore.Absent /\
  _is_localhost req = true /\
  dispatch req keystore.Absent = CallNext /\
  ((method req = "POST" /\
    (scope_path req = "/admin/keys" \/
     scope_path req = "/admin/keys" ++ String "010" "") /\
    requested_user req <> "") \/
   (method req = "DELETE" /\
    exists k,
      k <> "" /\ has_slash k = false /\
      scope_path req = "/admin/keys/" ++ k /\
      keystore.find_target k (keystore._load_store keystore.Absent)
      <> None)).
Proof.
  intros req.
  assert (H : snd (app Scenario.cfg Scenario.env req keystore.Absent)
              <> keystore.Absent) by (vm_compute; discriminate).
  split; [exact H|].
  exact (@store_changes_only_by_local_admin Scenario.cfg Scenario.env req
           keystore.Absent H).
Defined.

(** ** What [search] keeps *)

Module SearchLaws.

Lemma contains_unfold (q s : string) :
  PyVal.contains q s
  = String.prefix q s
    || match s with
       | EmptyString => false
       | String _ r => PyVal.contains q r
       end.
Proof. destruct s; reflexivity. Qed.

Lemma append_assoc (a b c : string) : (a ++ b) ++ c = a ++ b ++ c.
Proof. induction a as [|x a IH]; cbn [String.append]; congruence. Qed.

(** [q in s] holds exactly when [q] occurs in [s]. *)
Lemma contains_occurs (q s : string) :
  PyVal.contains q s = true <-> Catalog.occurs q s.
Proof.
  unfold Catalog.occurs. split.
  - induction s as [|c s IH]; rewrite contains_unfold; intros H;
      apply Bool.orb_true_iff in H; destruct H as [H|H]; try discriminate.
    + exists "", (PyStr.drop (String.length q) ""). cbn [String.append].
      now apply RouterLaws.prefix_split.
    + exists "", (PyStr.drop (String.length q) (String c s)).
      cbn [String.append]. now apply RouterLaws.prefix_split.
    + destruct (IH H) as [a [b ->]]. exists (String c a), b. reflexivity.
  - intros [a [b ->]]. induction a as [|c a IH].
    + cbn [String.append]. rewrite contains_unfold.
      now rewrite GatewayLaws.prefix_app.
    + cbn [String.append]. rewrite contains_unfold, IH.
      apply Bool.orb_true_r.
Qed.

Lemma matches_query_strings (q n t c r : string) (ep : GDPEndpoint) :
  function_name ep = JStr n -> description ep = JStr t ->
  category ep = JStr c -> resource_name ep = JStr r ->
  matches_query q ep
  = Ok (PyVal.contains q (PyVal.lower n) || PyVal.contains q (PyVal.lower t)
        || PyVal.contains q (PyVal.lower c)
        || PyVal.contains q (PyVal.lower r)).
Proof.
  intros Hn Ht Hc Hr. unfold matches_query, rbind.
  rewrite Hn, Ht, Hc, Hr. cbn [PyVal.lower_of].
  destruct (PyVal.contains q (PyVal.lower n)); [reflexivity|].
  destruct (PyVal.contains q (PyVal.lower t)); [reflexivity|].
  destruct (PyVal.contains q (PyVal.lower c)); reflexivity.
Qed.

(** The test of a wanted category or verb, [g] being the change of case
    and [eqb] the comparison of its results. *)
Lemma wanted_test {A} (eqb : A -> A -> bool)
  (eqb_eq : forall a b, eqb a b = true <-> a = b)
  (g : string -> A) (x : A) (w : option string) :
  exists b,
    match truthy_opt w with
    | Some s => Ok (eqb x (g s))
    | None => Ok true
    end = Ok b /\
    (b = true <-> forall want, w = Some want -> want <> "" -> x = g want).
Proof.
  destruct w as [[|a s]|]; cbn [truthy_opt PyStr.truthy].
  - exists true. split; [reflexivity|]. split; [|reflexivity].
    intros _ want [= <-] Hne. congruence.
  - exists (eqb x (g (String a s))). split; [reflexivity|].
    rewrite eqb_eq. split.
    + intros H want [= <-] _. exact H.
    + intros H. apply H; [reflexivity | discriminate].
  - exists true. split; [reflexivity|]. split; [|reflexivity].
    intros _ want H. discriminate H.
Qed.

End SearchLaws.

(** X27.  What [search] keeps of endpoints whose fields are strings.  The
    test raises nothing, and an endpoint is kept exactly when: its category
    in lower case is the wanted one in lower case, if a category that is not
    empty is asked for; its verb in upper case is the wanted one in upper
    case, if a verb that is not empty is asked for; and the query in lower
    case occurs in the lower-cased name, description, category or resource
    name. *)
Theorem keeps_what_matches
  (query : string) (wanted_category wanted_verb : option string)
  (ep : GDPEndpoint) (n t c r v : string) :
  function_name ep = JStr n -> description ep = JStr t ->
  category ep = JStr c -> resource_name ep = JStr r -> verb ep = JStr v ->
  let q := PyVal.lower query in
  exists kept,
    keeps q wanted_category wanted_verb ep = Ok kept /\
    (kept = true <->
     (forall want, wanted_category = Some want -> want <> "" ->
        PyVal.lower c = PyVal.lower want) /\
     (forall want, wanted_verb = Some want -> want <> "" ->
        client.upper v = client.upper want) /\
     (Catalog.occurs q (PyVal.lower n) \/ Catalog.occurs q (PyVal.lower t) \/
      Catalog.occurs q (PyVal.lower c) \/ Catalog.occurs q (PyVal.lower r))).
Proof.
  intros Hn Ht Hc Hr Hv q.
  assert (Hq :
    PyVal.contains q (PyVal.lower n) || PyVal.contains q (PyVal.lower t)
    || PyVal.contains q (PyVal.lower c) || PyVal.contains q (PyVal.lower r)
    = true <->
    Catalog.occurs q (PyVal.lower n) \/ Catalog.occurs q (PyVal.lower t) \/
    Catalog.occurs q (PyVal.lower c) \/ Catalog.occurs q (PyVal.lower r)).
  { rewrite !Bool.orb_true_iff, !SearchLaws.contains_occurs. tauto. }
  assert (Hk :
    keeps q wanted_category wanted_verb ep
    = match
        match truthy_opt wanted_category with
        | Some s => Ok (String.eqb (PyVal.lower c) (PyVal.lower s))
        | None => Ok true
        end
      with
      | Ok in_category =>
          if negb in_category then Ok false
          else
            match
              match truthy_opt wanted_verb with
              | Some s =>
                  Ok (client.text_eqb (client.upper v) (client.upper s))
              | None => Ok true
              end
            with
            | Ok with_verb =>
                if negb with_verb then Ok false
                else
                  Ok (PyVal.contains q (PyVal.lower n)
                      || PyVal.contains q (PyVal.lower t)
                      || PyVal.contains q (PyVal.lower c)
                      || PyVal.contains q (PyVal.lower r))
            | Raise e => Raise e
            end
      | Raise e => Raise e
      end).
  { unfold keeps, rbind.
    rewrite (@SearchLaws.matches_query_strings q n t c r ep Hn Ht Hc Hr).
    rewrite Hc, Hv. cbn [PyVal.lower_of PyVal.upper_of].
    destruct (truthy_opt wanted_category), (truthy_opt wanted_verb);
      reflexivity. }
  rewrite Hk.
  destruct (SearchLaws.wanted_test String.eqb String.eqb_eq PyVal.lower
              (PyVal.lower c) wanted_category) as [b1 [H1 I1]].
  destruct (SearchLaws.wanted_test client.text_eqb ClientLaws.text_eqb_eq
              client.upper (client.upper v) wanted_verb) as [b2 [H2 I2]].
  rewrite H1, H2.
  destruct b1, b2; cbn [negb]; eexists; (split; [reflexivity|]);
    rewrite ?Hq; intuition discriminate.
Qed.

Lemma keeps_what_matches_witness :
  keeps (PyVal.lower "DATA") (Some "datasource builder") (Some "get")
    (Catalogs.endpoint_of Catalogs.list_datasource)
  = Ok true.
Proof.
  destruct (@keeps_what_matches "DATA" (Some "datasource builder")
              (Some "get") (Catalogs.endpoint_of Catalogs.list_datasource)
              "list_datasource" "List the data sources"
              "Datasource Builder" "datasource" "GET"
              eq_refl eq_refl eq_refl eq_refl eq_refl)
    as [kept [Hkept Hiff]].
  rewrite Hkept. f_equal. apply Hiff. split; [|split].
  - intros want [= <-] _. vm_compute. reflexivity.
  - intros want [= <-] _. vm_compute. reflexivity.
  - left. exists "list_", "source". vm_compute. reflexivity.
Defined.

(** The verb filter beyond ASCII: a wanted [e] with an acute accent keeps
    the verb written with the capital letter, and a wanted [ss] keeps the
    verb written with a sharp s; a different letter does not. *)
Example verb_filter_runs :
  let ep v :=
    {| resource_id := JNum 1; function_name := JStr "f";
       resource_name := JStr "r"; verb := JStr v; category := JStr "c";
       version := JStr ""; description := JStr ""; parameters := JArr [] |} in
  keeps "" None (Some (String "233" "")) (ep (String "201" "")) = Ok true /\
  keeps "" None (Some "ss") (ep (String "223" "")) = Ok true /\
  keeps "" None (Some "get") (ep "GET") = Ok true /\
  keeps "" None (Some "get") (ep "PUT") = Ok false.
Proof. vm_compute. repeat split. Qed.

(** * The key store on any file *)

Module KeyFileLaws.

Import keyfile.







End KeyFileLaws.



(** Files that hold no store: the empty object is an empty store, and an
    issuance keeps what else an object has; a list, a number and a string
    raise. *)
Example unusable_file_runs :
  keyfile.list_keys (keyfile.Text (JObj [])) = Ok [] /\
  keyfile.list_keys (keyfile.Text (JArr [])) = Raise TypeError /\
  keyfile.has_any_keys (keyfile.Text (JNum 5)) = Raise TypeError /\
  keyfile.validate_key "abc" (keyfile.Text JNull) = Raise TypeError /\
  keyfile.validate_key "" (keyfile.Text JNull) = Ok JNull /\
  keyfile.list_keys (keyfile.Text (JStr "my keys")) = Raise TypeError /\
  keyfile.list_keys (keyfile.Text (JObj [("keys", JArr [])]))
  = Raise AttributeError /\
  keyfile.list_keys keyfile.NotText = Raise UnicodeDecodeError /\
  match
    snd (keyfile.generate_key Scenario.rnd_alice "2025-01-01T00:00:00+00:00"
           keyfile.Written "alice" (keyfile.Text (JObj [("version", JNum 1)])))
  with
  | keyfile.Text (JObj fields) => map fst fields = ["version"; "keys"]
  | _ => False
  end.
Proof. vm_compute. repeat split. Qed.

(** Files that are objects but hold no well-formed store.  With a list
    for ["keys"], the methods of a dict are missing, the length is there and
    an item cannot be assigned.  With a record that lacks its user, the
    listing fails on it and a revocation by its prefix removes it, writes
    the store, and then fails to report the user. *)
Example malformed_store_runs :
  let listed := keyfile.Text (JObj [("keys", JArr [])]) in
  let userless :=
    keyfile.Text
      (JObj [("keys",
              JObj [("digest", JObj [("key_prefix", JStr "abababab");
                                     ("created", JStr "then")])])]) in
  keyfile.validate_key "abc" listed = Raise AttributeError /\
  keyfile.list_keys listed = Raise AttributeError /\
  keyfile.has_any_keys listed = Ok false /\
  fst (keyfile.revoke_key "abababab" keyfile.Written listed)
  = Raise AttributeError /\
  fst (keyfile.generate_key Scenario.rnd_alice "now" keyfile.Written "alice"
         listed)
  = Raise TypeError /\
  keyfile.list_keys userless = Raise (KeyError "user") /\
  keyfile.has_any_keys userless = Ok true /\
  keyfile.revoke_key "abababab" keyfile.Written userless
  = (Raise (KeyError "user"), keyfile.Text (JObj [("keys", JObj [])])).
Proof. vm_compute. repeat split. Qed.

